(** * cloud-hypervisor-provider: the machine reconciler and the VMM manager

    A shallow embedding of [internal/controllers/machine_controller.go], of
    [MakeMachineDirs] from [internal/host/paths.go] and of [Manager.CreateVM]
    from [internal/vmm/manager.go], with the properties of the reconciliation
    engine stated and proved over it.

    Conventions.
    - A Go [string] is a [string]; a [*string] is an [option string].
    - A Go [error] value is an [option error]: [None] is [nil].
    - A call that leaves the process (store, VMM manager, plugins, file
      system, work queue) is a command of [Cmd]; a function of the controller
      is a program of [Prog] over these commands, and [run] executes a program
      against any handler of the commands, recording every call and answer.
    - Logging is left out: it has no effect on the control flow. *)

From Stdlib Require Import ZArith Lia Ascii String.
From stdpp Require Import base strings list gmap.

Set Default Proof Using "Type".
Set Warnings "-register-all".
Local Open Scope string_scope.
Local Open Scope list_scope.

(** ** The Go [strings] package, as far as the controller uses it *)

Module GoStrings.

(** [strings.HasPrefix(s, prefix)]: [s] starts with the bytes of [prefix]. *)
Fixpoint HasPrefix (s prefix : string) {struct prefix} : bool :=
  match prefix, s with
  | EmptyString, _ => true
  | String _ _, EmptyString => false
  | String a prefix', String b s' => Ascii.eqb a b && HasPrefix s' prefix'
  end.

(** [s[n:]]. *)
Fixpoint drop (n : nat) (s : string) : string :=
  match n, s with
  | O, _ => s
  | S _, EmptyString => EmptyString
  | S n', String _ s' => drop n' s'
  end.

(** [s[:n]]. *)
Fixpoint take (n : nat) (s : string) : string :=
  match n, s with
  | O, _ => EmptyString
  | S _, EmptyString => EmptyString
  | S n', String c s' => String c (take n' s')
  end.

(** [strings.Index(s, substr)]: the byte offset of the first occurrence of
    [substr] in [s]; [None] stands for [-1]. *)
Fixpoint Index (s substr : string) : option nat :=
  if HasPrefix s substr then Some O
  else match s with
       | EmptyString => None
       | String _ s' => S <$> Index s' substr
       end.

(** [strings.Contains(s, substr)] is [Index(s, substr) >= 0]. *)
Definition Contains (s substr : string) : bool := bool_decide (is_Some (Index s substr)).

(** [strings.HasSuffix(s, suffix)]:
    [len(s) >= len(suffix) && s[len(s)-len(suffix):] == suffix]. *)
Definition HasSuffix (s suffix : string) : bool :=
  (String.length suffix <=? String.length s)%nat
  && String.eqb (drop (String.length s - String.length suffix) s) suffix.

(** The loop of [genSplit(s, sep, 0, -1)] for a non-empty [sep]:
<<
    for i < n {
      m := Index(s, sep)
      if m < 0 { break }
      a[i] = s[:m]
      s = s[m+len(sep):]
      i++
    }
    a[i] = s
>>
    [n - 1] is [Count(s, sep)], the number of rounds after which [Index]
    fails, so the loop always leaves through the [break]; [fuel] bounds the
    rounds. *)
Fixpoint genSplit (fuel : nat) (s sep : string) : list string :=
  match fuel with
  | O => [s]
  | S fuel' =>
      match Index s sep with
      | None => [s]
      | Some m => take m s :: genSplit fuel' (drop (m + String.length sep) s) sep
      end
  end.

(** [strings.Split(s, sep)] for a non-empty [sep].  Every round removes at
    least [len(sep) >= 1] bytes, so [len(s)] rounds are enough
    (see [genSplit_fuel]). *)
Definition Split (s sep : string) : list string := genSplit (String.length s) s sep.

End GoStrings.

Import GoStrings.

(** ** NIC identifiers (machine_controller.go, lines 202-230) *)

Definition MachineFinalizer : string := "machine".

(** [fmt.Sprintf("%s--%s--%s", "NIC", machineID, nicName)]. *)
Definition getNicID (machineID nicName : string) : string :=
  "NIC" +:+ "--" +:+ machineID +:+ "--" +:+ nicName.

Definition getNicName (id : string) : option string :=
  let parts := Split id "--" in
  if negb (length parts =? 3)%nat then None
  else if negb (String.eqb (default "" (parts !! 0%nat)) "NIC") then None
  else parts !! 2%nat.

Definition getMachineNameFromNicID (id : string) : option string :=
  let parts := Split id "--" in
  if negb (length parts =? 3)%nat then None
  else if negb (String.eqb (default "" (parts !! 0%nat)) "NIC") then None
  else parts !! 1%nat.

(** ** Go errors

    An error is one of the package-level sentinels (compared by identity), an
    error made by a collaborator outside this repository, or the result of
    [fmt.Errorf(msg + ": %w", cause)].  [fmt.Errorf] without [%w], or with a
    [nil] operand, has no cause. *)

Inductive sentinel :=
| vmm_ErrNotFound
| vmm_ErrAlreadyExists
| vmm_ErrResourceVersionNotLatest
| vmm_ErrVmInitialized
| vmm_ErrVmNotCreated
| store_ErrNotFound
| oci_ErrImagePulling.

#[global] Instance sentinel_eq_dec : EqDecision sentinel.
Proof. solve_decision. Defined.

Inductive error :=
| ErrSentinel (s : sentinel)
| ErrForeign (msg : string)
| Errorf (msg : string) (cause : option error).

Fixpoint error_is (e : error) (target : sentinel) : bool :=
  match e with
  | ErrSentinel s => bool_decide (s = target)
  | ErrForeign _ => false
  | Errorf _ (Some e') => error_is e' target
  | Errorf _ None => false
  end.

(** [errors.Is(err, target)] for a sentinel [target]. *)
Definition errors_Is (err : option error) (target : sentinel) : bool :=
  match err with
  | None => false
  | Some e => error_is e target
  end.

(** [store.IgnoreErrNotFound(err)]. *)
Definition store_IgnoreErrNotFound (err : option error) : option error :=
  if errors_Is err store_ErrNotFound then None else err.

(** The two results of a Go function returning [(T, error)]. *)
Inductive result (A : Type) :=
| Ok (a : A)
| Fail (e : error).
Arguments Ok {A} a.
Arguments Fail {A} e.

(** ** Data model (package [api] and the cloud-hypervisor client types)

    The fields are those the controller and the manager read or write, with
    the types their use shows.  A [*time.Time] is an [option Z]; [CpuMillis]
    and [MemoryBytes] are [int64] values, held in [Z].  The states are the
    named constants of the package; the zero value of a state, which a
    freshly built status has, is none of [Attached], [Prepared] or [Running]
    and stands as [Pending] here. *)

Inductive PowerState := PowerStatePowerOn | PowerStatePowerOff.
Inductive MachineState := MachineStatePending | MachineStateRunning | MachineStateTerminated.
Inductive VolumeState := VolumeStatePending | VolumeStatePrepared | VolumeStateAttached.
Inductive NetworkInterfaceState := NetworkInterfaceStatePending | NetworkInterfaceStateAttached.
Inductive MachineNetworkInterfaceState :=
| MachineNetworkInterfaceStatePending
| MachineNetworkInterfaceStateAttached.

#[global] Instance PowerState_eq_dec : EqDecision PowerState.
Proof. solve_decision. Defined.
#[global] Instance MachineState_eq_dec : EqDecision MachineState.
Proof. solve_decision. Defined.
#[global] Instance VolumeState_eq_dec : EqDecision VolumeState.
Proof. solve_decision. Defined.
#[global] Instance NetworkInterfaceState_eq_dec : EqDecision NetworkInterfaceState.
Proof. solve_decision. Defined.

Record VolumeConnection := {
  vc_Handle : string;
  vc_Driver : string;
  vc_Attributes : list (string * string)
}.

Record VolumeSpec := {
  vs_Name : string;
  vs_Connection : VolumeConnection;
  vs_DeletedAt : option Z
}.

Record VolumeStatus := {
  vst_Name : string;
  vst_Handle : string;
  vst_State : VolumeState
}.

(** An entry of [machine.Spec.NetworkInterfaces]. *)
Record MachineNetworkInterfaceSpec := {
  mni_Name : string;
  mni_NetworkId : string;
  mni_Ips : list string;
  mni_Attributes : list (string * string);
  mni_DeletedAt : option Z
}.

Record MachineNetworkInterfaceStatus := {
  mnis_Name : string;
  mnis_Handle : string;
  mnis_State : MachineNetworkInterfaceState
}.

Record NetworkInterfaceSpec := {
  nis_Name : string;
  nis_NetworkId : string;
  nis_Ips : list string;
  nis_Attributes : list (string * string)
}.

Record NetworkInterfaceStatus := {
  nist_State : NetworkInterfaceState;
  nist_Handle : string
}.

(** [api.NetworkInterface]: the separate store entity of one NIC. *)
Record NetworkInterface := {
  nic_ID : string;
  nic_DeletedAt : option Z;
  nic_Finalizers : list string;
  nic_Spec : NetworkInterfaceSpec;
  nic_Status : NetworkInterfaceStatus
}.

Record MachineSpec := {
  Power : PowerState;
  CpuMillis : Z;
  MemoryBytes : Z;
  Image : option string;
  Volumes : list VolumeSpec;
  NetworkInterfaces : list MachineNetworkInterfaceSpec;
  ApiSocketPath : option string
}.

Record MachineStatus := {
  State : MachineState;
  VolumeStatuses : list VolumeStatus;
  NetworkInterfaceStatuses : list MachineNetworkInterfaceStatus
}.

Record Machine := {
  ID : string;
  DeletedAt : option Z;
  Finalizers : list string;
  Spec : MachineSpec;
  Status : MachineStatus
}.

(** Field assignments through the [*api.Machine] pointer. *)
Definition set_Finalizers (fs : list string) (m : Machine) : Machine :=
  {| ID := ID m; DeletedAt := DeletedAt m; Finalizers := fs; Spec := Spec m; Status := Status m |}.

Definition set_ApiSocketPath (p : option string) (m : Machine) : Machine :=
  {| ID := ID m; DeletedAt := DeletedAt m; Finalizers := Finalizers m;
     Spec := {| Power := Power (Spec m); CpuMillis := CpuMillis (Spec m);
                MemoryBytes := MemoryBytes (Spec m); Image := Image (Spec m);
                Volumes := Volumes (Spec m);
                NetworkInterfaces := NetworkInterfaces (Spec m);
                ApiSocketPath := p |};
     Status := Status m |}.

Definition set_Volumes (vs : list VolumeSpec) (m : Machine) : Machine :=
  {| ID := ID m; DeletedAt := DeletedAt m; Finalizers := Finalizers m;
     Spec := {| Power := Power (Spec m); CpuMillis := CpuMillis (Spec m);
                MemoryBytes := MemoryBytes (Spec m); Image := Image (Spec m);
                Volumes := vs;
                NetworkInterfaces := NetworkInterfaces (Spec m);
                ApiSocketPath := ApiSocketPath (Spec m) |};
     Status := Status m |}.

Definition set_VolumeStatus (sts : list VolumeStatus) (m : Machine) : Machine :=
  {| ID := ID m; DeletedAt := DeletedAt m; Finalizers := Finalizers m; Spec := Spec m;
     Status := {| State := State (Status m); VolumeStatuses := sts;
                  NetworkInterfaceStatuses := NetworkInterfaceStatuses (Status m) |} |}.

Definition set_State (st : MachineState) (m : Machine) : Machine :=
  {| ID := ID m; DeletedAt := DeletedAt m; Finalizers := Finalizers m; Spec := Spec m;
     Status := {| State := st; VolumeStatuses := VolumeStatuses (Status m);
                  NetworkInterfaceStatuses := NetworkInterfaceStatuses (Status m) |} |}.

Definition set_NetworkInterfaceStatus (sts : list MachineNetworkInterfaceStatus)
    (m : Machine) : Machine :=
  {| ID := ID m; DeletedAt := DeletedAt m; Finalizers := Finalizers m; Spec := Spec m;
     Status := {| State := State (Status m); VolumeStatuses := VolumeStatuses (Status m);
                  NetworkInterfaceStatuses := sts |} |}.

Definition set_vst_State (st : VolumeState) (v : VolumeStatus) : VolumeStatus :=
  {| vst_Name := vst_Name v; vst_Handle := vst_Handle v; vst_State := st |}.

Definition set_nic_Finalizers (fs : list string) (n : NetworkInterface) : NetworkInterface :=
  {| nic_ID := nic_ID n; nic_DeletedAt := nic_DeletedAt n; nic_Finalizers := fs;
     nic_Spec := nic_Spec n; nic_Status := nic_Status n |}.

(** *** cloud-hypervisor client types ([client.VmConfig], [client.VmInfo]) *)

Inductive VmInfoState := Created | Running | Shutdown | Paused.

#[global] Instance VmInfoState_eq_dec : EqDecision VmInfoState.
Proof. solve_decision. Defined.

Record CpusConfig := { BootVcpus : Z; MaxVcpus : Z }.
Record MemoryConfig := { Size : Z; Shared : option bool }.
Record ConsoleConfig := { Mode : string }.
Record PlatformConfig := { Uuid : option string }.
Record DiskConfig := { disk_Path : string; disk_Id : option string }.
Record DeviceConfig := { dev_Path : string; dev_Id : option string }.

Record PayloadConfig := {
  Cmdline : option string;
  Firmware : option string;
  HostData : option string;
  Igvm : option string;
  Initramfs : option string;
  Kernel : option string
}.

(** [client.VmConfig], which is also [client.CreateVMJSONRequestBody]. *)
Record VmConfig := {
  Cpus : option CpusConfig;
  Devices : option (list DeviceConfig);
  Disks : option (list DiskConfig);
  Memory : option MemoryConfig;
  Console : option ConsoleConfig;
  Serial : option ConsoleConfig;
  Payload : PayloadConfig;
  Platform : option PlatformConfig
}.

Record VmInfo := { Config : VmConfig; vm_State : VmInfoState }.

(** [ociImage.Image], as far as [reconcileImage] reads it. *)
Record OciImage := { RootFS_Path : string }.

(** [host.Paths] is an interface: any record of path functions is one. *)
Record Paths := {
  MachineDir : string -> string;
  MachineRootFSDir : string -> string;
  MachineRootFSFile : string -> string;
  MachineVolumesDir : string -> string;
  MachineIgnitionsDir : string -> string;
  MachineNetworkInterfacesDir : string -> string
}.

(** ** Commands: the calls that leave the controller

    Each constructor is one call on a collaborator, indexed by the type of its
    answer.  The stores are [store.Store[*api.Machine]] and
    [store.Store[*api.NetworkInterface]]; [Vmm*] are the methods of
    [*vmm.Manager] as the controller calls them; [Client*] and [Mutex*] are
    what the manager itself calls.  [VmmGetVM] may answer [(nil, nil)]
    ([Ok None]): [Manager.GetVM] returns [res.JSON200] with a [nil] error
    whatever the status code was. *)

Inductive Cmd : Type -> Type :=
| MachinesGet (id : string) : Cmd (result Machine)
| MachinesUpdate (m : Machine) : Cmd (result Machine)
| NicsGet (id : string) : Cmd (result NetworkInterface)
| NicsCreate (n : NetworkInterface) : Cmd (result NetworkInterface)
| NicsUpdate (n : NetworkInterface) : Cmd (result NetworkInterface)
| NicsDelete (id : string) : Cmd (option error)
| VmmGetFreeApiSocket : Cmd (result (option string))
| VmmPing (apiSocket : string) : Cmd (option error)
| VmmGetVM (apiSocket : string) : Cmd (result (option VmInfo))
| VmmCreateVM (m : Machine) (nics : gmap string NetworkInterface) : Cmd (option error)
| VmmPowerOn (apiSocket : string) : Cmd (option error)
| VmmPowerOff (id : string) : Cmd (option error)
| VmmDelete (id : string) : Cmd (option error)
| VmmAddDisk (apiSocket : string) (status : VolumeStatus) : Cmd (option error)
| VmmRemoveDevice (apiSocket : string) (id : string) : Cmd (option error)
| VmmAddNIC (apiSocket : string) (nic : NetworkInterface) : Cmd (option error)
| OsMkdirAll (path : string) : Cmd (option error)
| OsRemoveAll (path : string) : Cmd (option error)
| ImageCacheGet (ref : string) : Cmd (result OciImage)
| RegularFileExists (path : string) : Cmd (result bool)
| RawCreate (path : string) (sourceFile : string) : Cmd (option error)
| FindPluginBySpec (vol : VolumeSpec) : Cmd (result string)
| PluginDelete (plugin : string) (handle : string) (machineID : string) : Cmd (option error)
| PluginApply (plugin : string) (vol : VolumeSpec) (machineID : string)
    : Cmd (result VolumeStatus)
| QueueGet : Cmd (string * bool)
| QueueAdd (id : string) : Cmd unit
| QueueAddRateLimited (id : string) : Cmd unit
| QueueForget (id : string) : Cmd unit
| QueueDone (id : string) : Cmd unit
| MutexLock (id : string) : Cmd unit
| MutexUnlock (id : string) : Cmd unit
| ClientCreateVM (client : string) (body : VmConfig) : Cmd (option error).

(** ** Programs over the commands *)

Inductive Prog (A : Type) : Type :=
| Ret (a : A)
| Panic (msg : string)
| Call {R : Type} (c : Cmd R) (k : R -> Prog A).
Arguments Ret {A} a.
Arguments Panic {A} msg.
Arguments Call {A R} c k.

Fixpoint bind {A B : Type} (p : Prog A) (f : A -> Prog B) : Prog B :=
  match p with
  | Ret a => f a
  | Panic msg => Panic msg
  | Call c k => Call c (fun r => bind (k r) f)
  end.

Definition call {R : Type} (c : Cmd R) : Prog R := Call c Ret.

(** [defer d] around [p]: [d] runs when [p] returns and when it panics. *)
Fixpoint finally {A : Type} (p : Prog A) (d : Prog unit) : Prog A :=
  match p with
  | Ret a => bind d (fun _ => Ret a)
  | Panic msg => bind d (fun _ => Panic msg)
  | Call c k => Call c (fun r => finally (k r) d)
  end.

Declare Scope prog_scope.
Delimit Scope prog_scope with prog.
Notation "x <- p ;; q" := (bind p (fun x => q))
  (at level 100, p at next level, right associativity) : prog_scope.
Notation "p ;; q" := (bind p (fun _ => q))
  (at level 100, right associativity) : prog_scope.
Local Open Scope prog_scope.

(** One recorded call: the command and the answer it got. *)
Inductive Event : Type :=
| Ev {R : Type} (c : Cmd R) (r : R).

Inductive Outcome (A : Type) :=
| Returned (a : A)
| Panicked (msg : string).
Arguments Returned {A} a.
Arguments Panicked {A} msg.

(** A handler answers every command from a world [W] of its own. *)
Definition Handler (W : Type) : Type := forall R : Type, Cmd R -> W -> R * W.

Fixpoint run {W A : Type} (h : Handler W) (p : Prog A) (w : W)
    : Outcome A * W * list Event :=
  match p with
  | Ret a => (Returned a, w, [])
  | Panic msg => (Panicked msg, w, [])
  | Call c k =>
      let '(r, w1) := h _ c w in
      let '(o, w2, tr) := run h (k r) w1 in
      (o, w2, Ev c r :: tr)
  end.

(** The commands a program can issue, whatever the answers. *)
Fixpoint calls_only {A : Type} (P : forall R, Cmd R -> Prop) (p : Prog A) : Prop :=
  match p with
  | Ret _ => True
  | Panic _ => True
  | Call c k => P _ c /\ forall r, calls_only P (k r)
  end.

Definition ev_sat (P : forall R, Cmd R -> Prop) (e : Event) : Prop :=
  match e with
  | Ev c _ => P _ c
  end.

(** ** Helpers from outside the repository *)

(** [slices.Contains(s, v)]. *)
Definition slices_Contains (s : list string) (v : string) : bool := bool_decide (v ∈ s).

(** [utils.DeleteSliceElement(s, elem)] of provider-utils: [slices.Index]
    followed by [slices.Delete] of that one position; the slice is returned
    as it is when [elem] does not occur. *)
Fixpoint DeleteSliceElement (s : list string) (elem : string) : list string :=
  match s with
  | [] => []
  | x :: s' => if String.eqb x elem then s' else x :: DeleteSliceElement s' elem
  end.

(** ** The controller (machine_controller.go) *)

(** [host.MakeMachineDirs(paths, machineUID)] (paths.go, lines 138-155). *)
Definition MakeMachineDirs (paths : Paths) (machineUID : string) : Prog (option error) :=
  err <- call (OsMkdirAll (MachineDir paths machineUID)) ;;
  match err with
  | Some e => Ret (Some (Errorf "error creating machine directory" (Some e)))
  | None =>
  err <- call (OsMkdirAll (MachineRootFSDir paths machineUID)) ;;
  match err with
  | Some e => Ret (Some (Errorf "error creating machine rootfs directory" (Some e)))
  | None =>
  err <- call (OsMkdirAll (MachineVolumesDir paths machineUID)) ;;
  match err with
  | Some e => Ret (Some (Errorf "error creating machine disks directory" (Some e)))
  | None =>
  err <- call (OsMkdirAll (MachineIgnitionsDir paths machineUID)) ;;
  match err with
  | Some e => Ret (Some (Errorf "error creating machine ignitions directory" (Some e)))
  | None =>
  err <- call (OsMkdirAll (MachineNetworkInterfacesDir paths machineUID)) ;;
  match err with
  | Some e => Ret (Some (Errorf "error creating machine network interfaces directory" (Some e)))
  | None => Ret None
  end end end end end.

(** Lines 146-153 of [Start]: the handler of NIC-store events. *)
Definition nicEventHandler (evtObject : NetworkInterface) : Prog unit :=
  match getMachineNameFromNicID (nic_ID evtObject) with
  | Some machineID => call (QueueAdd machineID)
  | None => Ret tt
  end.

(** Lines 132-136 of [Start]: the handler of machine-store events. *)
Definition machineEventHandler (evtObject : Machine) : Prog unit :=
  call (QueueAdd (ID evtObject)).

Definition getMachineState (machine : Machine) : Prog (VmInfoState * option error) :=
  let apiSocket := default "" (ApiSocketPath (Spec machine)) in
  r <- call (VmmGetVM apiSocket) ;;
  match r with
  | Fail err =>
      if errors_Is (Some err) vmm_ErrVmNotCreated || errors_Is (Some err) vmm_ErrNotFound
      then Ret (Shutdown, None)
      else Ret (Shutdown, Some err)
  | Ok None => Panic "nil pointer dereference"
  | Ok (Some vm) =>
      if bool_decide (vm_State vm = Running) then Ret (Running, None)
      else Ret (Shutdown, None)
  end.

Fixpoint getVolumeStatus (volumes : list VolumeStatus) (name : string) : VolumeStatus :=
  match volumes with
  | [] => {| vst_Name := name; vst_Handle := ""; vst_State := VolumeStatePending |}
  | vol :: rest => if String.eqb (vst_Name vol) name then vol else getVolumeStatus rest name
  end.

(** [addFinalizerToNIC] and [removeFinalizerFromNIC] write through the
    [*api.NetworkInterface] they are given: the object after the call is
    returned next to the error.  A [nil] pointer is [None]. *)
Definition addFinalizerToNIC (nic : option NetworkInterface)
    : Prog (option NetworkInterface * option error) :=
  match nic with
  | None => Panic "nil pointer dereference"
  | Some nic =>
      if slices_Contains (nic_Finalizers nic) MachineFinalizer then Ret (Some nic, None)
      else
        let nic := set_nic_Finalizers (nic_Finalizers nic ++ [MachineFinalizer]) nic in
        r <- call (NicsUpdate nic) ;;
        match r with
        | Fail err => Ret (Some nic, Some (Errorf "failed to set nic finalizers" (Some err)))
        | Ok _ => Ret (Some nic, None)
        end
  end.

Definition removeFinalizerFromNIC (nic : option NetworkInterface)
    : Prog (option NetworkInterface * option error) :=
  match nic with
  | None => Panic "nil pointer dereference"
  | Some nic =>
      if negb (slices_Contains (nic_Finalizers nic) MachineFinalizer) then Ret (Some nic, None)
      else
        let nic :=
          set_nic_Finalizers (DeleteSliceElement (nic_Finalizers nic) MachineFinalizer) nic in
        r <- call (NicsUpdate nic) ;;
        match r with
        | Fail err => Ret (Some nic, Some (Errorf "failed to remove nic finalizers" (Some err)))
        | Ok _ => Ret (Some nic, None)
        end
  end.

(** The loop of [deleteMachine], lines 279-290.  [Ok b] is the value of
    [allNicsDeleted] when the loop ends, [Fail e] a [return] out of it. *)
Fixpoint deleteMachineNics (machine : Machine) (nis : list MachineNetworkInterfaceSpec)
    (allNicsDeleted : bool) : Prog (result bool) :=
  match nis with
  | [] => Ret (Ok allNicsDeleted)
  | machineNic :: rest =>
      let nicName := getNicID (ID machine) (mni_Name machineNic) in
      r <- call (NicsGet nicName) ;;
      let nic := match r with Ok n => Some n | Fail _ => None end in
      let err := match r with Ok _ => None | Fail e => Some e end in
      if negb (errors_Is err store_ErrNotFound) then
        fr <- removeFinalizerFromNIC nic ;;
        match snd fr with
        | Some e => Ret (Fail (Errorf "failed to remove finalizer from NIC" (Some e)))
        | None =>
            err <- call (NicsDelete (getNicID (ID machine) (mni_Name machineNic))) ;;
            match store_IgnoreErrNotFound err with
            | Some _ => Ret (Fail (Errorf ("failed to delete nic " +:+ mni_Name machineNic) err))
            | None => deleteMachineNics machine rest false
            end
        end
      else deleteMachineNics machine rest allNicsDeleted
  end.

(** Lines 274-310 of [deleteMachine]: the VMM is deleted, the NICs are
    released, the directory is removed and the finalizer is stripped. *)
Definition deleteMachineAfterPowerOff (paths : Paths) (machine : Machine)
    : Prog (option error) :=
  err <- call (VmmDelete (ID machine)) ;;
  if negb (errors_Is err vmm_ErrNotFound) then Ret (Some (Errorf "failed to kill VMM" err))
  else
  r <- deleteMachineNics machine (NetworkInterfaces (Spec machine)) true ;;
  match r with
  | Fail e => Ret (Some e)
  | Ok allNicsDeleted =>
  if negb allNicsDeleted then Ret None
  else
  err <- call (OsRemoveAll (MachineDir paths (ID machine))) ;;
  match err with
  | Some e => Ret (Some (Errorf "failed to remove machine directory" (Some e)))
  | None =>
  let machine :=
    set_Finalizers (DeleteSliceElement (Finalizers machine) MachineFinalizer) machine in
  r <- call (MachinesUpdate machine) ;;
  let err := match r with Ok _ => None | Fail e => Some e end in
  match store_IgnoreErrNotFound err with
  | Some _ => Ret (Some (Errorf "failed to update machine metadata" err))
  | None => Ret None
  end
  end
  end.

Definition deleteMachine (paths : Paths) (machine : Machine) : Prog (option error) :=
  se <- getMachineState machine ;;
  match snd se with
  | Some err => Ret (Some err)
  | None =>
  if bool_decide (fst se = Running) then
    err <- call (VmmPowerOff (ID machine)) ;;
    if negb (errors_Is err vmm_ErrNotFound)
    then Ret (Some (Errorf "failed to power off machine" err))
    else deleteMachineAfterPowerOff paths machine
  else deleteMachineAfterPowerOff paths machine
  end.

(** The loop of [reconcileVolumes], lines 317-348. *)
Fixpoint reconcileVolumesLoop (machine : Machine) (vols : list VolumeSpec)
    (updatedVolumeStatus : list VolumeStatus) (updatedVolumeSpec : list VolumeSpec)
    : Prog (result (list VolumeStatus * list VolumeSpec)) :=
  match vols with
  | [] => Ret (Ok (updatedVolumeStatus, updatedVolumeSpec))
  | vol :: rest =>
      p <- call (FindPluginBySpec vol) ;;
      match p with
      | Fail err => Ret (Fail (Errorf "failed to find plugin" (Some err)))
      | Ok plugin =>
          let status := getVolumeStatus (VolumeStatuses (Status machine)) (vs_Name vol) in
          let apply : Prog (result (list VolumeStatus * list VolumeSpec)) :=
            a <- call (PluginApply plugin vol (ID machine)) ;;
            match a with
            | Fail err => Ret (Fail (Errorf "failed to apply volume" (Some err)))
            | Ok appliedVolume =>
                let appliedVolume :=
                  if bool_decide (vst_State status = VolumeStateAttached)
                  then set_vst_State (vst_State status) appliedVolume
                  else appliedVolume in
                reconcileVolumesLoop machine rest
                  (updatedVolumeStatus ++ [appliedVolume]) (updatedVolumeSpec ++ [vol])
            end in
          match vs_DeletedAt vol with
          | Some _ =>
              if negb (bool_decide (vst_State status = VolumeStateAttached)) then
                err <- call (PluginDelete plugin (vc_Handle (vs_Connection vol)) (ID machine)) ;;
                match err with
                | Some e =>
                    Ret (Fail (Errorf ("failed to delete volume " +:+ vs_Name vol) (Some e)))
                | None =>
                    reconcileVolumesLoop machine rest updatedVolumeStatus updatedVolumeSpec
                end
              else apply
          | None => apply
          end
      end
  end.

(** [reconcileVolumes] assigns to [machine.Spec.Volumes] and
    [machine.Status.VolumeStatus] through the pointer: the machine after the
    call is returned next to the error. *)
Definition reconcileVolumes (machine : Machine) : Prog (Machine * option error) :=
  r <- reconcileVolumesLoop machine (Volumes (Spec machine)) [] [] ;;
  match r with
  | Fail e => Ret (machine, Some e)
  | Ok (updatedVolumeStatus, updatedVolumeSpec) =>
      let machine := set_VolumeStatus updatedVolumeStatus (set_Volumes updatedVolumeSpec machine) in
      u <- call (MachinesUpdate machine) ;;
      match u with
      | Fail err => Ret (machine, Some (Errorf "failed to update machine status" (Some err)))
      | Ok _ => Ret (machine, None)
      end
  end.

(** The disk ids of the live VM, lines 367-375: disks without an id are skipped. *)
Definition currentDiskIds (vm : VmConfig) : gset string :=
  foldl (fun acc dev => match disk_Id dev with
                        | None => acc
                        | Some id => acc ∪ {[ id ]}
                        end)
        ∅ (default [] (Disks vm)).

(** The loop of [attachDetachDisks], lines 378-410. *)
Fixpoint attachDetachDisksLoop (apiSocket : string) (machine : Machine)
    (currentDevices : gset string) (vols : list VolumeSpec)
    (updatedVolumeStatus : list VolumeStatus) : Prog (result (list VolumeStatus)) :=
  match vols with
  | [] => Ret (Ok updatedVolumeStatus)
  | vol :: rest =>
      let status := getVolumeStatus (VolumeStatuses (Status machine)) (vs_Name vol) in
      match vs_DeletedAt vol with
      | None =>
          let attached : Prog (result (list VolumeStatus)) :=
            attachDetachDisksLoop apiSocket machine currentDevices rest
              (updatedVolumeStatus ++ [set_vst_State VolumeStateAttached status]) in
          if negb (bool_decide (vst_Handle status ∈ currentDevices)) then
            if negb (bool_decide (vst_State status = VolumeStatePrepared)) then
              attachDetachDisksLoop apiSocket machine currentDevices rest updatedVolumeStatus
            else
              err <- call (VmmAddDisk apiSocket status) ;;
              match err with
              | Some e => Ret (Fail (Errorf ("failed to add disk " +:+ vs_Name vol) (Some e)))
              | None => attached
              end
          else attached
      | Some _ =>
          if bool_decide (vst_Handle status ∈ currentDevices) then
            err <- call (VmmRemoveDevice apiSocket (vst_Handle status)) ;;
            match err with
            | Some e => Ret (Fail (Errorf ("failed to remove disk " +:+ vs_Name vol) (Some e)))
            | None =>
                attachDetachDisksLoop apiSocket machine currentDevices rest
                  (updatedVolumeStatus ++ [status])
            end
          else
            attachDetachDisksLoop apiSocket machine currentDevices rest
              (updatedVolumeStatus ++ [set_vst_State VolumeStatePrepared status])
      end
  end.

Definition attachDetachDisks (machine : Machine) (vm : VmConfig)
    : Prog (Machine * option error) :=
  let apiSocket := default "" (ApiSocketPath (Spec machine)) in
  let currentDevices := currentDiskIds vm in
  r <- attachDetachDisksLoop apiSocket machine currentDevices (Volumes (Spec machine)) [] ;;
  match r with
  | Fail e => Ret (machine, Some e)
  | Ok updatedVolumeStatus =>
      let machine := set_VolumeStatus updatedVolumeStatus machine in
      u <- call (MachinesUpdate machine) ;;
      match u with
      | Fail err => Ret (machine, Some (Errorf "failed to update machine status" (Some err)))
      | Ok _ => Ret (machine, None)
      end
  end.

(** The first loop of [reconcileNics], lines 619-642.  [desiredNics] holds
    pointers: what [removeFinalizerFromNIC] writes is seen through the map,
    so the map is threaded through the loop. *)
Fixpoint reconcileNicsDevices (apiSocket : string) (currentDevices : list DeviceConfig)
    (desiredNics : gmap string NetworkInterface) (currentNICs : gset string)
    : Prog (gmap string NetworkInterface * result (gset string)) :=
  match currentDevices with
  | [] => Ret (desiredNics, Ok currentNICs)
  | device :: rest =>
      let deviceID := default "" (dev_Id device) in
      match getNicName deviceID with
      | None => reconcileNicsDevices apiSocket rest desiredNics currentNICs
      | Some nicName =>
          match desiredNics !! nicName with
          | None => reconcileNicsDevices apiSocket rest desiredNics currentNICs
          | Some nic =>
              match nic_DeletedAt nic with
              | None =>
                  reconcileNicsDevices apiSocket rest desiredNics (currentNICs ∪ {[ nicName ]})
              | Some _ =>
                  err <- call (VmmRemoveDevice apiSocket deviceID) ;;
                  match err with
                  | Some e => Ret (desiredNics, Fail (Errorf "failed to remove nic" (Some e)))
                  | None =>
                      fr <- removeFinalizerFromNIC (Some nic) ;;
                      let desiredNics := <[ nicName := default nic (fst fr) ]> desiredNics in
                      match snd fr with
                      | Some e =>
                          Ret (desiredNics,
                               Fail (Errorf "failed to remove finalizer from NIC" (Some e)))
                      | None => reconcileNicsDevices apiSocket rest desiredNics currentNICs
                      end
                  end
              end
          end
      end
  end.

(** The second loop of [reconcileNics], lines 644-659, over the entries of
    the map.  Go leaves the order of a [range] over a map open; the order
    here is that of [map_to_list]. *)
Fixpoint reconcileNicsDesired (apiSocket : string)
    (entries : list (string * NetworkInterface))
    (desiredNics : gmap string NetworkInterface) (currentNICs : gset string)
    : Prog (gmap string NetworkInterface * option error) :=
  match entries with
  | [] => Ret (desiredNics, None)
  | (nicName, nic) :: rest =>
      match nic_DeletedAt nic with
      | Some _ => reconcileNicsDesired apiSocket rest desiredNics currentNICs
      | None =>
          if negb (bool_decide (nicName ∈ currentNICs)) then
            fr <- addFinalizerToNIC (Some nic) ;;
            let nic := default nic (fst fr) in
            let desiredNics := <[ nicName := nic ]> desiredNics in
            match snd fr with
            | Some e => Ret (desiredNics, Some (Errorf "failed to add finalizer to NIC" (Some e)))
            | None =>
                err <- call (VmmAddNIC apiSocket nic) ;;
                match err with
                | Some e =>
                    Ret (desiredNics, Some (Errorf ("failed to add NIC " +:+ nicName) (Some e)))
                | None => reconcileNicsDesired apiSocket rest desiredNics currentNICs
                end
            end
          else reconcileNicsDesired apiSocket rest desiredNics currentNICs
      end
  end.

Definition reconcileNics (machine : Machine) (desiredNics : gmap string NetworkInterface)
    (currentDevices : list DeviceConfig)
    : Prog (gmap string NetworkInterface * option error) :=
  let apiSocket := default "" (ApiSocketPath (Spec machine)) in
  r <- reconcileNicsDevices apiSocket currentDevices desiredNics ∅ ;;
  match snd r with
  | Fail e => Ret (fst r, Some e)
  | Ok currentNICs =>
      reconcileNicsDesired apiSocket (map_to_list (fst r)) (fst r) currentNICs
  end.

(** The map holds no [nil] pointer here, so the [nic == nil] test of the
    source never fires. *)
Definition nicsReady (nics : gmap string NetworkInterface) : bool :=
  forallb (fun kv => bool_decide (nist_State (nic_Status (snd kv)) = NetworkInterfaceStateAttached))
          (map_to_list nics).

Definition reconcileImage (paths : Paths) (machine : Machine) : Prog (bool * option error) :=
  let image := default "" (Image (Spec machine)) in
  if String.eqb image "" then Ret (false, None)
  else
    r <- call (ImageCacheGet image) ;;
    match r with
    | Fail err =>
        if errors_Is (Some err) oci_ErrImagePulling then Ret (true, None)
        else Ret (false, Some (Errorf "failed to get image from cache" (Some err)))
    | Ok img =>
        let rootFSFile := MachineRootFSFile paths (ID machine) in
        e <- call (RegularFileExists rootFSFile) ;;
        match e with
        | Fail err => Ret (false, Some err)
        | Ok ok =>
            if negb ok then
              err <- call (RawCreate rootFSFile (RootFS_Path img)) ;;
              match err with
              | Some e => Ret (false, Some (Errorf "error creating root fs disk" (Some e)))
              | None => Ret (false, None)
              end
            else Ret (false, None)
        end
    end.

(** The loop of [reconcileMachine], lines 479-518. *)
Fixpoint reconcileMachineNics (machine : Machine) (nis : list MachineNetworkInterfaceSpec)
    (nics : gmap string NetworkInterface) : Prog (result (gmap string NetworkInterface)) :=
  match nis with
  | [] => Ret (Ok nics)
  | networkInterface :: rest =>
      let nicID := getNicID (ID machine) (mni_Name networkInterface) in
      let found (nic : NetworkInterface) : Prog (result (gmap string NetworkInterface)) :=
        match mni_DeletedAt networkInterface with
        | Some _ =>
            err <- call (NicsDelete nicID) ;;
            match err with
            | Some e =>
                Ret (Fail (Errorf ("failed to delete network interface " +:+ nicID) (Some e)))
            | None =>
                reconcileMachineNics machine rest (<[ mni_Name networkInterface := nic ]> nics)
            end
        | None => reconcileMachineNics machine rest (<[ mni_Name networkInterface := nic ]> nics)
        end in
      r <- call (NicsGet nicID) ;;
      match r with
      | Fail err =>
          if negb (errors_Is (Some err) store_ErrNotFound)
          then Ret (Fail (Errorf "failed to fetch nic from store" (Some err)))
          else
            match mni_DeletedAt networkInterface with
            | Some _ => reconcileMachineNics machine rest nics
            | None =>
                c <- call (NicsCreate
                             {| nic_ID := nicID; nic_DeletedAt := None; nic_Finalizers := [];
                                nic_Spec := {| nis_Name := mni_Name networkInterface;
                                               nis_NetworkId := mni_NetworkId networkInterface;
                                               nis_Ips := mni_Ips networkInterface;
                                               nis_Attributes := mni_Attributes networkInterface |};
                                nic_Status := {| nist_State := NetworkInterfaceStatePending;
                                                 nist_Handle := "" |} |}) ;;
                match c with
                | Fail err => Ret (Fail (Errorf "failed to create network interface" (Some err)))
                | Ok nic => found nic
                end
            end
      | Ok nic => found nic
      end
  end.

(** The loop of lines 542-546 over the entries of [nics]. *)
Fixpoint addFinalizerToNICs (entries : list (string * NetworkInterface)) : Prog (option error) :=
  match entries with
  | [] => Ret None
  | (_, nic) :: rest =>
      fr <- addFinalizerToNIC (Some nic) ;;
      match snd fr with
      | Some e => Ret (Some (Errorf "failed to add finalizer to NIC" (Some e)))
      | None => addFinalizerToNICs rest
      end
  end.

(** Lines 586-599: the NIC status list rebuilt from the NIC objects. *)
Definition networkInterfaceStatusOf (nics : gmap string NetworkInterface)
    (nic : MachineNetworkInterfaceSpec) : MachineNetworkInterfaceStatus :=
  match nics !! mni_Name nic with
  | Some n =>
      if bool_decide (nist_State (nic_Status n) = NetworkInterfaceStateAttached)
      then {| mnis_Name := mni_Name nic; mnis_Handle := nist_Handle (nic_Status n);
              mnis_State := MachineNetworkInterfaceStateAttached |}
      else {| mnis_Name := mni_Name nic; mnis_Handle := "";
              mnis_State := MachineNetworkInterfaceStatePending |}
  | None => {| mnis_Name := mni_Name nic; mnis_Handle := "";
               mnis_State := MachineNetworkInterfaceStatePending |}
  end.

Definition isErr (err : option error) : bool :=
  match err with
  | Some _ => true
  | None => false
  end.

Definition wrapErr (msg : string) (err : option error) : option error :=
  match err with
  | Some e => Some (Errorf msg (Some e))
  | None => None
  end.

(** Lines 460-470: the API socket assignment.  [Ok machine] is the machine
    the rest of the pass works on. *)
Definition assignApiSocket (machine : Machine) : Prog (result Machine) :=
  match ApiSocketPath (Spec machine) with
  | Some _ => Ret (Ok machine)
  | None =>
      s <- call VmmGetFreeApiSocket ;;
      match s with
      | Fail err => Ret (Fail (Errorf "failed to get free api socket" (Some err)))
      | Ok sock =>
          let machine := set_ApiSocketPath sock machine in
          u <- call (MachinesUpdate machine) ;;
          match u with
          | Fail err => Ret (Fail (Errorf "failed to update machine status" (Some err)))
          | Ok machine => Ret (Ok machine)
          end
      end
  end.

(** Lines 557-570: power. *)
Definition reconcilePower (apiSocket : string) (machine : Machine) (vm : VmInfo)
    : Prog (option error) :=
  match Power (Spec machine) with
  | PowerStatePowerOn =>
      if negb (bool_decide (vm_State vm = Running)) then
        err <- call (VmmPowerOn apiSocket) ;;
        Ret (wrapErr "failed to power on VM" err)
      else Ret None
  | PowerStatePowerOff =>
      if bool_decide (vm_State vm = Running) then
        err <- call (VmmPowerOff apiSocket) ;;
        Ret (wrapErr "failed to power off VM" err)
      else Ret None
  end.

(** Lines 553-607: what [reconcileMachine] does with a live VM. *)
Definition reconcileLiveVM (apiSocket : string) (machine : Machine)
    (nics : gmap string NetworkInterface) (vm : VmInfo) : Prog (option error) :=
  let platform := default {| Uuid := None |} (Platform (Config vm)) in
  if negb (String.eqb (default "" (Uuid platform)) (ID machine))
  then Ret (Some (Errorf "machine and vm IDs do not match" None))
  else
  err <- reconcilePower apiSocket machine vm ;;
  match err with
  | Some e => Ret (Some e)
  | None =>
  rn <- reconcileNics machine nics (default [] (Devices (Config vm))) ;;
  let nics := fst rn in
  match snd rn with
  | Some e => Ret (Some (Errorf "failed to reconcile nics" (Some e)))
  | None =>
  ad <- attachDetachDisks machine (Config vm) ;;
  let machine := fst ad in
  match snd ad with
  | Some e => Ret (Some (Errorf "failed to attach detach disks" (Some e)))
  | None =>
  let machine :=
    set_State (match Power (Spec machine) with
               | PowerStatePowerOn => MachineStateRunning
               | PowerStatePowerOff => MachineStateTerminated
               end) machine in
  let machine :=
    set_NetworkInterfaceStatus
      (networkInterfaceStatusOf nics <$> NetworkInterfaces (Spec machine)) machine in
  u <- call (MachinesUpdate machine) ;;
  match u with
  | Fail err => Ret (Some (Errorf "failed to update machine status" (Some err)))
  | Ok _ => Ret None
  end
  end end end.

(** Lines 526-551: the VM is not created yet. *)
Definition reconcileNoVM (machine : Machine) (nics : gmap string NetworkInterface)
    (err : error) : Prog (option error) :=
  if negb (errors_Is (Some err) vmm_ErrVmNotCreated)
  then Ret (Some (Errorf "failed to get vm" (Some err)))
  else if negb (nicsReady nics) then Ret None
  else
    err <- call (VmmCreateVM machine nics) ;;
    match err with
    | Some e => Ret (Some (Errorf "failed to create VM" (Some e)))
    | None =>
        err <- addFinalizerToNICs (map_to_list nics) ;;
        match err with
        | Some e => Ret (Some e)
        | None => call (QueueAdd (ID machine)) ;; Ret None
        end
    end.

(** Lines 472-551 of [reconcileMachine]: the pass once the machine has its
    socket path. *)
Definition reconcileWithSocket (machine : Machine) : Prog (option error) :=
  let apiSocket := default "" (ApiSocketPath (Spec machine)) in
  err <- call (VmmPing apiSocket) ;;
  match err with
  | Some e => Ret (Some (Errorf "failed to ping vmm" (Some e)))
  | None =>
  n <- reconcileMachineNics machine (NetworkInterfaces (Spec machine)) ∅ ;;
  match n with
  | Fail e => Ret (Some e)
  | Ok nics =>
  rv <- reconcileVolumes machine ;;
  let machine := fst rv in
  match snd rv with
  | Some e => Ret (Some (Errorf "failed to reconcile volumes" (Some e)))
  | None =>
  v <- call (VmmGetVM apiSocket) ;;
  match v with
  | Fail err => reconcileNoVM machine nics err
  | Ok None => Panic "nil pointer dereference"
  | Ok (Some vm) => reconcileLiveVM apiSocket machine nics vm
  end
  end end end.

Definition reconcileMachine (paths : Paths) (id : string) : Prog (option error) :=
  g <- call (MachinesGet id) ;;
  match g with
  | Fail err =>
      if negb (errors_Is (Some err) store_ErrNotFound)
      then Ret (Some (Errorf "failed to fetch machine from store" (Some err)))
      else Ret None
  | Ok machine =>
  match DeletedAt machine with
  | Some _ =>
      err <- deleteMachine paths machine ;;
      Ret (wrapErr "failed to delete machine" err)
  | None =>
  if negb (slices_Contains (Finalizers machine) MachineFinalizer) then
    let machine := set_Finalizers (Finalizers machine ++ [MachineFinalizer]) machine in
    u <- call (MachinesUpdate machine) ;;
    match u with
    | Fail err => Ret (Some (Errorf "failed to set finalizers" (Some err)))
    | Ok _ => Ret None
    end
  else
  err <- MakeMachineDirs paths (ID machine) ;;
  match err with
  | Some e => Ret (Some (Errorf "error making machine directories" (Some e)))
  | None =>
  ri <- reconcileImage paths machine ;;
  if isErr (snd ri) || fst ri then Ret (snd ri)
  else
  sa <- assignApiSocket machine ;;
  match sa with
  | Fail e => Ret (Some e)
  | Ok machine => reconcileWithSocket machine
  end
  end
  end
  end.

(** [processNextWorkItem]: [defer r.queue.Done(id)] runs on every way out. *)
Definition processNextWorkItem (paths : Paths) : Prog bool :=
  g <- call QueueGet ;;
  let id := fst g in
  if snd g then Ret false
  else
    finally
      (err <- reconcileMachine paths id ;;
       match err with
       | Some _ => call (QueueAddRateLimited id) ;; Ret true
       | None => call (QueueForget id) ;; Ret true
       end)
      (call (QueueDone id)).

(** ** The VMM manager (manager.go, [Manager.CreateVM]) *)

Module Vmm.

(** [vms] maps a machine id to its client; a client is named by the socket
    it talks to. *)
Record Manager := {
  vms : gmap string string;
  paths : Paths;
  cloudHypervisorBin : string;
  firmwarePath : string;
  detachVms : bool
}.

(** The [float64] values that arise in [CreateVM] are whole numbers; such a
    value is represented by the integer it denotes. *)
Definition float64 : Type := Z.

(** [float64(z)] for an integer [z]: the nearest number with a 53-bit
    significand, ties to the even significand. *)
Definition float64_of_int (z : Z) : float64 :=
  (let a := Z.abs z in
   let e := Z.log2 a - 52 in
   if e <=? 0 then z
   else
     let q := Z.shiftr a e in
     let r := Z.land a (Z.ones e) in
     let half := Z.shiftl 1 (e - 1) in
     let q' := if r <? half then q
               else if half <? r then q + 1
               else if Z.even q then q else q + 1 in
     Z.sgn z * Z.shiftl q' e)%Z.

(** [math.Max] on finite values. *)
Definition math_Max (x y : float64) : float64 := Z.max x y.

(** [int(f)] for a whole [f] within the range of [int]. *)
Definition int_of_float64 (f : float64) : Z := f.

(** [int(math.Max(float64(cpuMillis/1000), 1))]; Go's [/] on integers
    truncates toward zero. *)
Definition vcpus (cpuMillis : Z) : Z :=
  int_of_float64 (math_Max (float64_of_int (Z.quot cpuMillis 1000)) 1%Z).

(** The request body built at lines 222-257. *)
Definition createVMBody (m : Manager) (machine : Machine) : VmConfig :=
  let machineId := ID machine in
  let payload :=
    {| Cmdline := None; Firmware := Some (firmwarePath m); HostData := None;
       Igvm := None; Initramfs := None; Kernel := None |} in
  let disks :=
    if negb (String.eqb (default "" (Image (Spec machine))) "")
    then [ {| disk_Path := MachineRootFSFile (paths m) machineId; disk_Id := None |} ]
    else [] in
  {| Cpus := Some {| BootVcpus := vcpus (CpuMillis (Spec machine));
                     MaxVcpus := vcpus (CpuMillis (Spec machine)) |};
     Devices := None;
     Disks := Some disks;
     Memory := Some {| Size := MemoryBytes (Spec machine); Shared := Some true |};
     Console := Some {| Mode := "Off" |};
     Serial := Some {| Mode := "Tty" |};
     Payload := payload;
     Platform := None |}.

Definition CreateVM (m : Manager) (machine : Machine) : Prog (option error) :=
  let machineId := ID machine in
  call (MutexLock machineId) ;;
  finally
    match vms m !! machineId with
    | None => Ret (Some (ErrSentinel vmm_ErrNotFound))
    | Some apiClient =>
        err <- call (ClientCreateVM apiClient (createVMBody m machine)) ;;
        match err with
        | Some e => Ret (Some (Errorf "failed to get vm" (Some e)))
        | None => Ret None
        end
    end
    (call (MutexUnlock machineId)).

End Vmm.

(** ** An in-memory double of the collaborators

    Used to run the programs on concrete inputs.  The two stores are maps;
    an object marked deleted that holds no finalizer is dropped on update.
    The answers of the VMM manager are fields of the world. *)

Module Demo.

Record World := {
  machines : gmap string Machine;
  nics : gmap string NetworkInterface;
  queue : list string;
  rateLimited : list string;
  getVM : result (option VmInfo);
  vmmDelete : option error;
  freeSocket : option string
}.

Definition with_machines (ms : gmap string Machine) (w : World) : World :=
  {| machines := ms; nics := nics w; queue := queue w; rateLimited := rateLimited w;
     getVM := getVM w; vmmDelete := vmmDelete w; freeSocket := freeSocket w |}.

Definition with_nics (ns : gmap string NetworkInterface) (w : World) : World :=
  {| machines := machines w; nics := ns; queue := queue w; rateLimited := rateLimited w;
     getVM := getVM w; vmmDelete := vmmDelete w; freeSocket := freeSocket w |}.

Definition with_queue (q : list string) (w : World) : World :=
  {| machines := machines w; nics := nics w; queue := q; rateLimited := rateLimited w;
     getVM := getVM w; vmmDelete := vmmDelete w; freeSocket := freeSocket w |}.

Definition with_rateLimited (q : list string) (w : World) : World :=
  {| machines := machines w; nics := nics w; queue := queue w; rateLimited := q;
     getVM := getVM w; vmmDelete := vmmDelete w; freeSocket := freeSocket w |}.

Definition machinesUpdate (m : Machine) (w : World) : result Machine * World :=
  match machines w !! ID m with
  | None => (Fail (ErrSentinel store_ErrNotFound), w)
  | Some _ =>
      match DeletedAt m, Finalizers m with
      | Some _, [] => (Ok m, with_machines (delete (ID m) (machines w)) w)
      | _, _ => (Ok m, with_machines (<[ ID m := m ]> (machines w)) w)
      end
  end.

Definition nicsUpdate (n : NetworkInterface) (w : World) : result NetworkInterface * World :=
  match nics w !! nic_ID n with
  | None => (Fail (ErrSentinel store_ErrNotFound), w)
  | Some _ =>
      match nic_DeletedAt n, nic_Finalizers n with
      | Some _, [] => (Ok n, with_nics (delete (nic_ID n) (nics w)) w)
      | _, _ => (Ok n, with_nics (<[ nic_ID n := n ]> (nics w)) w)
      end
  end.

Definition nicsDelete (id : string) (w : World) : option error * World :=
  match nics w !! id with
  | None => (Some (ErrSentinel store_ErrNotFound), w)
  | Some n =>
      match nic_Finalizers n with
      | [] => (None, with_nics (delete id (nics w)) w)
      | _ =>
          (None,
           with_nics (<[ id := {| nic_ID := nic_ID n; nic_DeletedAt := Some 1%Z;
                                  nic_Finalizers := nic_Finalizers n;
                                  nic_Spec := nic_Spec n;
                                  nic_Status := nic_Status n |} ]> (nics w)) w)
      end
  end.

Definition handler : Handler World :=
  fun R c =>
    match c in Cmd R return World -> R * World with
    | MachinesGet id => fun w =>
        (match machines w !! id with
         | Some m => Ok m
         | None => Fail (ErrSentinel store_ErrNotFound)
         end, w)
    | MachinesUpdate m => machinesUpdate m
    | NicsGet id => fun w =>
        (match nics w !! id with
         | Some n => Ok n
         | None => Fail (ErrSentinel store_ErrNotFound)
         end, w)
    | NicsCreate n => fun w => (Ok n, with_nics (<[ nic_ID n := n ]> (nics w)) w)
    | NicsUpdate n => nicsUpdate n
    | NicsDelete id => nicsDelete id
    | VmmGetFreeApiSocket => fun w => (Ok (freeSocket w), w)
    | VmmPing _ => fun w => (None, w)
    | VmmGetVM _ => fun w => (getVM w, w)
    | VmmCreateVM _ _ => fun w => (None, w)
    | VmmPowerOn _ => fun w => (None, w)
    | VmmPowerOff _ => fun w => (None, w)
    | VmmDelete _ => fun w => (vmmDelete w, w)
    | VmmAddDisk _ _ => fun w => (None, w)
    | VmmRemoveDevice _ _ => fun w => (None, w)
    | VmmAddNIC _ _ => fun w => (None, w)
    | OsMkdirAll _ => fun w => (None, w)
    | OsRemoveAll _ => fun w => (None, w)
    | ImageCacheGet _ => fun w => (Ok {| RootFS_Path := "/images/rootfs" |}, w)
    | RegularFileExists _ => fun w => (Ok true, w)
    | RawCreate _ _ => fun w => (None, w)
    | FindPluginBySpec _ => fun w => (Ok "ceph", w)
    | PluginDelete _ _ _ => fun w => (None, w)
    | PluginApply _ vol _ => fun w =>
        (Ok {| vst_Name := vs_Name vol; vst_Handle := vc_Handle (vs_Connection vol);
               vst_State := VolumeStatePrepared |}, w)
    | QueueGet => fun w =>
        match queue w with
        | [] => (("", true), w)
        | id :: rest => ((id, false), with_queue rest w)
        end
    | QueueAdd id => fun w => (tt, with_queue (queue w ++ [id]) w)
    | QueueAddRateLimited id => fun w => (tt, with_rateLimited (rateLimited w ++ [id]) w)
    | QueueForget _ => fun w => (tt, w)
    | QueueDone _ => fun w => (tt, w)
    | MutexLock _ => fun w => (tt, w)
    | MutexUnlock _ => fun w => (tt, w)
    | ClientCreateVM _ _ => fun w => (None, w)
    end.

Definition paths : Paths :=
  {| MachineDir := fun id => "/var/lib/chp/machines/" +:+ id;
     MachineRootFSDir := fun id => "/var/lib/chp/machines/" +:+ id +:+ "/rootfs";
     MachineRootFSFile := fun id => "/var/lib/chp/machines/" +:+ id +:+ "/rootfs/rootfs";
     MachineVolumesDir := fun id => "/var/lib/chp/machines/" +:+ id +:+ "/volumes";
     MachineIgnitionsDir := fun id => "/var/lib/chp/machines/" +:+ id +:+ "/ignitions";
     MachineNetworkInterfacesDir :=
       fun id => "/var/lib/chp/machines/" +:+ id +:+ "/networkinterfaces" |}.

Definition spec0 : MachineSpec :=
  {| Power := PowerStatePowerOn; CpuMillis := 4000; MemoryBytes := 4294967296;
     Image := None; Volumes := []; NetworkInterfaces := []; ApiSocketPath := None |}.

Definition status0 : MachineStatus :=
  {| State := MachineStatePending; VolumeStatuses := []; NetworkInterfaceStatuses := [] |}.

(** A machine as the gRPC layer creates it. *)
Definition fresh : Machine :=
  {| ID := "m1"; DeletedAt := None; Finalizers := []; Spec := spec0; Status := status0 |}.

(** The same machine after the finalizer pass. *)
Definition finalized : Machine := set_Finalizers [MachineFinalizer] fresh.

(** ... and after the socket assignment. *)
Definition socketed : Machine := set_ApiSocketPath (Some "/run/chp/m1.sock") finalized.

Definition world_of (m : Machine) : World :=
  {| machines := {[ ID m := m ]}; nics := ∅; queue := []; rateLimited := [];
     getVM := Fail (ErrSentinel vmm_ErrVmNotCreated); vmmDelete := None;
     freeSocket := Some "/run/chp/m1.sock" |}.

End Demo.

(** ** Reasoning about every run of a program

    [post p Q] says that [Q] holds of the outcome and of the trace of [p]
    whatever the collaborators answer. *)

Fixpoint post {A : Type} (p : Prog A) (Q : Outcome A -> list Event -> Prop) : Prop :=
  match p with
  | Ret a => Q (Returned a) []
  | Panic msg => Q (Panicked msg) []
  | Call c k => forall r, post (k r) (fun o tr => Q o (Ev c r :: tr))
  end.

(** Classes of commands. *)
Definition isGetVM (R : Type) (c : Cmd R) : Prop :=
  match c with
  | VmmGetVM _ => True
  | _ => False
  end.

Definition notGetVM (R : Type) (c : Cmd R) : Prop := ~ isGetVM R c.

(** The calls by which [deleteMachine] releases the machine itself: the
    removal of its directory and the update that strips its finalizer. *)
Definition isMachineRelease (R : Type) (c : Cmd R) : Prop :=
  match c with
  | OsRemoveAll _ => True
  | MachinesUpdate _ => True
  | _ => False
  end.

Module DemoInputs.

Import Demo.

(** The machine once [deletedAt] is set from outside. *)
Definition doomed : Machine :=
  {| ID := "m1"; DeletedAt := Some 7%Z; Finalizers := [MachineFinalizer];
     Spec := Spec socketed; Status := status0 |}.

(** A live VM that belongs to another machine. *)
Definition foreignVM : VmInfo :=
  {| Config := {| Cpus := None; Devices := None; Disks := None; Memory := None;
                  Console := None; Serial := None;
                  Payload := {| Cmdline := None; Firmware := None; HostData := None;
                                Igvm := None; Initramfs := None; Kernel := None |};
                  Platform := Some {| Uuid := Some "m2" |} |};
     vm_State := Running |}.

Definition with_getVM (v : result (option VmInfo)) (w : World) : World :=
  {| machines := machines w; nics := nics w; queue := queue w; rateLimited := rateLimited w;
     getVM := v; vmmDelete := vmmDelete w; freeSocket := freeSocket w |}.

Definition with_vmmDelete (e : option error) (w : World) : World :=
  {| machines := machines w; nics := nics w; queue := queue w; rateLimited := rateLimited w;
     getVM := getVM w; vmmDelete := e; freeSocket := freeSocket w |}.

Definition nic0 : NetworkInterface :=
  {| nic_ID := "NIC--m1--eth0"; nic_DeletedAt := None; nic_Finalizers := [];
     nic_Spec := {| nis_Name := "eth0"; nis_NetworkId := "net"; nis_Ips := [];
                    nis_Attributes := [] |};
     nic_Status := {| nist_State := NetworkInterfaceStateAttached; nist_Handle := "tap0" |} |}.

Definition nic1 : NetworkInterface := set_nic_Finalizers [MachineFinalizer] nic0.

End DemoInputs.


(** ** Predicates on recorded calls *)

(** [P] holds of every machine handed to the machine store's [Update]. *)
Definition on_MachinesUpdate (P : Machine -> Prop) (e : Event) : Prop :=
  match e with
  | Ev c _ =>
      match c with
      | MachinesUpdate m => P m
      | _ => True
      end
  end.

(** The state a volume of the spec has in the current status. *)
Definition currentVolumeState (machine : Machine) (vol : VolumeSpec) : VolumeState :=
  vst_State (getVolumeStatus (VolumeStatuses (Status machine)) (vs_Name vol)).

(** [m'] keeps what is [Attached] in [machine]: its status list runs along
    its volume list, the status of a volume that is currently [Attached] is
    [Attached], and no currently [Attached] volume of [machine] is missing. *)
Definition keepsAttached (machine m' : Machine) : Prop :=
  Forall2 (fun vol st =>
             currentVolumeState machine vol = VolumeStateAttached ->
             vst_State st = VolumeStateAttached)
          (Volumes (Spec m')) (VolumeStatuses (Status m'))
  /\ forall vol, vol ∈ Volumes (Spec machine) ->
       currentVolumeState machine vol = VolumeStateAttached ->
       vol ∈ Volumes (Spec m').

(** The NIC store answered a [Get] with an object. *)
Definition nicFound (e : Event) : Prop :=
  match e with
  | Ev c r =>
      match c in Cmd R return R -> Prop with
      | NicsGet _ => fun r => match r with Ok _ => True | Fail _ => False end
      | _ => fun _ => False
      end r
  end.

(** A call on the NIC store failed, other than by not-found. *)
Definition nicStoreFault (e : Event) : Prop :=
  match e with
  | Ev c r =>
      match c in Cmd R return R -> Prop with
      | NicsGet _ => fun r =>
          match r with
          | Ok _ => False
          | Fail err => error_is err store_ErrNotFound = false
          end
      | NicsUpdate _ => fun r => match r with Ok _ => False | Fail _ => True end
      | NicsDelete _ => fun r => isErr (store_IgnoreErrNotFound r) = true
      | _ => fun _ => False
      end r
  end.

Definition isNicStoreCall (R : Type) (c : Cmd R) : Prop :=
  match c with
  | NicsGet _ | NicsCreate _ | NicsUpdate _ | NicsDelete _ => True
  | _ => False
  end.

Definition notMachineRelease (R : Type) (c : Cmd R) : Prop := ~ isMachineRelease R c.

Definition notMachinesUpdate (R : Type) (c : Cmd R) : Prop :=
  match c with
  | MachinesUpdate _ => False
  | _ => True
  end.


Module DemoVolumes.

Import Demo.

Definition dataVolume : VolumeSpec :=
  {| vs_Name := "data";
     vs_Connection := {| vc_Handle := "h-data"; vc_Driver := "ceph"; vc_Attributes := [] |};
     vs_DeletedAt := None |}.

(** A machine whose volume ["data"] is attached. *)
Definition attached : Machine :=
  set_VolumeStatus
    [ {| vst_Name := "data"; vst_Handle := "h-data"; vst_State := VolumeStateAttached |} ]
    (set_Volumes [dataVolume] socketed).

End DemoVolumes.


(** The trace shows that the NIC object of [ni] was absent when teardown
    looked it up: the NIC store answered its [Get] with not-found. *)
Definition nicAbsentAt (machine : Machine) (tr : list Event)
    (ni : MachineNetworkInterfaceSpec) : Prop :=
  exists e, Ev (NicsGet (getNicID (ID machine) (mni_Name ni))) (Fail e) ∈ tr
            /\ error_is e store_ErrNotFound = true.

(** The order of teardown, as a property of one pass of [deleteMachine]. *)
Definition teardownOrdered (machine : Machine) (o : Outcome (option error))
    (tr : list Event) : Prop :=
  (Exists (ev_sat isMachineRelease) tr ->
   forall ni, ni ∈ NetworkInterfaces (Spec machine) -> nicAbsentAt machine tr ni)
  /\ (Exists nicFound tr ->
      Forall (ev_sat notMachineRelease) tr
      /\ (Forall (fun e => ~ nicStoreFault e) tr -> o = Returned None)).


Module DemoTeardown.

Import Demo DemoInputs.

Definition eth0 : MachineNetworkInterfaceSpec :=
  {| mni_Name := "eth0"; mni_NetworkId := "net"; mni_Ips := []; mni_Attributes := [];
     mni_DeletedAt := None |}.

(** A machine marked deleted that references the NIC ["eth0"]. *)
Definition doomedWithNic : Machine :=
  {| ID := "m1"; DeletedAt := Some 7%Z; Finalizers := [MachineFinalizer];
     Spec := {| Power := PowerStatePowerOn; CpuMillis := 4000; MemoryBytes := 4294967296;
                Image := None; Volumes := []; NetworkInterfaces := [eth0];
                ApiSocketPath := Some "/run/chp/m1.sock" |};
     Status := status0 |}.

(** The VMM is gone already; the NIC object still exists, with the finalizer. *)
Definition nicPresent : World :=
  with_nics {[ "NIC--m1--eth0" := nic1 ]}
    (with_vmmDelete (Some (ErrSentinel vmm_ErrNotFound)) (world_of doomedWithNic)).

(** ... and the same once the NIC object is gone. *)
Definition nicGone : World :=
  with_vmmDelete (Some (ErrSentinel vmm_ErrNotFound)) (world_of doomedWithNic).

End DemoTeardown.


Module DemoVmm.

(** A manager that holds the client of machine ["m1"]. *)
Definition manager : Vmm.Manager :=
  {| Vmm.vms := {[ "m1" := "/run/chp/m1.sock" ]};
     Vmm.paths := Demo.paths;
     Vmm.cloudHypervisorBin := "/usr/bin/cloud-hypervisor";
     Vmm.firmwarePath := "/usr/share/chp/hypervisor-fw";
     Vmm.detachVms := true |}.

(** A machine whose [CpuMillis], an [int64], is beyond the whole numbers a
    [float64] holds exactly. *)
Definition huge : Machine :=
  {| ID := "m1"; DeletedAt := None; Finalizers := [MachineFinalizer];
     Spec := {| Power := PowerStatePowerOn; CpuMillis := 9007199254740993000;
                MemoryBytes := 4294967296; Image := None; Volumes := [];
                NetworkInterfaces := []; ApiSocketPath := Some "/run/chp/m1.sock" |};
     Status := Demo.status0 |}.

End DemoVmm.


(** [platform.uuid] of a live VM, as line 553 reads it. *)
Definition vmUuid (vm : VmInfo) : string :=
  default "" (Uuid (default {| Uuid := None |} (Platform (Config vm)))).

(** The VMM manager answered [GetVM] with a VM whose uuid is not [id]. *)
Definition identityMismatch (id : string) (e : Event) : Prop :=
  match e with
  | Ev c r =>
      match c in Cmd R return R -> Prop with
      | VmmGetVM _ => fun r =>
          match r with
          | Ok (Some vm) => vmUuid vm <> id
          | _ => False
          end
      | _ => fun _ => False
      end r
  end.

(** The machine store answers with objects that carry the id [id]. *)
Definition storeKeepsId (id : string) (e : Event) : Prop :=
  match e with
  | Ev c r =>
      match c in Cmd R return R -> Prop with
      | MachinesGet _ => fun r => match r with Ok m => ID m = id | Fail _ => True end
      | MachinesUpdate _ => fun r => match r with Ok m => ID m = id | Fail _ => True end
      | _ => fun _ => True
      end r
  end.

(** The pass began by loading a machine that is not marked deleted. *)
Definition loadedLive (tr : list Event) : Prop :=
  match tr with
  | Ev c r :: _ =>
      match c in Cmd R return R -> Prop with
      | MachinesGet _ => fun r =>
          match r with
          | Ok m => DeletedAt m = None
          | Fail _ => False
          end
      | _ => fun _ => False
      end r
  | [] => False
  end.

Definition errIdentityMismatch : error := Errorf "machine and vm IDs do not match" None.

(** In a pass that meets an identity mismatch, the mismatching answer is the
    last call of the pass and the pass fails with the identity-mismatch
    error. *)
Definition mismatchStops (id : string) (o : Outcome (option error)) (tr : list Event) : Prop :=
  Forall (storeKeepsId id) tr ->
  Exists (identityMismatch id) tr ->
  o = Returned (Some errIdentityMismatch)
  /\ exists e, last tr = Some e /\ identityMismatch id e.


Module DemoMismatch.

Import Demo DemoInputs.

(** Machine ["m1"] is queued; the VMM on its socket runs the VM of ["m2"]. *)
Definition world : World :=
  with_queue ["m1"] (with_getVM (Ok (Some foreignVM)) (world_of socketed)).

(** The world when the worker has taken ["m1"] from the queue. *)
Definition taken : World := with_getVM (Ok (Some foreignVM)) (world_of socketed).

(** The calls of [reconcileMachine] for ["m1"] in that world. *)
Definition reconcileTrace : list Event :=
  [Ev (MachinesGet "m1") (Ok socketed);
   Ev (OsMkdirAll "/var/lib/chp/machines/m1") None;
   Ev (OsMkdirAll "/var/lib/chp/machines/m1/rootfs") None;
   Ev (OsMkdirAll "/var/lib/chp/machines/m1/volumes") None;
   Ev (OsMkdirAll "/var/lib/chp/machines/m1/ignitions") None;
   Ev (OsMkdirAll "/var/lib/chp/machines/m1/networkinterfaces") None;
   Ev (VmmPing "/run/chp/m1.sock") None;
   Ev (MachinesUpdate socketed) (Ok socketed);
   Ev (VmmGetVM "/run/chp/m1.sock") (Ok (Some foreignVM))].

End DemoMismatch.


(** ** Machine classes (package [machineclasses], in paths.go, lines 157-208) *)

Module MachineClasses.

Record MachineClass := {
  Name : string;
  Cpu : Z;
  MemoryBytes : Z;
  NvidiaGpu : Z
}.

(** The loop of [NewRegistry]: [Fail] is the [return nil, err] out of it. *)
Fixpoint NewRegistryLoop (classes : list MachineClass) (registry : gmap string MachineClass)
    : result (gmap string MachineClass) :=
  match classes with
  | [] => Ok registry
  | class :: rest =>
      match registry !! Name class with
      | Some _ =>
          Fail (Errorf ("multiple classes with same name (" +:+ Name class +:+ ") found") None)
      | None => NewRegistryLoop rest (<[ Name class := class ]> registry)
      end
  end.

Definition NewRegistry (classes : list MachineClass) : result (gmap string MachineClass) :=
  NewRegistryLoop classes ∅.

(** [Get] returns [(class, found)]: [None] is [found = false]. *)
Definition Get (m : gmap string MachineClass) (machineClassName : string)
    : option MachineClass :=
  m !! machineClassName.

(** [List] ranges over the map; the order is that of [map_to_list]. *)
Definition List (m : gmap string MachineClass) : list MachineClass :=
  (map_to_list m).*2.

End MachineClasses.

(** The classes as entries of the registry: each class under its name. *)
Definition classEntries (classes : list MachineClasses.MachineClass)
    : list (string * MachineClasses.MachineClass) :=
  (fun c => (MachineClasses.Name c, c)) <$> classes.

Module DemoClasses.
Import MachineClasses.

Definition small : MachineClass :=
  {| Name := "small"; Cpu := 1000; MemoryBytes := 1073741824; NvidiaGpu := 0 |}.

Definition large : MachineClass :=
  {| Name := "large"; Cpu := 8000; MemoryBytes := 17179869184; NvidiaGpu := 1 |}.

Definition registry : gmap string MachineClass :=
  <[ "large" := large ]> (<[ "small" := small ]> ∅).

End DemoClasses.

(** [strings.Join(elems, sep)]. *)
Fixpoint strings_Join (elems : list string) (sep : string) : string :=
  match elems with
  | [] => ""
  | [e] => e
  | e :: rest => e +:+ sep +:+ strings_Join rest sep
  end.


(** ** Further predicates on recorded calls *)

(** The directories of a machine, in the order [MakeMachineDirs] makes them. *)
Definition machineDirs (paths : Paths) (machineUID : string) : list string :=
  [MachineDir paths machineUID; MachineRootFSDir paths machineUID;
   MachineVolumesDir paths machineUID; MachineIgnitionsDir paths machineUID;
   MachineNetworkInterfacesDir paths machineUID].

(** A directory made without error. *)
Definition mkdirDone (path : string) : Event := Ev (OsMkdirAll path) None.

Definition isRawCreate (e : Event) : Prop :=
  match e with
  | Ev c _ =>
      match c with
      | RawCreate _ _ => True
      | _ => False
      end
  end.

(** The file check answered that the machine's rootfs file does not exist. *)
Definition rootfsMissing (paths : Paths) (machine : Machine) (e : Event) : Prop :=
  match e with
  | Ev c r =>
      match c in Cmd R return R -> Prop with
      | RegularFileExists path =>
          fun r => path = MachineRootFSFile paths (ID machine) /\ r = Ok false
      | _ => fun _ => False
      end r
  end.

(** The image cache answered that the machine's image is still being pulled. *)
Definition imagePulling (machine : Machine) (e : Event) : Prop :=
  match e with
  | Ev c r =>
      match c in Cmd R return R -> Prop with
      | ImageCacheGet ref =>
          fun r => ref = default "" (Image (Spec machine))
                   /\ exists err, r = Fail err /\ error_is err oci_ErrImagePulling = true
      | _ => fun _ => False
      end r
  end.

Module DemoImage.

Import Demo.

(** The double with an image cache that is still pulling. *)
Definition pullingHandler : Handler World :=
  fun R c =>
    match c in Cmd R return World -> R * World with
    | ImageCacheGet _ => fun w => (Fail (ErrSentinel oci_ErrImagePulling), w)
    | c' => handler _ c'
    end.

Definition withImage : Machine :=
  {| ID := "m1"; DeletedAt := None; Finalizers := [MachineFinalizer];
     Spec := {| Power := PowerStatePowerOn; CpuMillis := 4000; MemoryBytes := 4294967296;
                Image := Some "registry/os:1"; Volumes := []; NetworkInterfaces := [];
                ApiSocketPath := None |};
     Status := status0 |}.

End DemoImage.


(** The status [attachDetachDisks] reads for a volume. *)
Definition diskStatus (machine : Machine) (vol : VolumeSpec) : VolumeStatus :=
  getVolumeStatus (VolumeStatuses (Status machine)) (vs_Name vol).

(** A VMM call of [attachDetachDisks] that the volumes of the machine and the
    disks of the live VM call for: a disk is added for a volume that is not
    marked deleted, is [Prepared] and is not a disk of the VM; a device is
    removed for a volume that is marked deleted and is a disk of the VM. *)
Definition diskCallJustified (machine : Machine) (vm : VmConfig) (e : Event) : Prop :=
  match e with
  | Ev c _ =>
      match c with
      | VmmAddDisk apiSocket status =>
          apiSocket = default "" (ApiSocketPath (Spec machine))
          /\ vst_State status = VolumeStatePrepared
          /\ (vst_Handle status ∉ currentDiskIds vm)
          /\ exists vol, vol ∈ Volumes (Spec machine) /\ vs_DeletedAt vol = None
                         /\ status = diskStatus machine vol
      | VmmRemoveDevice apiSocket id =>
          apiSocket = default "" (ApiSocketPath (Spec machine))
          /\ id ∈ currentDiskIds vm
          /\ exists vol, vol ∈ Volumes (Spec machine) /\ is_Some (vs_DeletedAt vol)
                         /\ id = vst_Handle (diskStatus machine vol)
      | MachinesUpdate _ => True
      | _ => False
      end
  end.

(** A status [attachDetachDisks] writes: that of a volume of the machine,
    [Attached] if the volume is not marked deleted, and otherwise left as it
    was if its disk was still in the VM and [Prepared] if it was not. *)
Definition diskStatusSettled (machine : Machine) (vm : VmConfig) (st : VolumeStatus) : Prop :=
  exists vol,
    vol ∈ Volumes (Spec machine)
    /\ match vs_DeletedAt vol with
       | None =>
           st = set_vst_State VolumeStateAttached (diskStatus machine vol)
           /\ (vst_Handle st ∈ currentDiskIds vm
               \/ vst_State (diskStatus machine vol) = VolumeStatePrepared)
       | Some _ =>
           if bool_decide (vst_Handle (diskStatus machine vol) ∈ currentDiskIds vm)
           then st = diskStatus machine vol
           else st = set_vst_State VolumeStatePrepared (diskStatus machine vol)
       end.

(** What [attachDetachDisks] hands to the machine store: the machine with
    nothing but its volume status list replaced, by settled statuses. *)
Definition diskStatusWritten (machine : Machine) (vm : VmConfig) (e : Event) : Prop :=
  match e with
  | Ev c _ =>
      match c with
      | MachinesUpdate m =>
          exists sts, m = set_VolumeStatus sts machine
                      /\ Forall (diskStatusSettled machine vm) sts
      | _ => True
      end
  end.


(** Whether [reconcileVolumes] keeps a volume in the spec: a volume is
    dropped when it is marked deleted and not currently [Attached]. *)
Definition volumeKept (machine : Machine) (vol : VolumeSpec) : bool :=
  match vs_DeletedAt vol with
  | None => true
  | Some _ => bool_decide (currentVolumeState machine vol = VolumeStateAttached)
  end.

(** A plugin call of [reconcileVolumes] that the volumes of the machine call
    for: [Delete] for a volume marked deleted that is not [Attached], [Apply]
    for every other volume. *)
Definition volumeCallJustified (machine : Machine) (e : Event) : Prop :=
  match e with
  | Ev c _ =>
      match c with
      | FindPluginBySpec vol => vol ∈ Volumes (Spec machine)
      | PluginDelete _ handle machineID =>
          machineID = ID machine
          /\ exists vol, vol ∈ Volumes (Spec machine)
                         /\ is_Some (vs_DeletedAt vol)
                         /\ currentVolumeState machine vol <> VolumeStateAttached
                         /\ handle = vc_Handle (vs_Connection vol)
      | PluginApply _ vol machineID =>
          machineID = ID machine
          /\ vol ∈ Volumes (Spec machine)
          /\ (vs_DeletedAt vol = None
              \/ currentVolumeState machine vol = VolumeStateAttached)
      | MachinesUpdate _ => True
      | _ => False
      end
  end.

(** What [reconcileVolumes] hands to the machine store: the volumes it
    kept, in their order, with one status for each. *)
Definition volumesWritten (machine : Machine) (e : Event) : Prop :=
  match e with
  | Ev c _ =>
      match c with
      | MachinesUpdate m =>
          ID m = ID machine
          /\ Volumes (Spec m) = List.filter (volumeKept machine) (Volumes (Spec machine))
          /\ length (VolumeStatuses (Status m)) = length (Volumes (Spec m))
      | _ => True
      end
  end.


(** The NIC id a [Create] on the NIC store is for. *)
Definition createdNicID (e : Event) : option string :=
  match e with
  | Ev c _ =>
      match c with
      | NicsCreate n => Some (nic_ID n)
      | _ => None
      end
  end.

(** The NIC id a [Get] on the NIC store was answered not-found for. *)
Definition absentNicID (e : Event) : option string :=
  match e with
  | Ev c r =>
      match c in Cmd R return R -> option string with
      | NicsGet id =>
          fun r => match r with
                   | Fail err => if error_is err store_ErrNotFound then Some id else None
                   | Ok _ => None
                   end
      | _ => fun _ => None
      end r
  end.

(** Every [Create] in the trace comes directly after a [Get] of the same id
    that the store answered with not-found; [prev] is what the call before the
    trace showed absent. *)
Fixpoint createAfterAbsent (prev : option string) (tr : list Event) : Prop :=
  match tr with
  | [] => True
  | e :: rest =>
      (forall id, createdNicID e = Some id -> prev = Some id)
      /\ createAfterAbsent (absentNicID e) rest
  end.

(** A NIC-store call of the NIC loop of [reconcileMachine] that the NIC list
    of the machine calls for. *)
Definition nicStoreCallJustified (machine : Machine) (e : Event) : Prop :=
  match e with
  | Ev c _ =>
      match c with
      | NicsGet id =>
          exists ni, ni ∈ NetworkInterfaces (Spec machine)
                     /\ id = getNicID (ID machine) (mni_Name ni)
      | NicsCreate n =>
          exists ni, ni ∈ NetworkInterfaces (Spec machine)
                     /\ mni_DeletedAt ni = None
                     /\ nic_ID n = getNicID (ID machine) (mni_Name ni)
                     /\ nic_DeletedAt n = None
                     /\ nic_Finalizers n = []
                     /\ nic_Spec n = {| nis_Name := mni_Name ni;
                                        nis_NetworkId := mni_NetworkId ni;
                                        nis_Ips := mni_Ips ni;
                                        nis_Attributes := mni_Attributes ni |}
      | NicsDelete id =>
          exists ni, ni ∈ NetworkInterfaces (Spec machine)
                     /\ is_Some (mni_DeletedAt ni)
                     /\ id = getNicID (ID machine) (mni_Name ni)
      | _ => False
      end
  end.

(** A call of [reconcileNics] that the desired NICs and the devices of the
    live VM call for.  A NIC is added only if it carries the finalizer, is
    not marked deleted, is a desired NIC (as given, or with the finalizer
    appended) and no device of the VM decodes to its name; a device is removed
    only if it decodes to the name of a desired NIC that is marked deleted. *)
Definition nicDeviceCallJustified (desiredNics : gmap string NetworkInterface)
    (currentDevices : list DeviceConfig) (e : Event) : Prop :=
  match e with
  | Ev c _ =>
      match c with
      | VmmAddNIC _ nic =>
          MachineFinalizer ∈ nic_Finalizers nic
          /\ nic_DeletedAt nic = None
          /\ exists nicName n0,
               desiredNics !! nicName = Some n0
               /\ (nic = n0
                   \/ nic = set_nic_Finalizers (nic_Finalizers n0 ++ [MachineFinalizer]) n0)
               /\ forall device, device ∈ currentDevices ->
                    getNicName (default "" (dev_Id device)) <> Some nicName
      | VmmRemoveDevice _ deviceID =>
          exists device nicName n0,
            device ∈ currentDevices
            /\ deviceID = default "" (dev_Id device)
            /\ getNicName deviceID = Some nicName
            /\ desiredNics !! nicName = Some n0
            /\ is_Some (nic_DeletedAt n0)
      | NicsUpdate _ => True
      | _ => False
      end
  end.

(** The map [reconcileNics] threads through its loops against the map it
    was given: the same names, the same deletion marks, and the same object
    wherever the NIC is not marked deleted. *)
Definition sameDesired (desiredNics current : gmap string NetworkInterface) : Prop :=
  forall nicName,
    match desiredNics !! nicName with
    | Some n0 =>
        exists n, current !! nicName = Some n
                  /\ nic_DeletedAt n = nic_DeletedAt n0
                  /\ (nic_DeletedAt n0 = None -> n = n0)
    | None => current !! nicName = None
    end.


Definition isNicsUpdate (R : Type) (c : Cmd R) : Prop :=
  match c with
  | NicsUpdate _ => True
  | _ => False
  end.


(** The calls made inside the loops of the controller. *)
Definition isLoopCall (R : Type) (c : Cmd R) : Prop :=
  match c with
  | NicsGet _ | NicsCreate _ | NicsUpdate _ | NicsDelete _ => True
  | FindPluginBySpec _ | PluginDelete _ _ _ | PluginApply _ _ _ => True
  | VmmAddDisk _ _ | VmmRemoveDevice _ _ | VmmAddNIC _ _ => True
  | _ => False
  end.

Definition isCreateVM (R : Type) (c : Cmd R) : Prop :=
  match c with
  | VmmCreateVM _ _ => True
  | _ => False
  end.

Definition notCreateVM (R : Type) (c : Cmd R) : Prop := ~ isCreateVM R c.

(** Every NIC object handed to [CreateVM] is [Attached]. *)
Definition createVMReady (R : Type) (c : Cmd R) : Prop :=
  match c with
  | VmmCreateVM _ nics =>
      map_Forall (fun _ n => nist_State (nic_Status n) = NetworkInterfaceStateAttached) nics
  | _ => True
  end.

(** [GetVM] answered with the vm-not-created error. *)
Definition vmNotCreated (e : Event) : bool :=
  match e with
  | Ev c r =>
      match c in Cmd R return R -> bool with
      | VmmGetVM _ =>
          fun r => match r with
                   | Fail err => error_is err vmm_ErrVmNotCreated
                   | Ok _ => false
                   end
      | _ => fun _ => false
      end r
  end.

(** Every [CreateVM] in the trace comes directly after a [GetVM] that was
    answered with vm-not-created; [prev] tells whether the call before the
    trace was such a [GetVM]. *)
Fixpoint createdAfterNotCreated (prev : bool) (tr : list Event) : Prop :=
  match tr with
  | [] => True
  | e :: rest =>
      (ev_sat isCreateVM e -> prev = true)
      /\ createdAfterNotCreated (vmNotCreated e) rest
  end.

(** The calls of a program never create a VM out of turn, wherever the
    program starts. *)
Definition guarded {A : Type} (p : Prog A) : Prop :=
  post p (fun _ tr => Forall (ev_sat createVMReady) tr
                      /\ forall b, createdAfterNotCreated b tr).

(** The calls of a teardown: the VMM manager is asked for the VM of this
    machine, told to power off and delete this machine, the NIC store is asked
    for and told to delete NICs of this machine, the machine's directory is
    removed and the machine is stored without the first ["machine"]
    finalizer. *)
Definition teardownCall (paths : Paths) (machine : Machine) (e : Event) : Prop :=
  match e with
  | Ev c _ =>
      match c with
      | VmmGetVM apiSocket => apiSocket = default "" (ApiSocketPath (Spec machine))
      | VmmPowerOff id | VmmDelete id => id = ID machine
      | NicsGet id | NicsDelete id =>
          exists ni, ni ∈ NetworkInterfaces (Spec machine)
                     /\ id = getNicID (ID machine) (mni_Name ni)
      | NicsUpdate _ => True
      | OsRemoveAll path => path = MachineDir paths (ID machine)
      | MachinesUpdate m =>
          m = set_Finalizers (DeleteSliceElement (Finalizers machine) MachineFinalizer) machine
      | _ => False
      end
  end.

(** A power call on a live VM that the power state of the spec calls for. *)
Definition powerCallJustified (machine : Machine) (vm : VmInfo) (R : Type) (c : Cmd R)
    : Prop :=
  match c with
  | VmmPowerOn _ => Power (Spec machine) = PowerStatePowerOn /\ vm_State vm <> Running
  | VmmPowerOff _ => Power (Spec machine) = PowerStatePowerOff /\ vm_State vm = Running
  | VmmCreateVM _ _ | VmmDelete _ => False
  | _ => True
  end.

(** The machine status at the end of a pass over a live VM. *)
Definition finalStatusWritten (machine : Machine) (e : Event) : Prop :=
  match e with
  | Ev c _ =>
      match c with
      | MachinesUpdate m =>
          ID m = ID machine
          /\ Spec m = Spec machine
          /\ State (Status m) = match Power (Spec machine) with
                                | PowerStatePowerOn => MachineStateRunning
                                | PowerStatePowerOff => MachineStateTerminated
                                end
          /\ mnis_Name <$> NetworkInterfaceStatuses (Status m)
             = mni_Name <$> NetworkInterfaces (Spec machine)
      | _ => False
      end
  end.

Module DemoLive.

Import Demo.

(** The VM of machine ["m1"], running. *)
Definition vm : VmInfo :=
  {| Config := {| Cpus := None; Devices := None; Disks := None; Memory := None;
                  Console := None; Serial := None;
                  Payload := {| Cmdline := None; Firmware := None; HostData := None;
                                Igvm := None; Initramfs := None; Kernel := None |};
                  Platform := Some {| Uuid := Some "m1" |} |};
     vm_State := Running |}.

End DemoLive.


(** ** The VMM manager: [Ping] and [GetVM] (manager.go, lines 156-208)

    The two methods call the per-machine lock and the generated
    cloud-hypervisor client, which the controller never calls itself; they
    are programs over these calls.  A response of the client shows its status
    code, its body and its decoded [JSON200] field, which is a [nil] pointer
    when the client decoded nothing. *)

Module VmmApi.

Record VmmPingResponse := {
  Version : string;
  Pid : option Z;
  Features : option (list string);
  BuildVersion : option string
}.

Record GetVmmPingResponse := { ping_JSON200 : option VmmPingResponse }.

Record GetVmInfoResponse := {
  info_StatusCode : Z;
  info_Body : string;
  info_JSON200 : option VmInfo
}.

Inductive ApiCall : Type -> Type :=
| IdMuLock (machineId : string) : ApiCall unit
| IdMuUnlock (machineId : string) : ApiCall unit
| GetVmmPingWithResponse (apiClient : string) : ApiCall (result GetVmmPingResponse)
| GetVmInfoWithResponse (apiClient : string) : ApiCall (result GetVmInfoResponse).

Inductive ApiProg (A : Type) : Type :=
| Done (a : A)
| Crash (msg : string)
| Do {R : Type} (c : ApiCall R) (k : R -> ApiProg A).
Arguments Done {A} a.
Arguments Crash {A} msg.
Arguments Do {A R} c k.

Fixpoint andThen {A B : Type} (p : ApiProg A) (f : A -> ApiProg B) : ApiProg B :=
  match p with
  | Done a => f a
  | Crash msg => Crash msg
  | Do c k => Do c (fun r => andThen (k r) f)
  end.

(** [defer d] around [p]. *)
Fixpoint deferring {A : Type} (p : ApiProg A) (d : ApiProg unit) : ApiProg A :=
  match p with
  | Done a => andThen d (fun _ => Done a)
  | Crash msg => andThen d (fun _ => Crash msg)
  | Do c k => Do c (fun r => deferring (k r) d)
  end.

Inductive ApiEvent : Type :=
| Did {R : Type} (c : ApiCall R) (r : R).

Definition ApiHandler (W : Type) : Type := forall R : Type, ApiCall R -> W -> R * W.

Fixpoint exec {W A : Type} (h : ApiHandler W) (p : ApiProg A) (w : W)
    : Outcome A * W * list ApiEvent :=
  match p with
  | Done a => (Returned a, w, [])
  | Crash msg => (Panicked msg, w, [])
  | Do c k =>
      let '(r, w1) := h _ c w in
      let '(o, w2, tr) := exec h (k r) w1 in
      (o, w2, Did c r :: tr)
  end.

(** [Manager.ping], lines 162-184.  The log line reads
    [ping.JSON200.Version]: it dereferences [JSON200]. *)
Definition ping (m : Vmm.Manager) (machineId : string) : ApiProg (option error) :=
  match Vmm.vms m !! machineId with
  | None => Done (Some (ErrSentinel vmm_ErrNotFound))
  | Some apiClient =>
      Do (GetVmmPingWithResponse apiClient)
        (fun r =>
           match r with
           | Fail err => Done (Some (Errorf "failed to ping vmm" (Some err)))
           | Ok resp =>
               match ping_JSON200 resp with
               | None => Crash "nil pointer dereference"
               | Some _ => Done None
               end
           end)
  end.

(** [Manager.Ping], lines 156-160. *)
Definition Ping (m : Vmm.Manager) (machineId : string) : ApiProg (option error) :=
  Do (IdMuLock machineId)
    (fun _ => deferring (ping m machineId) (Do (IdMuUnlock machineId) Done)).

(** [Manager.GetVM], lines 186-208. *)
Definition GetVM (m : Vmm.Manager) (machineId : string) : ApiProg (result (option VmInfo)) :=
  Do (IdMuLock machineId)
    (fun _ =>
       deferring
         match Vmm.vms m !! machineId with
         | None => Done (Fail (ErrSentinel vmm_ErrNotFound))
         | Some apiClient =>
             Do (GetVmInfoWithResponse apiClient)
               (fun r =>
                  match r with
                  | Fail err => Done (Fail (Errorf "failed to get vm" (Some err)))
                  | Ok res =>
                      if (info_StatusCode res =? 500)%Z
                         && String.eqb (info_Body res) "VM is not created"
                      then Done (Fail (ErrSentinel vmm_ErrVmNotCreated))
                      else Done (Ok (info_JSON200 res))
                  end)
         end
         (Do (IdMuUnlock machineId) Done)).

(** The request that went out under the lock, if any, with its answer. *)
Definition isRequest (e : ApiEvent) : Prop :=
  match e with
  | Did c _ =>
      match c with
      | GetVmmPingWithResponse _ | GetVmInfoWithResponse _ => True
      | _ => False
      end
  end.

(** A double: the lock does nothing, the client answers from the world. *)
Record ApiWorld := {
  pingAnswer : result GetVmmPingResponse;
  infoAnswer : result GetVmInfoResponse
}.

Definition apiHandler : ApiHandler ApiWorld :=
  fun R c =>
    match c in ApiCall R return ApiWorld -> R * ApiWorld with
    | IdMuLock _ => fun w => (tt, w)
    | IdMuUnlock _ => fun w => (tt, w)
    | GetVmmPingWithResponse _ => fun w => (pingAnswer w, w)
    | GetVmInfoWithResponse _ => fun w => (infoAnswer w, w)
    end.

End VmmApi.


Module DemoUnknown.

(** A machine the manager of [DemoVmm] holds no client for. *)
Definition machine : Machine :=
  {| ID := "m2"; DeletedAt := None; Finalizers := [MachineFinalizer];
     Spec := Demo.spec0; Status := Demo.status0 |}.

End DemoUnknown.


(** * Properties *)

(** The functions of the controller are unfolded by hand, one at a time. *)
Arguments MakeMachineDirs : simpl never.
Arguments getMachineState : simpl never.
Arguments addFinalizerToNIC : simpl never.
Arguments removeFinalizerFromNIC : simpl never.
Arguments deleteMachineAfterPowerOff : simpl never.
Arguments deleteMachine : simpl never.
Arguments reconcileVolumes : simpl never.
Arguments attachDetachDisks : simpl never.
Arguments reconcileNics : simpl never.
Arguments reconcileImage : simpl never.
Arguments assignApiSocket : simpl never.
Arguments reconcilePower : simpl never.
Arguments reconcileLiveVM : simpl never.
Arguments reconcileNoVM : simpl never.
Arguments reconcileWithSocket : simpl never.
Arguments reconcileMachine : simpl never.

Example getNicID_ex : getNicID "m1" "eth0" = "NIC--m1--eth0".
Proof. reflexivity. Qed.

Example split_ex : Split "NIC--m1--eth0" "--" = ["NIC"; "m1"; "eth0"].
Proof. reflexivity. Qed.

Example split_dash_ex : Split "NIC--a---b" "--" = ["NIC"; "a"; "-b"].
Proof. reflexivity. Qed.

Example run_fresh_ex :
  run Demo.handler (reconcileMachine Demo.paths "m1") (Demo.world_of Demo.fresh)
  = (Returned None,
     Demo.with_machines {[ "m1" := Demo.finalized ]} (Demo.world_of Demo.fresh),
     [Ev (MachinesGet "m1") (Ok Demo.fresh); Ev (MachinesUpdate Demo.finalized) (Ok Demo.finalized)]).
Proof. vm_compute. reflexivity. Qed.

(** ** Strings *)

Section strings_facts.

Lemma prefix_length (p s : string) :
  HasPrefix s p = true -> (String.length p <= String.length s)%nat.
Proof.
  revert s. induction p as [|a p IH]; intros s H; [simpl; lia|].
  destruct s as [|b s]; simpl in H; [discriminate|].
  apply andb_true_iff in H as [_ H].
  simpl. apply IH in H. lia.
Qed.

Lemma Index_None_inv (c : Ascii.ascii) (s sep : string) :
  Index (String c s) sep = None ->
  HasPrefix (String c s) sep = false /\ Index s sep = None.
Proof.
  cbn [Index]. destruct (HasPrefix (String c s) sep); [discriminate|].
  destruct (Index s sep); [discriminate|]. auto.
Qed.

Lemma Index_bound (s sep : string) (m : nat) :
  Index s sep = Some m -> (m + String.length sep <= String.length s)%nat.
Proof.
  revert m. induction s as [|c s IH]; intros m; cbn [Index].
  - destruct (HasPrefix "" sep) eqn:Hp; [|discriminate].
    intros [= <-]. apply prefix_length in Hp. simpl in *. lia.
  - destruct (HasPrefix (String c s) sep) eqn:Hp.
    + intros [= <-]. apply prefix_length in Hp. simpl in *. lia.
    + destruct (Index s sep) as [k|]; [|discriminate].
      intros [= <-]. specialize (IH k eq_refl). simpl. lia.
Qed.

Lemma length_drop (n : nat) (s : string) :
  String.length (drop n s) = (String.length s - n)%nat.
Proof.
  revert s. induction n as [|n IH]; intros [|c s]; simpl; auto.
Qed.

Lemma take_app_length (m x : string) : take (String.length m) (m +:+ x) = m.
Proof. induction m as [|c m IH]; simpl; [by destruct x|by rewrite IH]. Qed.

Lemma drop_app_length (m x : string) (k : nat) :
  drop (String.length m + k) (m +:+ x) = drop k x.
Proof. induction m as [|c m IH]; simpl; auto. Qed.

Lemma genSplit_None (fuel : nat) (s sep : string) :
  Index s sep = None -> genSplit fuel s sep = [s].
Proof. intros H. destruct fuel; simpl; [done|by rewrite H]. Qed.

Lemma genSplit_Some (fuel : nat) (s sep : string) (m : nat) :
  Index s sep = Some m ->
  genSplit (S fuel) s sep = take m s :: genSplit fuel (drop (m + String.length sep) s) sep.
Proof. intros H. simpl. by rewrite H. Qed.

(** More rounds than the length of the string change nothing: the loop of
    [Split] leaves through its [break]. *)
Lemma genSplit_fuel (sep : string) :
  sep <> "" ->
  forall (n : nat) (s : string) (f1 f2 : nat),
    (String.length s <= n)%nat -> (String.length s <= f1)%nat ->
    (String.length s <= f2)%nat ->
    genSplit f1 s sep = genSplit f2 s sep.
Proof.
  intros Hsep. induction n as [|n IH]; intros s f1 f2 Hn H1 H2.
  - destruct s; [|simpl in Hn; lia].
    assert (Index "" sep = None) as Hi.
    { destruct sep; [done|reflexivity]. }
    by rewrite !genSplit_None.
  - destruct (Index s sep) as [m|] eqn:Hi; [|by rewrite !genSplit_None].
    pose proof (Index_bound _ _ _ Hi) as Hb.
    assert (0 < String.length sep)%nat as Hpos by (destruct sep; [done|simpl; lia]).
    destruct f1 as [|f1]; [lia|]. destruct f2 as [|f2]; [lia|].
    rewrite !(genSplit_Some _ _ _ _ Hi). f_equal.
    apply IH; rewrite length_drop; lia.
Qed.

(** [Split] is total: any fuel from the length of the string on gives its
    result. *)
Lemma Split_fuel (sep s : string) (fuel : nat) :
  sep <> "" -> (String.length s <= fuel)%nat -> genSplit fuel s sep = Split s sep.
Proof.
  intros Hsep Hf. unfold Split.
  by apply (genSplit_fuel sep Hsep (String.length s)).
Qed.

Lemma Contains_false (s sep : string) : Contains s sep = false <-> Index s sep = None.
Proof.
  unfold Contains. rewrite bool_decide_eq_false.
  destruct (Index s sep) as [k|]; split; intros H; try done.
  exfalso. apply H. by exists k.
Qed.

Lemma HasSuffix_dash_cons (c d : Ascii.ascii) (s : string) :
  HasSuffix (String c (String d s)) "-" = HasSuffix (String d s) "-".
Proof.
  unfold HasSuffix. simpl String.length.
  replace (S (S (String.length s)) - 1)%nat with (S (String.length s)) by lia.
  replace (S (String.length s) - 1)%nat with (String.length s) by lia.
  reflexivity.
Qed.

(** In [m ++ "--" ++ n] the first separator is the one written by
    [getNicID], unless [m] ends in a dash. *)
Lemma Index_sep_app (m n : string) :
  Index m "--" = None -> HasSuffix m "-" = false ->
  Index (m +:+ "--" +:+ n) "--" = Some (String.length m).
Proof.
  induction m as [|c m IH]; intros Hi Hs.
  - reflexivity.
  - apply Index_None_inv in Hi as [Hp Hi].
    assert (HasPrefix (String c (m +:+ "--" +:+ n)) "--" = false) as Hp'.
    { cbn [HasPrefix] in *.
      destruct (Ascii.eqb "-" c) eqn:Hc; [|done].
      destruct m as [|d m]; cbn [HasPrefix String.append andb] in *.
      - apply Ascii.eqb_eq in Hc as <-. by vm_compute in Hs.
      - change (String d m +:+ "--" +:+ n) with (String d (m +:+ "--" +:+ n)).
        cbv iota. done. }
    assert (HasSuffix m "-" = false) as Hs'.
    { destruct m as [|d m]; [done|]. by rewrite HasSuffix_dash_cons in Hs. }
    change (String c m +:+ "--" +:+ n) with (String c (m +:+ "--" +:+ n)).
    cbn [Index]. rewrite Hp', (IH Hi Hs'). reflexivity.
Qed.

Lemma Split_getNicID (machineID nicName : string) :
  Index machineID "--" = None -> Index nicName "--" = None ->
  HasSuffix machineID "-" = false ->
  Split (getNicID machineID nicName) "--" = ["NIC"; machineID; nicName].
Proof.
  intros Hm Hn Hs. unfold Split, getNicID.
  assert (Index ("NIC" +:+ "--" +:+ machineID +:+ "--" +:+ nicName) "--" = Some 3%nat)
    as H1 by reflexivity.
  simpl String.length. rewrite (genSplit_Some _ _ _ _ H1).
  change (drop (3 + String.length "--") ("NIC" +:+ "--" +:+ machineID +:+ "--" +:+ nicName))
    with (machineID +:+ "--" +:+ nicName).
  change (take 3 ("NIC" +:+ "--" +:+ machineID +:+ "--" +:+ nicName)) with "NIC".
  pose proof (Index_sep_app machineID nicName Hm Hs) as H2.
  destruct (String.length (machineID +:+ "--" +:+ nicName)) as [|f] eqn:Hlen.
  { apply Index_bound in H2. simpl in H2. lia. }
  rewrite (genSplit_Some _ _ _ _ H2), take_app_length.
  change (String.length "--") with 2%nat.
  rewrite (drop_app_length machineID ("--" +:+ nicName) 2).
  change (drop 2 ("--" +:+ nicName)) with nicName.
  by rewrite genSplit_None.
Qed.

End strings_facts.

(** ** NIC identifiers *)

(** C1, as amended.  For every [machineID] and [nicName] in which ["--"] does
    not appear, and with [machineID] not ending in a dash, decoding the id
    made by [getNicID] gives back the pair: [getMachineNameFromNicID] returns
    [machineID] and [getNicName] returns [nicName]. *)
Theorem nic_id_roundtrip (machineID nicName : string) :
  Contains machineID "--" = false ->
  Contains nicName "--" = false ->
  HasSuffix machineID "-" = false ->
  getMachineNameFromNicID (getNicID machineID nicName) = Some machineID
  /\ getNicName (getNicID machineID nicName) = Some nicName.
Proof.
  intros Hm%Contains_false Hn%Contains_false Hs.
  unfold getMachineNameFromNicID, getNicName.
  rewrite (Split_getNicID _ _ Hm Hn Hs). split; reflexivity.
Qed.

Lemma nic_id_roundtrip_witness :
  getMachineNameFromNicID (getNicID "m1" "eth0") = Some "m1"
  /\ getNicName (getNicID "m1" "eth0") = Some "eth0".
Proof. apply (nic_id_roundtrip "m1" "eth0"); reflexivity. Defined.

(** C1 as it is written fails when the machine id ends in a dash: the id of
    machine ["a-"] and NIC ["b"] is ["NIC--a---b"], which is split at the
    first ["--"] after ["a"] and decodes to machine ["a"], NIC ["-b"]. *)
Lemma nic_id_roundtrip_counterexample :
  Contains "a-" "--" = false
  /\ Contains "b" "--" = false
  /\ getMachineNameFromNicID (getNicID "a-" "b") = Some "a"
  /\ getNicName (getNicID "a-" "b") = Some "-b"
  /\ ~ (getMachineNameFromNicID (getNicID "a-" "b") = Some "a-"
        /\ getNicName (getNicID "a-" "b") = Some "b").
Proof.
  repeat split; try reflexivity.
  intros [H _]. vm_compute in H. discriminate H.
Qed.

(** C9.  NIC id parsing is total and rejects malformed ids: whenever
    splitting [id] on ["--"] does not give exactly three parts of which the
    first is ["NIC"], both [getNicName] and [getMachineNameFromNicID] return
    [nil], and the handler of NIC-store events makes no call at all for an
    object with that id: nothing is enqueued. *)
Theorem nic_id_malformed_rejected (id : string) :
  ~ (exists machineID nicName, Split id "--" = ["NIC"; machineID; nicName]) ->
  getNicName id = None
  /\ getMachineNameFromNicID id = None
  /\ forall (nic : NetworkInterface) (W : Type) (h : Handler W) (w : W),
       nic_ID nic = id -> run h (nicEventHandler nic) w = (Returned tt, w, []).
Proof.
  intros Hshape.
  assert (getMachineNameFromNicID id = None /\ getNicName id = None) as [Hm Hn].
  { unfold getMachineNameFromNicID, getNicName.
    destruct (Split id "--") as [|a [|b [|c [|d rest]]]]; simpl; try done.
    destruct (String.eqb_spec a "NIC") as [->|]; simpl; [|done].
    exfalso. apply Hshape. eauto. }
  split; [done|split; [done|]].
  intros nic W h w <-. unfold nicEventHandler. by rewrite Hm.
Qed.

Lemma nic_id_malformed_rejected_witness :
  getNicName "NIC--m1" = None
  /\ getMachineNameFromNicID "NIC--m1" = None
  /\ forall (nic : NetworkInterface) (W : Type) (h : Handler W) (w : W),
       nic_ID nic = "NIC--m1" -> run h (nicEventHandler nic) w = (Returned tt, w, []).
Proof.
  apply (nic_id_malformed_rejected "NIC--m1").
  intros (a & b & H). vm_compute in H. discriminate H.
Defined.

(** A well-formed id does enqueue its machine. *)
Example nicEventHandler_ex :
  forall nic, nic_ID nic = "NIC--m1--eth0" -> nicEventHandler nic = call (QueueAdd "m1").
Proof. intros nic H. unfold nicEventHandler. rewrite H. reflexivity. Qed.

(** ** Runs, traces and postconditions *)

Section run_facts.

Context {W : Type} (h : Handler W).

Lemma run_bind {A B : Type} (p : Prog A) (f : A -> Prog B) (w : W) :
  run h (bind p f) w =
  let '(o, w1, tr1) := run h p w in
  match o with
  | Returned a => let '(o2, w2, tr2) := run h (f a) w1 in (o2, w2, tr1 ++ tr2)
  | Panicked msg => (Panicked msg, w1, tr1)
  end.
Proof.
  revert w. induction p as [a|msg|R c k IH]; intros w; simpl.
  - by destruct (run h (f a) w) as [[o2 w2] tr2].
  - done.
  - destruct (h R c w) as [r w1]. rewrite IH.
    destruct (run h (k r) w1) as [[o w2] tr]. destruct o as [a|msg]; [|done].
    by destruct (run h (f a) w2) as [[o2 w3] tr2].
Qed.

(** [defer]: the deferred calls run after the body, also when it panics. *)
Lemma run_finally {A : Type} (p : Prog A) (d : Prog unit) (w : W) :
  run h (finally p d) w =
  let '(o, w1, tr1) := run h p w in
  let '(o2, w2, tr2) := run h d w1 in
  (match o2 with
   | Returned _ => o
   | Panicked msg => Panicked msg
   end, w2, tr1 ++ tr2).
Proof.
  revert w. induction p as [a|msg|R c k IH]; intros w; simpl.
  - rewrite run_bind. destruct (run h d w) as [[o2 w2] tr2].
    destruct o2; simpl; by rewrite ?app_nil_r.
  - rewrite run_bind. destruct (run h d w) as [[o2 w2] tr2].
    destruct o2; simpl; by rewrite ?app_nil_r.
  - destruct (h R c w) as [r w1]. rewrite IH.
    destruct (run h (k r) w1) as [[o w2] tr].
    by destruct (run h d w2) as [[o2 w3] tr2].
Qed.

Lemma post_run {A : Type} (p : Prog A) (Q : Outcome A -> list Event -> Prop) :
  post p Q -> forall w o w' tr, run h p w = (o, w', tr) -> Q o tr.
Proof.
  revert Q. induction p as [a|msg|R c k IH]; intros Q HQ w o w' tr; simpl.
  - by intros [= <- <- <-].
  - by intros [= <- <- <-].
  - destruct (h R c w) as [r w1].
    destruct (run h (k r) w1) as [[o1 w2] tr1] eqn:Hrun.
    intros [= <- <- <-]. simpl in HQ.
    exact (IH r _ (HQ r) _ _ _ _ Hrun).
Qed.

End run_facts.

Lemma post_mono {A : Type} (p : Prog A) (Q Q' : Outcome A -> list Event -> Prop) :
  (forall o tr, Q o tr -> Q' o tr) -> post p Q -> post p Q'.
Proof.
  revert Q Q'. induction p as [a|msg|R c k IH]; intros Q Q' HQ; simpl; auto.
  intros Hp r. eapply IH; [|apply Hp]. simpl. auto.
Qed.

Lemma post_bind {A B : Type} (p : Prog A) (f : A -> Prog B)
    (Q : Outcome B -> list Event -> Prop) :
  post p (fun o tr =>
            match o with
            | Returned a => post (f a) (fun o2 tr2 => Q o2 (tr ++ tr2))
            | Panicked msg => Q (Panicked msg) tr
            end) ->
  post (bind p f) Q.
Proof.
  revert Q. induction p as [a|msg|R c k IH]; intros Q; simpl.
  - trivial.
  - trivial.
  - intros Hp r. apply IH. eapply post_mono; [|apply Hp]. simpl.
    intros [a|msg] tr; trivial.
Qed.

Lemma calls_only_post {A : Type} (P : forall R, Cmd R -> Prop) (p : Prog A) :
  calls_only P p -> post p (fun _ tr => Forall (ev_sat P) tr).
Proof.
  induction p as [a|msg|R c k IH]; simpl; auto.
  intros [Hc Hk] r. eapply post_mono; [|apply IH, Hk].
  simpl. intros _ tr Htr. by constructor.
Qed.

Lemma calls_only_bind {A B : Type} (P : forall R, Cmd R -> Prop) (p : Prog A)
    (f : A -> Prog B) :
  calls_only P p -> (forall a, calls_only P (f a)) -> calls_only P (bind p f).
Proof.
  induction p as [a|msg|R c k IH]; simpl; auto.
  intros [Hc Hk] Hf. split; [done|]. intros r. by apply IH.
Qed.

(** ** The finalizer pass and the socket assignment of [reconcileMachine] *)

(** C5.  For every machine with [deletedAt] unset that does not carry the
    ["machine"] finalizer, [reconcileMachine] appends the finalizer, hands the
    machine to the store, and returns: the calls of the pass are the load and
    that one update, nothing else (no directory, image, socket, VMM or plugin
    call), and the pass returns [nil] when the store accepts the update (and
    the store's error, wrapped, when it does not). *)
Theorem finalizer_pass_first (paths : Paths) (W : Type) (h : Handler W) (w w1 : W)
    (id : string) (machine : Machine) :
  h _ (MachinesGet id) w = (Ok machine, w1) ->
  DeletedAt machine = None ->
  MachineFinalizer ∉ Finalizers machine ->
  let machine' := set_Finalizers (Finalizers machine ++ [MachineFinalizer]) machine in
  run h (reconcileMachine paths id) w =
    let '(u, w2) := h _ (MachinesUpdate machine') w1 in
    (Returned match u with
              | Ok _ => None
              | Fail err => Some (Errorf "failed to set finalizers" (Some err))
              end,
     w2,
     [Ev (MachinesGet id) (Ok machine); Ev (MachinesUpdate machine') u]).
Proof.
  intros Hget Hdel Hfin machine'. unfold reconcileMachine. simpl.
  rewrite Hget, Hdel. unfold slices_Contains.
  rewrite bool_decide_eq_false_2 by done. simpl.
  fold machine'. destruct (h _ (MachinesUpdate machine') w1) as [[m2|err] w2]; reflexivity.
Qed.

Lemma finalizer_pass_first_witness :
  run Demo.handler (reconcileMachine Demo.paths "m1") (Demo.world_of Demo.fresh) =
    let '(u, w2) :=
      Demo.handler _ (MachinesUpdate Demo.finalized) (Demo.world_of Demo.fresh) in
    (Returned match u with
              | Ok _ => None
              | Fail err => Some (Errorf "failed to set finalizers" (Some err))
              end,
     w2,
     [Ev (MachinesGet "m1") (Ok Demo.fresh); Ev (MachinesUpdate Demo.finalized) u]).
Proof.
  apply (finalizer_pass_first Demo.paths Demo.World Demo.handler
           (Demo.world_of Demo.fresh) (Demo.world_of Demo.fresh) "m1" Demo.fresh).
  - reflexivity.
  - reflexivity.
  - apply not_elem_of_nil.
Defined.

(** C4 as it is written fails: after the socket path is stored the pass
    goes on.  For a machine with the finalizer and no socket path, the same
    pass pings the VMM, reconciles the volumes, asks for the VM and creates
    it. *)
Lemma socket_assignment_counterexample :
  DeletedAt Demo.finalized = None
  /\ MachineFinalizer ∈ Finalizers Demo.finalized
  /\ ApiSocketPath (Spec Demo.finalized) = None
  /\ (run Demo.handler (reconcileMachine Demo.paths "m1") (Demo.world_of Demo.finalized)).2 =
     [Ev (MachinesGet "m1") (Ok Demo.finalized);
      Ev (OsMkdirAll "/var/lib/chp/machines/m1") None;
      Ev (OsMkdirAll "/var/lib/chp/machines/m1/rootfs") None;
      Ev (OsMkdirAll "/var/lib/chp/machines/m1/volumes") None;
      Ev (OsMkdirAll "/var/lib/chp/machines/m1/ignitions") None;
      Ev (OsMkdirAll "/var/lib/chp/machines/m1/networkinterfaces") None;
      Ev VmmGetFreeApiSocket (Ok (Some "/run/chp/m1.sock"));
      Ev (MachinesUpdate Demo.socketed) (Ok Demo.socketed);
      Ev (VmmPing "/run/chp/m1.sock") None;
      Ev (MachinesUpdate Demo.socketed) (Ok Demo.socketed);
      Ev (VmmGetVM "/run/chp/m1.sock") (Fail (ErrSentinel vmm_ErrVmNotCreated));
      Ev (VmmCreateVM Demo.socketed ∅) None;
      Ev (QueueAdd "m1") tt].
Proof.
  split; [reflexivity|]. split; [by apply list_elem_of_here|].
  split; [reflexivity|]. vm_compute. reflexivity.
Qed.

(** C4, as amended.  For every machine (not marked deleted, finalizer
    present) whose [spec.apiSocketPath] is unset, once the directories are
    made and the image is in place, [reconcileMachine] asks the VMM manager
    for a free socket path and hands the machine with that path to the store;
    a failure of either call ends the pass with that error, and otherwise the
    same pass continues on the machine the store returned: its next call is
    the VMM ping on that machine's socket path. *)
Theorem socket_assignment_continues (paths : Paths) (W : Type) (h : Handler W)
    (w w1 w2 w3 : W) (id : string) (machine : Machine) (tr_dirs tr_img : list Event) :
  h _ (MachinesGet id) w = (Ok machine, w1) ->
  DeletedAt machine = None ->
  MachineFinalizer ∈ Finalizers machine ->
  ApiSocketPath (Spec machine) = None ->
  run h (MakeMachineDirs paths (ID machine)) w1 = (Returned None, w2, tr_dirs) ->
  run h (reconcileImage paths machine) w2 = (Returned (false, None), w3, tr_img) ->
  let before := Ev (MachinesGet id) (Ok machine) :: tr_dirs ++ tr_img in
  let '(s, w4) := h _ VmmGetFreeApiSocket w3 in
  match s with
  | Fail err =>
      run h (reconcileMachine paths id) w =
        (Returned (Some (Errorf "failed to get free api socket" (Some err))), w4,
         before ++ [Ev VmmGetFreeApiSocket s])
  | Ok sock =>
      let machine' := set_ApiSocketPath sock machine in
      let '(u, w5) := h _ (MachinesUpdate machine') w4 in
      match u with
      | Fail err =>
          run h (reconcileMachine paths id) w =
            (Returned (Some (Errorf "failed to update machine status" (Some err))), w5,
             before ++ [Ev VmmGetFreeApiSocket s; Ev (MachinesUpdate machine') u])
      | Ok machine2 =>
          let apiSocket := default "" (ApiSocketPath (Spec machine2)) in
          let '(ping, w6) := h _ (VmmPing apiSocket) w5 in
          exists o w' rest,
            run h (reconcileMachine paths id) w =
              (o, w',
               before ++ [Ev VmmGetFreeApiSocket s; Ev (MachinesUpdate machine') u;
                          Ev (VmmPing apiSocket) ping] ++ rest)
      end
  end.
Proof.
  intros Hget Hdel Hfin Hsock Hdirs Himg before. subst before.
  unfold reconcileMachine. cbn. rewrite Hget, Hdel. unfold slices_Contains.
  rewrite bool_decide_eq_true_2 by done. cbn.
  rewrite run_bind, Hdirs. rewrite run_bind, Himg. cbn.
  rewrite run_bind. unfold assignApiSocket. rewrite Hsock. cbn.
  destruct (h _ VmmGetFreeApiSocket w3) as [[sock|err] w4]; cbn.
  2:{ by rewrite <- app_assoc. }
  destruct (h _ (MachinesUpdate (set_ApiSocketPath sock machine)) w4) as [[machine2|err] w5];
    cbn.
  2:{ by rewrite <- app_assoc. }
  unfold reconcileWithSocket. cbn.
  destruct (h _ (VmmPing (default "" (ApiSocketPath (Spec machine2)))) w5) as [ping w6] eqn:Hping.
  match goal with
  | |- context [run h ?p w6] => destruct (run h p w6) as [[o w'] rest]
  end.
  exists o, w', rest. by rewrite <- !app_assoc.
Qed.

Lemma socket_assignment_continues_witness :
  exists o w' rest,
    run Demo.handler (reconcileMachine Demo.paths "m1") (Demo.world_of Demo.finalized) =
      (o, w',
       (Ev (MachinesGet "m1") (Ok Demo.finalized)
          :: [Ev (OsMkdirAll "/var/lib/chp/machines/m1") None;
              Ev (OsMkdirAll "/var/lib/chp/machines/m1/rootfs") None;
              Ev (OsMkdirAll "/var/lib/chp/machines/m1/volumes") None;
              Ev (OsMkdirAll "/var/lib/chp/machines/m1/ignitions") None;
              Ev (OsMkdirAll "/var/lib/chp/machines/m1/networkinterfaces") None] ++ [])
       ++ [Ev VmmGetFreeApiSocket (Ok (Some "/run/chp/m1.sock"));
           Ev (MachinesUpdate Demo.socketed) (Ok Demo.socketed);
           Ev (VmmPing "/run/chp/m1.sock") None] ++ rest).
Proof.
  exact (socket_assignment_continues Demo.paths Demo.World Demo.handler
           (Demo.world_of Demo.finalized) (Demo.world_of Demo.finalized)
           (Demo.world_of Demo.finalized) (Demo.world_of Demo.finalized)
           "m1" Demo.finalized _ []
           eq_refl eq_refl (list_elem_of_here _ _) eq_refl eq_refl eq_refl).
Defined.

(** ** Teardown: the answers of the VMM manager *)

(** What [deleteMachine] does once the VM is known not to run, by the answer
    of [vmm.Delete]: anything that is not the not-found sentinel, the [nil]
    of a successful call included, ends the teardown with an error. *)
Lemma deleteMachine_after_Delete (paths : Paths) (W : Type) (h : Handler W) (w w1 w2 : W)
    (machine : Machine) (e0 : error) (err : option error) :
  h _ (VmmGetVM (default "" (ApiSocketPath (Spec machine)))) w = (Fail e0, w1) ->
  errors_Is (Some e0) vmm_ErrVmNotCreated || errors_Is (Some e0) vmm_ErrNotFound = true ->
  h _ (VmmDelete (ID machine)) w1 = (err, w2) ->
  errors_Is err vmm_ErrNotFound = false ->
  run h (deleteMachine paths machine) w =
    (Returned (Some (Errorf "failed to kill VMM" err)), w2,
     [Ev (VmmGetVM (default "" (ApiSocketPath (Spec machine)))) (Fail e0);
      Ev (VmmDelete (ID machine)) err]).
Proof.
  intros Hvm He0 Hdel Herr. unfold deleteMachine, getMachineState. cbn.
  rewrite Hvm. cbn in He0 |- *. rewrite He0. cbn.
  rewrite (bool_decide_eq_false_2 (Shutdown = Running)) by done.
  unfold deleteMachineAfterPowerOff. cbn.
  rewrite Hdel. cbn. rewrite Herr. reflexivity.
Qed.

(** With the not-found sentinel the teardown goes on to the NICs. *)
Lemma deleteMachine_Delete_not_found (paths : Paths) (W : Type) (h : Handler W) (w w1 w2 : W)
    (machine : Machine) (e0 : error) (err : option error) :
  h _ (VmmGetVM (default "" (ApiSocketPath (Spec machine)))) w = (Fail e0, w1) ->
  errors_Is (Some e0) vmm_ErrVmNotCreated || errors_Is (Some e0) vmm_ErrNotFound = true ->
  h _ (VmmDelete (ID machine)) w1 = (err, w2) ->
  errors_Is err vmm_ErrNotFound = true ->
  NetworkInterfaces (Spec machine) = [] ->
  exists o w' rest,
    run h (deleteMachine paths machine) w =
      (o, w',
       [Ev (VmmGetVM (default "" (ApiSocketPath (Spec machine)))) (Fail e0);
        Ev (VmmDelete (ID machine)) err;
        Ev (OsRemoveAll (MachineDir paths (ID machine))) rest.1] ++ rest.2).
Proof.
  intros Hvm He0 Hdel Herr Hnics. unfold deleteMachine, getMachineState. cbn.
  rewrite Hvm. cbn in He0 |- *. rewrite He0. cbn.
  rewrite (bool_decide_eq_false_2 (Shutdown = Running)) by done.
  unfold deleteMachineAfterPowerOff. cbn.
  rewrite Hdel. cbn. rewrite Herr. cbn. rewrite run_bind.
  rewrite Hnics. unfold deleteMachineNics. cbn.
  destruct (h _ (OsRemoveAll (MachineDir paths (ID machine))) w2) as [r w3].
  match goal with
  | |- context [run h ?p w3] => destruct (run h p w3) as [[o w'] rest]
  end.
  by exists o, w', (r, rest).
Qed.

(** C3, the failing input.  The machine is marked deleted, its VM is not
    created, and [vmm.Delete] succeeds (returns [nil]): [deleteMachine] stops
    there with the error "failed to kill VMM" around a [nil] cause, and
    never reaches the NICs, the directory or the finalizer. *)
Theorem teardown_delete_nil_fails :
  run Demo.handler (deleteMachine Demo.paths DemoInputs.doomed)
      (Demo.world_of DemoInputs.doomed)
  = (Returned (Some (Errorf "failed to kill VMM" None)),
     Demo.world_of DemoInputs.doomed,
     [Ev (VmmGetVM "/run/chp/m1.sock") (Fail (ErrSentinel vmm_ErrVmNotCreated));
      Ev (VmmDelete "m1") None]).
Proof. vm_compute. reflexivity. Qed.

(** The same machine when [vmm.Delete] answers with the sentinel: the
    teardown completes, and the store drops the machine. *)
Example teardown_delete_not_found_ex :
  run Demo.handler (deleteMachine Demo.paths DemoInputs.doomed)
      (DemoInputs.with_vmmDelete (Some (ErrSentinel vmm_ErrNotFound))
         (Demo.world_of DemoInputs.doomed))
  = (Returned None,
     Demo.with_machines ∅
       (DemoInputs.with_vmmDelete (Some (ErrSentinel vmm_ErrNotFound))
          (Demo.world_of DemoInputs.doomed)),
     [Ev (VmmGetVM "/run/chp/m1.sock") (Fail (ErrSentinel vmm_ErrVmNotCreated));
      Ev (VmmDelete "m1") (Some (ErrSentinel vmm_ErrNotFound));
      Ev (OsRemoveAll "/var/lib/chp/machines/m1") None;
      Ev (MachinesUpdate (set_Finalizers [] DemoInputs.doomed))
         (Ok (set_Finalizers [] DemoInputs.doomed))]).
Proof. vm_compute. reflexivity. Qed.

(** ** NIC finalizers *)

Lemma DeleteSliceElement_NoDup (s : list string) (elem : string) :
  NoDup s -> elem ∉ DeleteSliceElement s elem.
Proof.
  induction s as [|x s IH]; intros Hnd; simpl.
  - apply not_elem_of_nil.
  - apply NoDup_cons in Hnd as [Hx Hnd].
    destruct (String.eqb_spec x elem) as [->|Hne]; [done|].
    rewrite not_elem_of_cons. split; [done|]. by apply IH.
Qed.

(** C10.  NIC finalizer updates are idempotent at the store level:
    [addFinalizerToNIC] makes no call and leaves the NIC as it is when the
    NIC carries the ["machine"] finalizer, [removeFinalizerFromNIC] makes no
    call and leaves the NIC as it is when the finalizer is absent, and a
    second application of either to the NIC left by a first one makes no call
    and changes nothing (for the removal: on finalizers that hold no entry
    twice, as a set does). *)
Theorem nic_finalizer_idempotent (nic : NetworkInterface) (W : Type) (h : Handler W) (w : W) :
  (MachineFinalizer ∈ nic_Finalizers nic ->
   run h (addFinalizerToNIC (Some nic)) w = (Returned (Some nic, None), w, []))
  /\ (MachineFinalizer ∉ nic_Finalizers nic ->
      run h (removeFinalizerFromNIC (Some nic)) w = (Returned (Some nic, None), w, []))
  /\ (forall o w1 tr,
        run h (addFinalizerToNIC (Some nic)) w = (o, w1, tr) ->
        exists nic1 err,
          o = Returned (Some nic1, err)
          /\ run h (addFinalizerToNIC (Some nic1)) w1 = (Returned (Some nic1, None), w1, []))
  /\ (NoDup (nic_Finalizers nic) ->
      forall o w1 tr,
        run h (removeFinalizerFromNIC (Some nic)) w = (o, w1, tr) ->
        exists nic1 err,
          o = Returned (Some nic1, err)
          /\ run h (removeFinalizerFromNIC (Some nic1)) w1
             = (Returned (Some nic1, None), w1, [])).
Proof.
  assert (forall n w0, MachineFinalizer ∈ nic_Finalizers n ->
            run h (addFinalizerToNIC (Some n)) w0 = (Returned (Some n, None), w0, []))
    as Hadd.
  { intros n w0 Hin. unfold addFinalizerToNIC, slices_Contains.
    by rewrite bool_decide_eq_true_2. }
  assert (forall n w0, MachineFinalizer ∉ nic_Finalizers n ->
            run h (removeFinalizerFromNIC (Some n)) w0 = (Returned (Some n, None), w0, []))
    as Hrem.
  { intros n w0 Hin. unfold removeFinalizerFromNIC, slices_Contains.
    by rewrite bool_decide_eq_false_2. }
  split; [apply Hadd|]. split; [apply Hrem|]. split.
  - intros o w1 tr. unfold addFinalizerToNIC at 1. unfold slices_Contains.
    case_bool_decide as Hin; cbn.
    + intros [= <- <- <-]. exists nic, None. split; [done|]. by apply Hadd.
    + destruct (h _ (NicsUpdate _) w) as [[n2|e] w2]; cbn; intros [= <- <- <-];
        eexists _, _; (split; [reflexivity|]); apply Hadd; cbn;
        apply elem_of_app; right; apply list_elem_of_here.
  - intros Hnd o w1 tr. unfold removeFinalizerFromNIC at 1. unfold slices_Contains.
    case_bool_decide as Hin; cbn.
    + destruct (h _ (NicsUpdate _) w) as [[n2|e] w2]; cbn; intros [= <- <- <-];
        eexists _, _; (split; [reflexivity|]); apply Hrem; cbn;
        by apply DeleteSliceElement_NoDup.
    + intros [= <- <- <-]. exists nic, None. split; [done|]. by apply Hrem.
Qed.

Lemma nic_finalizer_idempotent_witness :
  run Demo.handler (addFinalizerToNIC (Some DemoInputs.nic1)) (Demo.world_of Demo.socketed)
    = (Returned (Some DemoInputs.nic1, None), Demo.world_of Demo.socketed, [])
  /\ run Demo.handler (removeFinalizerFromNIC (Some DemoInputs.nic0))
       (Demo.world_of Demo.socketed)
     = (Returned (Some DemoInputs.nic0, None), Demo.world_of Demo.socketed, [])
  /\ (exists nic1 err,
        (run Demo.handler (removeFinalizerFromNIC (Some DemoInputs.nic1))
           (Demo.world_of Demo.socketed)).1.1 = Returned (Some nic1, err)
        /\ run Demo.handler (removeFinalizerFromNIC (Some nic1))
             (run Demo.handler (removeFinalizerFromNIC (Some DemoInputs.nic1))
                (Demo.world_of Demo.socketed)).1.2
           = (Returned (Some nic1, None),
              (run Demo.handler (removeFinalizerFromNIC (Some DemoInputs.nic1))
                 (Demo.world_of Demo.socketed)).1.2, [])).
Proof.
  split; [|split].
  - apply (nic_finalizer_idempotent DemoInputs.nic1 Demo.World Demo.handler
             (Demo.world_of Demo.socketed)).
    apply list_elem_of_here.
  - apply (nic_finalizer_idempotent DemoInputs.nic0 Demo.World Demo.handler
             (Demo.world_of Demo.socketed)).
    apply not_elem_of_nil.
  - destruct (nic_finalizer_idempotent DemoInputs.nic1 Demo.World Demo.handler
                (Demo.world_of Demo.socketed)) as (_ & _ & _ & Hrem).
    destruct (run Demo.handler (removeFinalizerFromNIC (Some DemoInputs.nic1))
                (Demo.world_of Demo.socketed)) as [[o w1] tr] eqn:Hrun.
    destruct (Hrem (NoDup_singleton _) o w1 tr eq_refl) as (n1 & err & Ho & H2).
    exists n1, err. simpl. by split.
Defined.

(** ** Volumes *)

Lemma post_conj {A : Type} (p : Prog A) (Q1 Q2 : Outcome A -> list Event -> Prop) :
  post p Q1 -> post p Q2 -> post p (fun o tr => Q1 o tr /\ Q2 o tr).
Proof.
  revert Q1 Q2. induction p as [a|msg|R c k IH]; intros Q1 Q2; simpl.
  - tauto.
  - tauto.
  - intros H1 H2 r. apply (IH r _ _ (H1 r) (H2 r)).
Qed.

Lemma reconcileVolumesLoop_calls (machine : Machine) (vols : list VolumeSpec)
    (sts : list VolumeStatus) (specs : list VolumeSpec) :
  calls_only notMachinesUpdate (reconcileVolumesLoop machine vols sts specs).
Proof.
  revert sts specs. induction vols as [|vol vols IH]; intros sts specs; cbn; [done|].
  split; [done|]. intros [plugin|err]; cbn; [|done].
  assert (forall a : result VolumeStatus,
            calls_only notMachinesUpdate
              match a with
              | Ok appliedVolume =>
                  reconcileVolumesLoop machine vols
                    (sts ++ [if bool_decide
                                  (vst_State (getVolumeStatus (VolumeStatuses (Status machine))
                                                (vs_Name vol)) = VolumeStateAttached)
                             then set_vst_State
                                    (vst_State (getVolumeStatus (VolumeStatuses (Status machine))
                                                  (vs_Name vol))) appliedVolume
                             else appliedVolume])
                    (specs ++ [vol])
              | Fail err => Ret (Fail (Errorf "failed to apply volume" (Some err)))
              end) as Happly.
  { intros [a|err]; [apply IH|done]. }
  destruct (vs_DeletedAt vol); [|by split].
  case_bool_decide; cbn; [by split|].
  split; [done|]. intros [e|]; [done|apply IH].
Qed.

(** The loop of [reconcileVolumes]: what it returns extends the two lists in
    step, keeps [Attached] where the current status has it, and drops no
    volume that is currently [Attached]. *)
Lemma reconcileVolumesLoop_post (machine : Machine) (vols : list VolumeSpec)
    (sts : list VolumeStatus) (specs : list VolumeSpec) :
  post (reconcileVolumesLoop machine vols sts specs)
    (fun o _ =>
       forall sts' specs', o = Returned (Ok (sts', specs')) ->
         exists sts2 specs2,
           sts' = sts ++ sts2 /\ specs' = specs ++ specs2
           /\ Forall2 (fun vol st =>
                         currentVolumeState machine vol = VolumeStateAttached ->
                         vst_State st = VolumeStateAttached) specs2 sts2
           /\ forall vol, vol ∈ vols ->
                currentVolumeState machine vol = VolumeStateAttached -> vol ∈ specs2).
Proof.
  revert sts specs. induction vols as [|vol vols IH]; intros sts specs; cbn.
  - intros sts' specs' [= <- <-]. exists [], []. rewrite !app_nil_r.
    repeat split; [constructor|]. intros vol Hin. by apply elem_of_nil in Hin.
  - intros [plugin|err]; cbn; [|done].
    set (status := getVolumeStatus (VolumeStatuses (Status machine)) (vs_Name vol)).
    assert (forall a : result VolumeStatus,
              post
                match a with
                | Ok appliedVolume =>
                    reconcileVolumesLoop machine vols
                      (sts ++ [if bool_decide (vst_State status = VolumeStateAttached)
                               then set_vst_State (vst_State status) appliedVolume
                               else appliedVolume])
                      (specs ++ [vol])
                | Fail err => Ret (Fail (Errorf "failed to apply volume" (Some err)))
                end
                (fun o _ =>
                   forall sts' specs', o = Returned (Ok (sts', specs')) ->
                     exists sts2 specs2,
                       sts' = sts ++ sts2 /\ specs' = specs ++ specs2
                       /\ Forall2 (fun vol st =>
                                     currentVolumeState machine vol = VolumeStateAttached ->
                                     vst_State st = VolumeStateAttached) specs2 sts2
                       /\ forall v, v ∈ vol :: vols ->
                            currentVolumeState machine v = VolumeStateAttached ->
                            v ∈ specs2)) as Happly.
    { intros [a|err]; cbn; [|done].
      eapply post_mono; [|apply IH]. cbn.
      intros o _ H sts' specs' Ho.
      destruct (H _ _ Ho) as (sts2 & specs2 & -> & -> & HF & Hin).
      eexists (_ :: sts2), (vol :: specs2). rewrite <- !app_assoc.
      split; [reflexivity|]. split; [reflexivity|]. split.
      - constructor; [|done]. intros Hatt. unfold currentVolumeState in Hatt.
        fold status in Hatt. rewrite bool_decide_eq_true_2 by done. done.
      - intros v [->|Hv]%elem_of_cons Hatt; [apply list_elem_of_here|].
        apply list_elem_of_further. by apply Hin. }
    assert (vst_State status <> VolumeStateAttached ->
            post (reconcileVolumesLoop machine vols sts specs)
              (fun o _ =>
                 forall sts' specs', o = Returned (Ok (sts', specs')) ->
                   exists sts2 specs2,
                     sts' = sts ++ sts2 /\ specs' = specs ++ specs2
                     /\ Forall2 (fun vol st =>
                                   currentVolumeState machine vol = VolumeStateAttached ->
                                   vst_State st = VolumeStateAttached) specs2 sts2
                     /\ forall v, v ∈ vol :: vols ->
                          currentVolumeState machine v = VolumeStateAttached ->
                          v ∈ specs2)) as Hskip.
    { intros Hna. eapply post_mono; [|apply IH]. cbn.
      intros o _ H sts' specs' Ho.
      destruct (H _ _ Ho) as (sts2 & specs2 & -> & -> & HF & Hin).
      exists sts2, specs2. repeat split; [done|].
      intros v [->|Hv]%elem_of_cons Hatt; [done|]. by apply Hin. }
    destruct (vs_DeletedAt vol); [|intros a; exact (Happly a)].
    case_bool_decide as Hatt; cbn; [intros a; exact (Happly a)|].
    intros [e|]; cbn; [done|]. exact (Hskip Hatt).
Qed.

Lemma notMachinesUpdate_on (P : Machine -> Prop) (e : Event) :
  ev_sat notMachinesUpdate e -> on_MachinesUpdate P e.
Proof. destruct e as [R c r]. destruct c; simpl; tauto. Qed.

Lemma reconcileVolumes_post (machine : Machine) :
  post (reconcileVolumes machine)
    (fun o tr =>
       Forall (on_MachinesUpdate (keepsAttached machine)) tr
       /\ forall m', o = Returned (m', None) ->
            keepsAttached machine m'
            /\ exists m2, last tr = Some (Ev (MachinesUpdate m') (Ok m2))).
Proof.
  unfold reconcileVolumes. apply post_bind.
  eapply post_mono;
    [|apply post_conj;
      [apply calls_only_post, (reconcileVolumesLoop_calls machine _ [] [])
      |apply (reconcileVolumesLoop_post machine _ [] [])]].
  cbn. intros o tr [Hcalls Hpost].
  assert (Forall (on_MachinesUpdate (keepsAttached machine)) tr) as Hquiet.
  { eapply Forall_impl; [apply Hcalls|]. apply notMachinesUpdate_on. }
  destruct o as [[[sts' specs']|e]|msg]; cbn.
  - destruct (Hpost _ _ eq_refl) as (sts2 & specs2 & -> & -> & HF & Hin). cbn in *.
    assert (keepsAttached machine (set_VolumeStatus sts2 (set_Volumes specs2 machine)))
      as Hkeep by (split; assumption).
    assert (forall u : result Machine,
              Forall (on_MachinesUpdate (keepsAttached machine))
                (tr ++ [Ev (MachinesUpdate
                              (set_VolumeStatus sts2 (set_Volumes specs2 machine))) u]))
      as Hall.
    { intros u. apply Forall_app. split; [done|]. constructor; [exact Hkeep|constructor]. }
    intros [m2|err]; cbn; (split; [apply Hall|]).
    + intros m' [= <-]. split; [done|]. exists m2. by rewrite last_snoc.
    + by intros m' [=].
  - rewrite app_nil_r. split; [done|]. by intros m' [=].
  - split; [done|]. by intros m' [=].
Qed.

(** C7.  [reconcileVolumes] never rewinds a volume: in every machine it
    hands to the store, the status list runs along the volume list, the
    status written for a volume whose current status is [Attached] is
    [Attached] whatever state the plugin's [Apply] returned, and no volume
    that is currently [Attached] is dropped; when [reconcileVolumes] succeeds
    that machine is the one it returns, written by its last call. *)
Theorem volumes_never_rewound (W : Type) (h : Handler W) (w : W) (machine : Machine)
    (o : Outcome (Machine * option error)) (w' : W) (tr : list Event) :
  run h (reconcileVolumes machine) w = (o, w', tr) ->
  Forall (on_MachinesUpdate (keepsAttached machine)) tr
  /\ forall m', o = Returned (m', None) ->
       keepsAttached machine m'
       /\ exists m2, last tr = Some (Ev (MachinesUpdate m') (Ok m2)).
Proof. intros Hrun. exact (post_run h _ _ (reconcileVolumes_post machine) _ _ _ _ Hrun). Qed.

(** The plugin of the double answers [Prepared]; the status written for the
    attached volume is still [Attached]. *)
Example reconcileVolumes_attached_ex :
  run Demo.handler (reconcileVolumes DemoVolumes.attached) (Demo.world_of DemoVolumes.attached)
  = (Returned (DemoVolumes.attached, None),
     Demo.world_of DemoVolumes.attached,
     [Ev (FindPluginBySpec DemoVolumes.dataVolume) (Ok "ceph");
      Ev (PluginApply "ceph" DemoVolumes.dataVolume "m1")
         (Ok {| vst_Name := "data"; vst_Handle := "h-data"; vst_State := VolumeStatePrepared |});
      Ev (MachinesUpdate DemoVolumes.attached) (Ok DemoVolumes.attached)]).
Proof. vm_compute. reflexivity. Qed.

Lemma volumes_never_rewound_witness :
  Forall (on_MachinesUpdate (keepsAttached DemoVolumes.attached))
    [Ev (FindPluginBySpec DemoVolumes.dataVolume) (Ok "ceph");
     Ev (PluginApply "ceph" DemoVolumes.dataVolume "m1")
        (Ok {| vst_Name := "data"; vst_Handle := "h-data"; vst_State := VolumeStatePrepared |});
     Ev (MachinesUpdate DemoVolumes.attached) (Ok DemoVolumes.attached)]
  /\ forall m', Returned (DemoVolumes.attached, @None error) = Returned (m', None) ->
       keepsAttached DemoVolumes.attached m'
       /\ exists m2,
            last [Ev (FindPluginBySpec DemoVolumes.dataVolume) (Ok "ceph");
                  Ev (PluginApply "ceph" DemoVolumes.dataVolume "m1")
                     (Ok {| vst_Name := "data"; vst_Handle := "h-data";
                            vst_State := VolumeStatePrepared |});
                  Ev (MachinesUpdate DemoVolumes.attached) (Ok DemoVolumes.attached)]
            = Some (Ev (MachinesUpdate m') (Ok m2)).
Proof.
  apply (volumes_never_rewound Demo.World Demo.handler (Demo.world_of DemoVolumes.attached)
           DemoVolumes.attached _ (Demo.world_of DemoVolumes.attached)).
  vm_compute. reflexivity.
Defined.

(** ** Teardown: the order of release *)

Lemma removeFinalizerFromNIC_calls (nic : option NetworkInterface) :
  calls_only isNicStoreCall (removeFinalizerFromNIC nic).
Proof.
  unfold removeFinalizerFromNIC. destruct nic as [nic|]; [|done].
  destruct (negb _); cbn; [done|]. split; [done|]. by intros [n|e].
Qed.

Lemma deleteMachineNics_calls (machine : Machine) (nis : list MachineNetworkInterfaceSpec)
    (all : bool) :
  calls_only isNicStoreCall (deleteMachineNics machine nis all).
Proof.
  revert all. induction nis as [|ni nis IH]; intros all; cbn; [done|].
  split; [done|]. intros r.
  destruct (negb _); [|apply IH].
  apply calls_only_bind; [apply removeFinalizerFromNIC_calls|].
  intros fr. destruct (snd fr); cbn; [done|]. split; [done|].
  intros d. destruct (store_IgnoreErrNotFound d); [done|apply IH].
Qed.

Lemma post_any {A : Type} (p : Prog A) (Q : Outcome A -> list Event -> Prop) :
  (forall o tr, Q o tr) -> post p Q.
Proof.
  revert Q. induction p as [a|msg|R c k IH]; intros Q HQ; simpl; auto.
Qed.

(** [removeFinalizerFromNIC] on an object fails only if the store does. *)
Lemma removeFinalizerFromNIC_post (n : NetworkInterface) :
  post (removeFinalizerFromNIC (Some n))
    (fun o tr =>
       exists fr, o = Returned fr
                  /\ (Forall (fun e => ~ nicStoreFault e) tr -> snd fr = None)).
Proof.
  unfold removeFinalizerFromNIC. destruct (negb _); cbn.
  - by eexists.
  - intros [n2|e2]; cbn; eexists; (split; [reflexivity|]); [done|].
    intros [Hu _]%Forall_cons. exfalso. by apply Hu.
Qed.

(** The loop ends with [allNicsDeleted] only if it started with it and every
    NIC it looked up was absent. *)
Lemma deleteMachineNics_all_deleted (machine : Machine)
    (nis : list MachineNetworkInterfaceSpec) (all : bool) :
  post (deleteMachineNics machine nis all)
    (fun o tr =>
       o = Returned (Ok true) ->
       all = true /\ ~ Exists nicFound tr
       /\ forall ni, ni ∈ nis -> nicAbsentAt machine tr ni).
Proof.
  revert all. induction nis as [|ni nis IH]; intros all; cbn.
  - intros [= ->]. split; [done|]. split; [by intros ?%Exists_nil|].
    intros ni Hin. by apply elem_of_nil in Hin.
  - intros [n|e]; cbn.
    + (* the NIC exists: the loop goes on with [allNicsDeleted = false] *)
      apply post_bind, post_any. intros [fr|msg] tr; [|done].
      destruct (snd fr); cbn; [done|].
      intros d. destruct (store_IgnoreErrNotFound d); cbn; [done|].
      eapply post_mono; [|apply (IH false)]. cbn. intros o tr2 H Ho.
      by destruct (H Ho) as [? _].
    + destruct (error_is e store_ErrNotFound) eqn:He; cbn.
      * eapply post_mono; [|apply (IH all)]. cbn.
        intros o tr H Ho. destruct (H Ho) as (-> & Hnf & Habs).
        split; [done|]. split.
        -- intros [Hhd|Htl]%Exists_cons; [done|by apply Hnf].
        -- intros ni' [->|Hin]%elem_of_cons.
           ++ exists e. split; [apply list_elem_of_here|done].
           ++ destruct (Habs _ Hin) as (e' & Hin' & He').
              exists e'. split; [by apply list_elem_of_further|done].
      * unfold removeFinalizerFromNIC. cbn. done.
Qed.

(** Once a NIC was found, or [allNicsDeleted] was false on entry, the loop
    ends with [allNicsDeleted = false], unless a call on the NIC store fails. *)
Lemma deleteMachineNics_waits (machine : Machine) (nis : list MachineNetworkInterfaceSpec)
    (all : bool) :
  post (deleteMachineNics machine nis all)
    (fun o tr =>
       Exists nicFound tr \/ all = false ->
       Forall (fun e => ~ nicStoreFault e) tr ->
       o = Returned (Ok false)).
Proof.
  revert all. induction nis as [|ni nis IH]; intros all; cbn.
  - intros [?%Exists_nil| ->]; done.
  - intros [n|e]; cbn.
    + apply post_bind.
      eapply post_mono; [|apply removeFinalizerFromNIC_post]. cbn.
      intros o tr (fr & -> & Hfr). destruct (snd fr) as [e0|] eqn:He0; cbn.
      * intros _ [_ Hok]%Forall_cons. rewrite app_nil_r in Hok. by specialize (Hfr Hok).
      * intros d. destruct (store_IgnoreErrNotFound d) eqn:Hd; cbn.
        -- intros _ [_ Hok]%Forall_cons. apply Forall_app in Hok as [_ Hok].
           apply Forall_cons in Hok as [Hd' _]. exfalso. apply Hd'. cbn. by rewrite Hd.
        -- eapply post_mono; [|apply (IH false)]. cbn.
           intros o tr2 H _ [_ Hok]%Forall_cons. apply Forall_app in Hok as [_ Hok].
           apply Forall_cons in Hok as [_ Hok]. apply H; [by right|done].
    + destruct (error_is e store_ErrNotFound) eqn:He; cbn.
      * eapply post_mono; [|apply (IH all)]. cbn.
        intros o tr H Hor Hok. apply Forall_cons in Hok as [_ Hok].
        apply H; [|done]. destruct Hor as [[Hhd|Htl]%Exists_cons|Hall]; auto. done.
      * unfold removeFinalizerFromNIC. cbn.
        intros _ Hok. apply Forall_cons in Hok as [Hg _]. exfalso. by apply Hg.
Qed.

Lemma teardownOrdered_cons (machine : Machine) (o : Outcome (option error)) (e : Event)
    (tr : list Event) :
  ev_sat notMachineRelease e -> ~ nicFound e ->
  teardownOrdered machine o tr -> teardownOrdered machine o (e :: tr).
Proof.
  intros Hr Hf [H1 H2]. split.
  - intros [Hhd|Htl]%Exists_cons.
    { exfalso. destruct e as [R c r]. by apply Hr. }
    intros ni Hin. destruct (H1 Htl ni Hin) as (e' & Hin' & He').
    exists e'. split; [by apply list_elem_of_further|done].
  - intros [Hhd|Htl]%Exists_cons; [done|].
    destruct (H2 Htl) as [Ha Hb]. split; [by constructor|].
    intros [_ Hok]%Forall_cons. by apply Hb.
Qed.

Lemma teardownOrdered_quiet (machine : Machine) (o : Outcome (option error))
    (tr : list Event) :
  Forall (fun e => ev_sat notMachineRelease e /\ ~ nicFound e) tr ->
  teardownOrdered machine o tr.
Proof.
  intros Hq. split.
  - intros Hex. exfalso. apply Exists_exists in Hex as (e & Hin & He).
    rewrite Forall_forall in Hq. destruct (Hq e Hin) as [Hr _].
    destruct e as [R c r]. by apply Hr.
  - intros Hex. exfalso. apply Exists_exists in Hex as (e & Hin & He).
    rewrite Forall_forall in Hq. by destruct (Hq e Hin) as [_ Hf].
Qed.

Lemma nicStoreCall_notRelease (e : Event) :
  ev_sat isNicStoreCall e -> ev_sat notMachineRelease e.
Proof. destruct e as [R c r]. destruct c; simpl; unfold notMachineRelease; simpl; tauto. Qed.

(** While the loop only waits, nothing of the machine is released. *)
Lemma teardownOrdered_waiting (machine : Machine) (o : Outcome (option error))
    (tr : list Event) :
  Forall (ev_sat isNicStoreCall) tr ->
  (Exists nicFound tr -> Forall (fun e => ~ nicStoreFault e) tr -> o = Returned None) ->
  teardownOrdered machine o tr.
Proof.
  intros Hc Hw.
  assert (Forall (ev_sat notMachineRelease) tr) as Hnr.
  { eapply Forall_impl; [apply Hc|]. apply nicStoreCall_notRelease. }
  split.
  - intros Hex. exfalso. apply Exists_exists in Hex as (e & Hin & He).
    rewrite Forall_forall in Hnr. specialize (Hnr e Hin).
    destruct e as [R c r]. by apply Hnr.
  - intros Hex. split; [done|]. by apply Hw.
Qed.

(** When every NIC was absent, the release of the machine is in order. *)
Lemma teardownOrdered_absent (machine : Machine) (o : Outcome (option error))
    (tr rel : list Event) :
  ~ Exists nicFound tr ->
  (forall ni, ni ∈ NetworkInterfaces (Spec machine) -> nicAbsentAt machine tr ni) ->
  Forall (fun e => ~ nicFound e) rel ->
  teardownOrdered machine o (tr ++ rel).
Proof.
  intros Hnf Habs Hrel. split.
  - intros _ ni Hin. destruct (Habs ni Hin) as (e & Hin' & He).
    exists e. split; [|done]. apply elem_of_app. by left.
  - intros [Hex|Hex]%Exists_app; [done|]. exfalso.
    apply Exists_exists in Hex as (e & Hin & He).
    rewrite Forall_forall in Hrel. by apply (Hrel e Hin).
Qed.

Lemma deleteMachineAfterPowerOff_post (paths : Paths) (machine : Machine) :
  post (deleteMachineAfterPowerOff paths machine) (teardownOrdered machine).
Proof.
  unfold deleteMachineAfterPowerOff. cbn. intros d.
  assert (forall o tr, teardownOrdered machine o tr ->
            teardownOrdered machine o (Ev (VmmDelete (ID machine)) d :: tr)) as Hpre.
  { intros o tr. apply teardownOrdered_cons; cbn; unfold notMachineRelease; cbn; tauto. }
  destruct (negb (errors_Is d vmm_ErrNotFound)); cbn.
  { apply Hpre, teardownOrdered_quiet. constructor. }
  apply post_bind.
  eapply post_mono;
    [|apply post_conj;
      [apply calls_only_post, deleteMachineNics_calls
      |apply post_conj;
        [apply deleteMachineNics_all_deleted|apply deleteMachineNics_waits]]].
  cbn. intros o tr (Hc & Hall & Hwait).
  destruct o as [[[|]|e]|msg]; cbn.
  - (* every NIC was absent: the directory goes, then the finalizer *)
    destruct (Hall eq_refl) as (_ & Hnf & Habs).
    intros [e|]; cbn.
    + apply Hpre, teardownOrdered_absent; try done. repeat constructor; cbn; tauto.
    + intros u. destruct (store_IgnoreErrNotFound _); cbn;
        apply Hpre, teardownOrdered_absent; try done; repeat constructor; cbn; tauto.
  - (* some NIC is still there: wait *)
    rewrite app_nil_r. apply Hpre, teardownOrdered_waiting; done.
  - rewrite app_nil_r. apply Hpre, teardownOrdered_waiting; [done|].
    intros Hex Hok. by specialize (Hwait (or_introl Hex) Hok).
  - apply Hpre, teardownOrdered_waiting; [done|].
    intros Hex Hok. by specialize (Hwait (or_introl Hex) Hok).
Qed.

Lemma deleteMachine_post (paths : Paths) (machine : Machine) :
  post (deleteMachine paths machine) (teardownOrdered machine).
Proof.
  unfold deleteMachine, getMachineState. cbn. intros r.
  assert (forall o tr, teardownOrdered machine o tr ->
            teardownOrdered machine o
              (Ev (VmmGetVM (default "" (ApiSocketPath (Spec machine)))) r :: tr)) as Hpre.
  { intros o tr. apply teardownOrdered_cons; cbn; unfold notMachineRelease; cbn; tauto. }
  assert (post (deleteMachineAfterPowerOff paths machine)
            (fun o tr =>
               teardownOrdered machine o
                 (Ev (VmmGetVM (default "" (ApiSocketPath (Spec machine)))) r :: tr)))
    as Hafter.
  { eapply post_mono; [|apply deleteMachineAfterPowerOff_post]. apply Hpre. }
  assert (post (err <- call (VmmPowerOff (ID machine)) ;;
                if negb (errors_Is err vmm_ErrNotFound)
                then Ret (Some (Errorf "failed to power off machine" err))
                else deleteMachineAfterPowerOff paths machine)
            (fun o tr =>
               teardownOrdered machine o
                 (Ev (VmmGetVM (default "" (ApiSocketPath (Spec machine)))) r :: tr)))
    as Hoff.
  { cbn. intros p.
    assert (forall o tr, teardownOrdered machine o tr ->
              teardownOrdered machine o (Ev (VmmPowerOff (ID machine)) p :: tr)) as Hpre2.
    { intros o tr. apply teardownOrdered_cons; cbn; unfold notMachineRelease; cbn; tauto. }
    destruct (negb (errors_Is p vmm_ErrNotFound)); cbn.
    - apply Hpre, Hpre2, teardownOrdered_quiet. constructor.
    - eapply post_mono; [|apply deleteMachineAfterPowerOff_post].
      intros o tr H. by apply Hpre, Hpre2. }
  destruct r as [[vm|]|err]; cbn.
  - case_bool_decide as Hrun; cbn.
    + rewrite bool_decide_eq_true_2 by done. exact Hoff.
    + rewrite (bool_decide_eq_false_2 (Shutdown = Running)) by done. exact Hafter.
  - apply Hpre, teardownOrdered_quiet. constructor.
  - destruct (_ || _); cbn.
    + rewrite (bool_decide_eq_false_2 (Shutdown = Running)) by done. exact Hafter.
    + apply Hpre, teardownOrdered_quiet. constructor.
Qed.

(** C6.  Teardown is ordered.  In every pass of [deleteMachine]: if the pass
    removes the machine directory or hands the machine to the store (the
    update that strips the ["machine"] finalizer), then for every NIC of the
    machine spec the NIC store had answered not-found in that pass; and if
    the NIC store returned any referenced NIC, the pass makes neither of the
    two calls, and it returns [nil] unless a call on the NIC store fails. *)
Theorem teardown_ordered (paths : Paths) (W : Type) (h : Handler W) (w : W)
    (machine : Machine) (o : Outcome (option error)) (w' : W) (tr : list Event) :
  run h (deleteMachine paths machine) w = (o, w', tr) ->
  (Exists (ev_sat isMachineRelease) tr ->
   forall ni, ni ∈ NetworkInterfaces (Spec machine) -> nicAbsentAt machine tr ni)
  /\ (Exists nicFound tr ->
      Forall (ev_sat notMachineRelease) tr
      /\ (Forall (fun e => ~ nicStoreFault e) tr -> o = Returned None)).
Proof.
  intros Hrun. exact (post_run h _ _ (deleteMachine_post paths machine) _ _ _ _ Hrun).
Qed.

(** A NIC object is still there: the pass releases the NIC and waits. *)
Example teardown_waits_ex :
  run Demo.handler (deleteMachine Demo.paths DemoTeardown.doomedWithNic)
      DemoTeardown.nicPresent
  = (Returned None,
     Demo.with_nics ∅ DemoTeardown.nicPresent,
     [Ev (VmmGetVM "/run/chp/m1.sock") (Fail (ErrSentinel vmm_ErrVmNotCreated));
      Ev (VmmDelete "m1") (Some (ErrSentinel vmm_ErrNotFound));
      Ev (NicsGet "NIC--m1--eth0") (Ok DemoInputs.nic1);
      Ev (NicsUpdate DemoInputs.nic0) (Ok DemoInputs.nic0);
      Ev (NicsDelete "NIC--m1--eth0") None]).
Proof. vm_compute. reflexivity. Qed.

(** The NIC object is gone: the directory is removed and the finalizer stripped. *)
Example teardown_completes_ex :
  (run Demo.handler (deleteMachine Demo.paths DemoTeardown.doomedWithNic)
       DemoTeardown.nicGone).2
  = [Ev (VmmGetVM "/run/chp/m1.sock") (Fail (ErrSentinel vmm_ErrVmNotCreated));
     Ev (VmmDelete "m1") (Some (ErrSentinel vmm_ErrNotFound));
     Ev (NicsGet "NIC--m1--eth0") (Fail (ErrSentinel store_ErrNotFound));
     Ev (OsRemoveAll "/var/lib/chp/machines/m1") None;
     Ev (MachinesUpdate (set_Finalizers [] DemoTeardown.doomedWithNic))
        (Ok (set_Finalizers [] DemoTeardown.doomedWithNic))].
Proof. vm_compute. reflexivity. Qed.

Lemma teardown_ordered_witness :
  let tr :=
    [Ev (VmmGetVM "/run/chp/m1.sock") (Fail (ErrSentinel vmm_ErrVmNotCreated));
     Ev (VmmDelete "m1") (Some (ErrSentinel vmm_ErrNotFound));
     Ev (NicsGet "NIC--m1--eth0") (Ok DemoInputs.nic1);
     Ev (NicsUpdate DemoInputs.nic0) (Ok DemoInputs.nic0);
     Ev (NicsDelete "NIC--m1--eth0") None] in
  (Exists (ev_sat isMachineRelease) tr ->
   forall ni, ni ∈ NetworkInterfaces (Spec DemoTeardown.doomedWithNic) ->
              nicAbsentAt DemoTeardown.doomedWithNic tr ni)
  /\ (Exists nicFound tr ->
      Forall (ev_sat notMachineRelease) tr
      /\ (Forall (fun e => ~ nicStoreFault e) tr -> Returned (@None error) = Returned None)).
Proof.
  apply (teardown_ordered Demo.paths Demo.World Demo.handler DemoTeardown.nicPresent
           DemoTeardown.doomedWithNic _ (Demo.with_nics ∅ DemoTeardown.nicPresent)).
  vm_compute. reflexivity.
Defined.

(** ** The request of [CreateVM] *)

Section createVM_facts.

Local Open Scope Z_scope.

(** Up to [2^53] in magnitude the conversion to [float64] is exact. *)
Lemma float64_of_int_exact (z : Z) : Z.abs z <= 2 ^ 53 -> Vmm.float64_of_int z = z.
Proof.
  intros Hz. unfold Vmm.float64_of_int.
  destruct (Z.eq_dec (Z.abs z) (2 ^ 53)) as [Heq|Hne].
  - destruct (Z.abs_spec z) as [[_ Ha]|[_ Ha]]; rewrite Ha in Heq.
    + subst z. reflexivity.
    + assert (z = - 2 ^ 53) as -> by lia. reflexivity.
  - assert (Z.log2 (Z.abs z) - 52 <= 0) as He.
    { destruct (Z.eq_dec (Z.abs z) 0) as [->|Hnz]; [simpl; lia|].
      assert (Z.log2 (Z.abs z) < 53); [|lia].
      apply Z.log2_lt_pow2; lia. }
    apply Z.leb_le in He. by rewrite He.
Qed.

(** Truncated and floored division agree below the floor of one vCPU. *)
Lemma quot_max_floor (c : Z) : Z.max (Z.quot c 1000) 1 = Z.max 1 (c / 1000).
Proof.
  destruct (Z_le_gt_dec 0 c) as [Hc|Hc].
  - rewrite Z.quot_div_nonneg by lia. lia.
  - assert (Z.quot c 1000 <= 0).
    { pose proof (Z.quot_opp_l c 1000 ltac:(lia)) as Ho.
      pose proof (Z.quot_pos (- c) 1000 ltac:(lia) ltac:(lia)) as Hp. lia. }
    assert (c / 1000 < 0) by (apply Z.div_lt_upper_bound; lia).
    lia.
Qed.

Lemma vcpus_formula (c : Z) :
  Z.abs (Z.quot c 1000) <= 2 ^ 53 -> Vmm.vcpus c = Z.max 1 (c / 1000).
Proof.
  intros Hc. unfold Vmm.vcpus, Vmm.int_of_float64, Vmm.math_Max.
  rewrite float64_of_int_exact by done. apply quot_max_floor.
Qed.

(** The boundary values. *)
Example vcpus_boundary :
  Vmm.vcpus 0 = 1 /\ Vmm.vcpus 1 = 1 /\ Vmm.vcpus 999 = 1 /\ Vmm.vcpus 1000 = 1
  /\ Vmm.vcpus 1001 = 1 /\ Vmm.vcpus 4000 = 4.
Proof. repeat split; reflexivity. Qed.

(** C8, as amended.  For every machine whose client the manager holds and
    whose [cpuMillis / 1000] is at most [2^53] in magnitude (the whole
    numbers [float64] holds exactly; the values 0, 1, 999, 1000, 1001 and
    4000 are among them), [CreateVM] sends one request, between taking and
    releasing the machine's lock, whose boot and max vCPUs are both
    [max(1, floor(cpuMillis / 1000))], whose memory has size [memoryBytes]
    and is shared, whose serial mode is [Tty] and whose console mode is
    [Off]. *)
Theorem createVM_payload (m : Vmm.Manager) (machine : Machine) (apiClient : string)
    (W : Type) (h : Handler W) (w : W) :
  Vmm.vms m !! ID machine = Some apiClient ->
  Z.abs (Z.quot (CpuMillis (Spec machine)) 1000) <= 2 ^ 53 ->
  let body := Vmm.createVMBody m machine in
  let n := Z.max 1 (CpuMillis (Spec machine) / 1000) in
  (exists err,
     (run h (Vmm.CreateVM m machine) w).2
     = [Ev (MutexLock (ID machine)) tt; Ev (ClientCreateVM apiClient body) err;
        Ev (MutexUnlock (ID machine)) tt])
  /\ Cpus body = Some {| BootVcpus := n; MaxVcpus := n |}
  /\ Memory body = Some {| Size := MemoryBytes (Spec machine); Shared := Some true |}
  /\ Serial body = Some {| Mode := "Tty" |}
  /\ Console body = Some {| Mode := "Off" |}.
Proof.
  intros Hvms Hc body n. split.
  - unfold Vmm.CreateVM. rewrite Hvms. cbn.
    destruct (h _ (MutexLock (ID machine)) w) as [[] w1].
    fold body. destruct (h _ (ClientCreateVM apiClient body) w1) as [err w2].
    exists err. destruct err as [e|]; cbn;
      by destruct (h _ (MutexUnlock (ID machine)) w2) as [[] w3].
  - subst body n. unfold Vmm.createVMBody. cbn. rewrite vcpus_formula by done.
    repeat split; reflexivity.
Qed.

Lemma createVM_payload_witness :
  let body := Vmm.createVMBody DemoVmm.manager Demo.socketed in
  (exists err,
     (run Demo.handler (Vmm.CreateVM DemoVmm.manager Demo.socketed)
          (Demo.world_of Demo.socketed)).2
     = [Ev (MutexLock "m1") tt; Ev (ClientCreateVM "/run/chp/m1.sock" body) err;
        Ev (MutexUnlock "m1") tt])
  /\ Cpus body = Some {| BootVcpus := Z.max 1 (4000 / 1000);
                         MaxVcpus := Z.max 1 (4000 / 1000) |}
  /\ Memory body = Some {| Size := 4294967296; Shared := Some true |}
  /\ Serial body = Some {| Mode := "Tty" |}
  /\ Console body = Some {| Mode := "Off" |}.
Proof.
  apply (createVM_payload DemoVmm.manager Demo.socketed "/run/chp/m1.sock"
           Demo.World Demo.handler (Demo.world_of Demo.socketed)).
  - reflexivity.
  - vm_compute. discriminate.
Defined.

(** C8 as it is written fails beyond [2^53]: [cpuMillis =
    9007199254740993000] is an [int64]; its quotient by 1000 is
    [2^53 + 1], which [float64] rounds to [2^53], so the request asks for
    9007199254740992 vCPUs where [max(1, floor(cpuMillis / 1000))] is
    9007199254740993. *)
Lemma createVM_vcpus_counterexample :
  - 2 ^ 63 <= CpuMillis (Spec DemoVmm.huge) < 2 ^ 63
  /\ Cpus (Vmm.createVMBody DemoVmm.manager DemoVmm.huge)
     = Some {| BootVcpus := 9007199254740992; MaxVcpus := 9007199254740992 |}
  /\ Z.max 1 (CpuMillis (Spec DemoVmm.huge) / 1000) = 9007199254740993
  /\ Cpus (Vmm.createVMBody DemoVmm.manager DemoVmm.huge)
     <> Some {| BootVcpus := Z.max 1 (CpuMillis (Spec DemoVmm.huge) / 1000);
                MaxVcpus := Z.max 1 (CpuMillis (Spec DemoVmm.huge) / 1000) |}.
Proof.
  split; [split; vm_compute; [discriminate|reflexivity]|].
  split; [reflexivity|]. split; [reflexivity|].
  intros H. vm_compute in H. discriminate H.
Qed.

End createVM_facts.

(** ** The identity check and the worker *)

Ltac calls_tac :=
  repeat match goal with
         | |- True => exact I
         | |- calls_only _ (Ret _) => exact I
         | |- calls_only _ (Panic _) => exact I
         | |- calls_only _ (bind _ _) => apply calls_only_bind; [|intros ?]
         | |- calls_only _ (match ?x with _ => _ end) => destruct x
         | |- calls_only _ (if ?b then _ else _) => destruct b
         | |- _ /\ _ => split
         | |- forall _, _ => intros ?
         | |- notGetVM _ _ => unfold notGetVM; cbn; tauto
         | H : forall _, _ |- calls_only _ _ => solve [apply H]
         | H : calls_only _ ?p |- calls_only _ ?p => exact H
         | |- _ => progress cbn
         end.

Lemma MakeMachineDirs_calls (paths : Paths) (id : string) :
  calls_only notGetVM (MakeMachineDirs paths id).
Proof. unfold MakeMachineDirs. calls_tac. Qed.

Lemma reconcileImage_calls (paths : Paths) (machine : Machine) :
  calls_only notGetVM (reconcileImage paths machine).
Proof. unfold reconcileImage. calls_tac. Qed.

Lemma assignApiSocket_calls (machine : Machine) :
  calls_only notGetVM (assignApiSocket machine).
Proof. unfold assignApiSocket. calls_tac. Qed.

Lemma reconcileMachineNics_calls (machine : Machine) (nis : list MachineNetworkInterfaceSpec)
    (nics : gmap string NetworkInterface) :
  calls_only notGetVM (reconcileMachineNics machine nis nics).
Proof. revert nics. induction nis as [|ni nis IH]; intros nics; calls_tac. Qed.

Lemma reconcileVolumesLoop_quiet (machine : Machine) (vols : list VolumeSpec)
    (sts : list VolumeStatus) (specs : list VolumeSpec) :
  calls_only notGetVM (reconcileVolumesLoop machine vols sts specs).
Proof. revert sts specs. induction vols as [|vol vols IH]; intros sts specs; calls_tac. Qed.

Lemma reconcileVolumes_calls (machine : Machine) :
  calls_only notGetVM (reconcileVolumes machine).
Proof.
  unfold reconcileVolumes. apply calls_only_bind; [apply reconcileVolumesLoop_quiet|].
  intros r. calls_tac.
Qed.

Lemma addFinalizerToNIC_calls (nic : option NetworkInterface) :
  calls_only notGetVM (addFinalizerToNIC nic).
Proof. unfold addFinalizerToNIC. calls_tac. Qed.

Lemma removeFinalizerFromNIC_quiet (nic : option NetworkInterface) :
  calls_only notGetVM (removeFinalizerFromNIC nic).
Proof. unfold removeFinalizerFromNIC. calls_tac. Qed.

Lemma addFinalizerToNICs_calls (entries : list (string * NetworkInterface)) :
  calls_only notGetVM (addFinalizerToNICs entries).
Proof.
  induction entries as [|[name nic] entries IH]; cbn; [done|].
  apply calls_only_bind; [apply addFinalizerToNIC_calls|]. intros fr. calls_tac.
Qed.

Lemma reconcileNoVM_calls (machine : Machine) (nics : gmap string NetworkInterface)
    (err : error) :
  calls_only notGetVM (reconcileNoVM machine nics err).
Proof.
  unfold reconcileNoVM. destruct (negb _); [done|]. destruct (negb _); [done|].
  cbn. split; [unfold notGetVM; cbn; tauto|]. intros [e|]; [done|].
  apply calls_only_bind; [apply addFinalizerToNICs_calls|]. intros r. calls_tac.
Qed.

Lemma reconcilePower_calls (apiSocket : string) (machine : Machine) (vm : VmInfo) :
  calls_only notGetVM (reconcilePower apiSocket machine vm).
Proof. unfold reconcilePower. calls_tac. Qed.

Lemma reconcileNicsDevices_calls (apiSocket : string) (devs : list DeviceConfig)
    (desired : gmap string NetworkInterface) (current : gset string) :
  calls_only notGetVM (reconcileNicsDevices apiSocket devs desired current).
Proof.
  revert desired current. induction devs as [|dev devs IH]; intros desired current; cbn;
    [done|].
  destruct (getNicName _); [|apply IH]. destruct (desired !! _) as [nic|]; [|apply IH].
  destruct (nic_DeletedAt nic); [|apply IH].
  cbn. split; [unfold notGetVM; cbn; tauto|]. intros [e|]; [done|].
  apply calls_only_bind; [apply removeFinalizerFromNIC_quiet|].
  intros fr. destruct (snd fr); [done|apply IH].
Qed.

Lemma reconcileNicsDesired_calls (apiSocket : string)
    (entries : list (string * NetworkInterface))
    (desired : gmap string NetworkInterface) (current : gset string) :
  calls_only notGetVM (reconcileNicsDesired apiSocket entries desired current).
Proof.
  revert desired. induction entries as [|[name nic] entries IH]; intros desired; cbn;
    [done|].
  destruct (nic_DeletedAt nic); [apply IH|]. destruct (negb _); [|apply IH].
  apply calls_only_bind; [apply addFinalizerToNIC_calls|].
  intros fr. destruct (snd fr); [done|]. cbn.
  split; [unfold notGetVM; cbn; tauto|]. intros [e|]; [done|apply IH].
Qed.

Lemma reconcileNics_calls (machine : Machine) (desired : gmap string NetworkInterface)
    (devs : list DeviceConfig) :
  calls_only notGetVM (reconcileNics machine desired devs).
Proof.
  unfold reconcileNics. apply calls_only_bind; [apply reconcileNicsDevices_calls|].
  intros r. destruct (snd r); [apply reconcileNicsDesired_calls|done].
Qed.

Lemma attachDetachDisksLoop_calls (apiSocket : string) (machine : Machine)
    (current : gset string) (vols : list VolumeSpec) (sts : list VolumeStatus) :
  calls_only notGetVM (attachDetachDisksLoop apiSocket machine current vols sts).
Proof. revert sts. induction vols as [|vol vols IH]; intros sts; calls_tac. Qed.

Lemma attachDetachDisks_calls (machine : Machine) (vm : VmConfig) :
  calls_only notGetVM (attachDetachDisks machine vm).
Proof.
  unfold attachDetachDisks. apply calls_only_bind; [apply attachDetachDisksLoop_calls|].
  intros r. calls_tac.
Qed.

Lemma notGetVM_no_mismatch (id : string) (e : Event) :
  ev_sat notGetVM e -> ~ identityMismatch id e.
Proof. destruct e as [R c r]. destruct c; cbn; unfold notGetVM; cbn; tauto. Qed.

Lemma mismatchStops_quiet (id : string) (o : Outcome (option error)) (tr : list Event) :
  Forall (ev_sat notGetVM) tr -> mismatchStops id o tr.
Proof.
  intros Hq _ Hex. exfalso. apply Exists_exists in Hex as (e & Hin & He).
  rewrite Forall_forall in Hq. by apply (notGetVM_no_mismatch id e (Hq e Hin)).
Qed.

Lemma mismatchStops_cons (id : string) (o : Outcome (option error)) (e : Event)
    (tr : list Event) :
  ~ identityMismatch id e -> mismatchStops id o tr -> mismatchStops id o (e :: tr).
Proof.
  intros Hne H [_ Hk]%Forall_cons [Hhd|Htl]%Exists_cons; [done|].
  destruct (H Hk Htl) as (Ho & e' & Hlast & He'). split; [done|].
  exists e'. split; [|done]. destruct tr; [done|exact Hlast].
Qed.

Lemma mismatchStops_app (id : string) (o : Outcome (option error)) (pre tr : list Event) :
  Forall (ev_sat notGetVM) pre -> mismatchStops id o tr -> mismatchStops id o (pre ++ tr).
Proof.
  induction pre as [|e pre IH]; intros Hq H; [done|].
  apply Forall_cons in Hq as [He Hq]. cbn.
  apply mismatchStops_cons; [by apply notGetVM_no_mismatch|by apply IH].
Qed.

(** A phase that never asks for the VM can be put in front. *)
Lemma post_bind_quiet {A : Type} (id : string) (p : Prog A) (f : A -> Prog (option error)) :
  calls_only notGetVM p ->
  (forall a, post (f a) (mismatchStops id)) ->
  post (bind p f) (mismatchStops id).
Proof.
  intros Hp Hf. apply post_bind.
  eapply post_mono; [|apply calls_only_post, Hp]. cbn.
  intros [a|msg] tr Hq.
  - eapply post_mono; [|apply Hf]. intros o tr2. by apply mismatchStops_app.
  - by apply mismatchStops_quiet.
Qed.

Lemma reconcileVolumes_ID (machine : Machine) :
  post (reconcileVolumes machine)
    (fun o _ => forall m e, o = Returned (m, e) -> ID m = ID machine).
Proof.
  unfold reconcileVolumes. apply post_bind, post_any.
  intros [[[sts specs]|e]|msg] tr; cbn.
  - intros [m2|err]; cbn; by intros m e [= <- _].
  - by intros m e0 [= <- _].
  - done.
Qed.

Lemma assignApiSocket_ID (id : string) (machine : Machine) :
  ID machine = id ->
  post (assignApiSocket machine)
    (fun o tr => forall m2, o = Returned (Ok m2) -> Forall (storeKeepsId id) tr -> ID m2 = id).
Proof.
  intros Hid. unfold assignApiSocket. destruct (ApiSocketPath (Spec machine)); cbn.
  - by intros m2 [= <-] _.
  - intros [sock|err]; cbn; [|done].
    intros [m2|err]; cbn; [|done].
    intros m [= <-] Hk. apply Forall_cons in Hk as [_ Hk].
    by apply Forall_cons in Hk as [Hk _].
Qed.

(** With a live VM: the identity check comes first. *)
Lemma reconcileLiveVM_post (id apiSocket : string) (machine : Machine)
    (nics : gmap string NetworkInterface) (vm : VmInfo) :
  ID machine = id ->
  post (reconcileLiveVM apiSocket machine nics vm)
    (fun o tr => mismatchStops id o (Ev (VmmGetVM apiSocket) (Ok (Some vm)) :: tr)).
Proof.
  intros Hid. unfold reconcileLiveVM. fold (vmUuid vm).
  destruct (String.eqb_spec (vmUuid vm) (ID machine)) as [Heq|Hne]; cbn.
  - (* the ids agree: the rest of the pass never asks for the VM again *)
    assert (forall o tr, Forall (ev_sat notGetVM) tr ->
              mismatchStops id o (Ev (VmmGetVM apiSocket) (Ok (Some vm)) :: tr)) as Hrest.
    { intros o tr Hq. apply mismatchStops_cons; [|by apply mismatchStops_quiet].
      cbn. intros Hm. apply Hm. by rewrite Heq. }
    eapply post_mono; [intros o tr; apply Hrest|].
    apply calls_only_post.
    apply calls_only_bind; [apply reconcilePower_calls|]. intros [e|]; [done|].
    apply calls_only_bind; [apply reconcileNics_calls|]. intros rn.
    destruct (snd rn); [done|].
    apply calls_only_bind; [apply attachDetachDisks_calls|]. intros ad.
    destruct (snd ad); [done|]. calls_tac.
  - intros _ _. split; [done|]. eexists. split; [reflexivity|].
    cbn. by rewrite Hid in Hne.
Qed.

Lemma reconcileWithSocket_post (id : string) (machine : Machine) :
  ID machine = id ->
  post (reconcileWithSocket machine) (mismatchStops id).
Proof.
  intros Hid. unfold reconcileWithSocket. cbn. intros ping.
  eapply post_mono.
  { intros o tr. apply mismatchStops_cons. cbn. tauto. }
  destruct ping as [e|]; cbn; [by apply mismatchStops_quiet|].
  apply post_bind_quiet; [apply reconcileMachineNics_calls|].
  intros [nics|e]; cbn; [|by apply mismatchStops_quiet].
  apply post_bind.
  eapply post_mono;
    [|apply post_conj;
      [apply calls_only_post, reconcileVolumes_calls|apply reconcileVolumes_ID]].
  cbn. intros [[m3 e]|msg] tr [Hq HID]; [|by apply mismatchStops_quiet].
  specialize (HID _ _ eq_refl). cbn.
  destruct e as [e|]; cbn.
  { rewrite app_nil_r. by apply mismatchStops_quiet. }
  intros v.
  assert (forall o tr2,
            mismatchStops id o tr2 -> mismatchStops id o (tr ++ tr2)) as Hpre.
  { intros o tr2. by apply mismatchStops_app. }
  destruct v as [[vm|]|err]; cbn.
  - eapply post_mono; [|apply (reconcileLiveVM_post id); congruence].
    intros o tr2. apply Hpre.
  - (* the answer [(nil, nil)] is no mismatch: the pass panics *)
    apply Hpre, mismatchStops_cons; [cbn; tauto|]. apply mismatchStops_quiet. constructor.
  - eapply post_mono; [|apply calls_only_post, reconcileNoVM_calls].
    intros o tr2 Hq2. apply Hpre, mismatchStops_cons; [cbn; tauto|].
    by apply mismatchStops_quiet.
Qed.

Lemma reconcileMachine_post (paths : Paths) (id : string) :
  post (reconcileMachine paths id) (fun o tr => loadedLive tr -> mismatchStops id o tr).
Proof.
  unfold reconcileMachine. cbn. intros [machine|err]; cbn.
  2:{ destruct (negb _); cbn; tauto. }
  destruct (DeletedAt machine) eqn:Hdel.
  { apply post_bind, post_any. intros [a|msg] tr; cbn; congruence. }
  destruct (negb (slices_Contains (Finalizers machine) MachineFinalizer)); cbn.
  { intros [m2|e]; cbn; intros _; apply mismatchStops_quiet;
      repeat constructor; unfold notGetVM; cbn; tauto. }
  destruct (String.eqb_spec (ID machine) id) as [Hid|Hid].
  2:{ (* the store answered with another machine: nothing is claimed *)
      apply post_any. intros o tr _ [Hk _]%Forall_cons. by cbn in Hk. }
  eapply post_mono.
  { intros o tr H _. revert H. apply mismatchStops_cons. cbn. tauto. }
  apply post_bind_quiet; [apply MakeMachineDirs_calls|].
  intros [e|]; cbn; [by apply mismatchStops_quiet|].
  apply post_bind_quiet; [apply reconcileImage_calls|].
  intros ri. destruct (isErr (snd ri) || fst ri); cbn; [by apply mismatchStops_quiet|].
  apply post_bind.
  eapply post_mono;
    [|apply post_conj;
      [apply calls_only_post, assignApiSocket_calls|apply (assignApiSocket_ID id _ Hid)]].
  cbn. intros [[m2|e]|msg] tr [Hq HID]; cbn.
  - destruct (String.eqb_spec (ID m2) id) as [Hid2|Hid2].
    + eapply post_mono; [|apply (reconcileWithSocket_post id m2 Hid2)].
      intros o tr2. by apply mismatchStops_app.
    + apply post_any. intros o tr2 [Hk _]%Forall_app. by specialize (HID _ eq_refl Hk).
  - rewrite app_nil_r. by apply mismatchStops_quiet.
  - by apply mismatchStops_quiet.
Qed.

(** The worker re-queues the id after every failed pass. *)
Lemma processNextWorkItem_requeues (paths : Paths) (W : Type) (h : Handler W)
    (w w1 w2 : W) (id : string) (err : error) (tr : list Event) :
  h _ QueueGet w = ((id, false), w1) ->
  run h (reconcileMachine paths id) w1 = (Returned (Some err), w2, tr) ->
  run h (processNextWorkItem paths) w =
    let '(_, w3) := h _ (QueueAddRateLimited id) w2 in
    let '(_, w4) := h _ (QueueDone id) w3 in
    (Returned true, w4,
     Ev QueueGet (id, false) :: tr ++ [Ev (QueueAddRateLimited id) tt; Ev (QueueDone id) tt]).
Proof.
  intros Hget Hrun. unfold processNextWorkItem. cbn. rewrite Hget. cbn.
  rewrite run_finally, run_bind, Hrun. cbn.
  destruct (h _ (QueueAddRateLimited id) w2) as [[] w3]. cbn.
  destruct (h _ (QueueDone id) w3) as [[] w4]. cbn.
  by rewrite <- app_assoc.
Qed.

(** C2, as amended.  An identity mismatch fails the pass and is retried like
    any other error: for every reconcile of a machine (not marked deleted,
    the store answering with objects of the id asked for) in which the VMM
    manager reports a live VM whose [platform.uuid] differs from the machine
    id, that answer is the last call of [reconcileMachine], which fails with
    the identity-mismatch error; and the worker then re-queues the machine id
    with [AddRateLimited], before [Done]. *)
Theorem identity_mismatch_requeued (paths : Paths) (W : Type) (h : Handler W)
    (w w1 w2 : W) (id : string) (o : Outcome (option error)) (tr : list Event) :
  h _ QueueGet w = ((id, false), w1) ->
  run h (reconcileMachine paths id) w1 = (o, w2, tr) ->
  loadedLive tr ->
  Forall (storeKeepsId id) tr ->
  Exists (identityMismatch id) tr ->
  o = Returned (Some errIdentityMismatch)
  /\ (exists e, last tr = Some e /\ identityMismatch id e)
  /\ run h (processNextWorkItem paths) w =
     let '(_, w3) := h _ (QueueAddRateLimited id) w2 in
     let '(_, w4) := h _ (QueueDone id) w3 in
     (Returned true, w4,
      Ev QueueGet (id, false)
        :: tr ++ [Ev (QueueAddRateLimited id) tt; Ev (QueueDone id) tt]).
Proof.
  intros Hget Hrun Hlive Hkeep Hmis.
  destruct (post_run h _ _ (reconcileMachine_post paths id) _ _ _ _ Hrun Hlive Hkeep Hmis)
    as [-> Hlast].
  split; [done|]. split; [done|].
  by apply (processNextWorkItem_requeues paths W h w w1 w2 id errIdentityMismatch tr).
Qed.

Lemma identity_mismatch_requeued_witness :
  Returned (Some errIdentityMismatch) = Returned (Some errIdentityMismatch)
  /\ (exists e, last DemoMismatch.reconcileTrace = Some e /\ identityMismatch "m1" e)
  /\ run Demo.handler (processNextWorkItem Demo.paths) DemoMismatch.world =
     let '(_, w3) := Demo.handler _ (QueueAddRateLimited "m1") DemoMismatch.taken in
     let '(_, w4) := Demo.handler _ (QueueDone "m1") w3 in
     (Returned true, w4,
      Ev QueueGet ("m1", false)
        :: DemoMismatch.reconcileTrace
           ++ [Ev (QueueAddRateLimited "m1") tt; Ev (QueueDone "m1") tt]).
Proof.
  apply (identity_mismatch_requeued Demo.paths Demo.World Demo.handler
           DemoMismatch.world DemoMismatch.taken DemoMismatch.taken "m1").
  - reflexivity.
  - vm_compute. reflexivity.
  - reflexivity.
  - unfold DemoMismatch.reconcileTrace. repeat constructor.
  - apply Exists_exists.
    exists (Ev (VmmGetVM "/run/chp/m1.sock") (Ok (Some DemoInputs.foreignVM))).
    split.
    + unfold DemoMismatch.reconcileTrace.
      do 8 apply list_elem_of_further. apply list_elem_of_here.
    + cbn. discriminate.
Defined.

(** C2 as it is written fails: the worker does re-queue the id after an
    identity mismatch.  Machine ["m1"] finds the VM of ["m2"] on its socket;
    [processNextWorkItem] ends with [AddRateLimited("m1")]. *)
Lemma identity_mismatch_counterexample :
  vmUuid DemoInputs.foreignVM <> ID Demo.socketed
  /\ (run Demo.handler (reconcileMachine Demo.paths "m1") DemoMismatch.taken).1.1
     = Returned (Some errIdentityMismatch)
  /\ (run Demo.handler (processNextWorkItem Demo.paths) DemoMismatch.world).2
     = Ev QueueGet ("m1", false)
         :: DemoMismatch.reconcileTrace
            ++ [Ev (QueueAddRateLimited "m1") tt; Ev (QueueDone "m1") tt]
  /\ Demo.rateLimited
       (run Demo.handler (processNextWorkItem Demo.paths) DemoMismatch.world).1.2
     = ["m1"].
Proof.
  split; [cbn; discriminate|]. repeat split; vm_compute; reflexivity.
Qed.

(** A pass that succeeds is forgotten by the rate limiter, not re-queued. *)
Example processNextWorkItem_forget_ex :
  (run Demo.handler (processNextWorkItem Demo.paths)
       (Demo.with_queue ["m1"] (Demo.world_of Demo.fresh))).2
  = [Ev QueueGet ("m1", false);
     Ev (MachinesGet "m1") (Ok Demo.fresh);
     Ev (MachinesUpdate Demo.finalized) (Ok Demo.finalized);
     Ev (QueueForget "m1") tt; Ev (QueueDone "m1") tt].
Proof. vm_compute. reflexivity. Qed.

(** * Further properties of the code *)

(** ** Volume status lookup *)

(** X1. [getVolumeStatus] answers with the first status of that name, and
    with a fresh [Pending] status (empty handle) of that name when the list
    has none. *)
Theorem getVolumeStatus_spec (volumes : list VolumeStatus) (name : string) :
  vst_Name (getVolumeStatus volumes name) = name
  /\ ((exists pre post,
         volumes = pre ++ getVolumeStatus volumes name :: post
         /\ Forall (fun v => vst_Name v <> name) pre)
      \/ (Forall (fun v => vst_Name v <> name) volumes
          /\ getVolumeStatus volumes name
             = {| vst_Name := name; vst_Handle := ""; vst_State := VolumeStatePending |})).
Proof.
  induction volumes as [|v volumes [IHn IH]]; cbn.
  - split; [done|]. right. by split.
  - destruct (String.eqb_spec (vst_Name v) name) as [Heq|Hne].
    + split; [done|]. left. exists [], volumes. by split.
    + split; [done|]. destruct IH as [(pre & post & Hv & Hpre)|[Hall Hd]].
      * left. exists (v :: pre), post. split; [by rewrite Hv at 1|by constructor].
      * right. split; [by constructor|done].
Qed.

(** ** NIC identifiers: from the parts back to the id *)

Lemma HasPrefix_app (s p : string) : HasPrefix s p = true -> s = p +:+ drop (String.length p) s.
Proof.
  revert s. induction p as [|a p IH]; intros s H; [done|].
  destruct s as [|b s]; cbn in H; [done|].
  apply andb_true_iff in H as [Hab H]. apply Ascii.eqb_eq in Hab as ->.
  change (String b s = String b (p +:+ drop (String.length p) s)).
  f_equal. by apply IH.
Qed.

Lemma Index_Some_split (s sep : string) (m : nat) :
  Index s sep = Some m -> s = take m s +:+ sep +:+ drop (m + String.length sep) s.
Proof.
  revert m. induction s as [|c s IH]; intros m; cbn [Index].
  - destruct (HasPrefix "" sep) eqn:Hp; [|done]. intros [= <-]. by apply HasPrefix_app.
  - destruct (HasPrefix (String c s) sep) eqn:Hp.
    + intros [= <-]. by apply HasPrefix_app.
    + destruct (Index s sep) as [k|] eqn:Hk; [|done]. intros [= <-].
      change (String c s = String c (take k s +:+ sep +:+ drop (k + String.length sep) s)).
      f_equal. by apply IH.
Qed.

(** Joining what [Split] returns gives the string back. *)
Lemma genSplit_Join (fuel : nat) (s sep : string) :
  strings_Join (genSplit fuel s sep) sep = s.
Proof.
  revert s. induction fuel as [|fuel IH]; intros s; [done|]. cbn [genSplit].
  destruct (Index s sep) as [m|] eqn:Hi; [|done].
  pose proof (Index_Some_split _ _ _ Hi) as Hs.
  specialize (IH (drop (m + String.length sep) s)).
  destruct (genSplit fuel (drop (m + String.length sep) s) sep) as [|e rest] eqn:Hg.
  { destruct fuel; cbn in Hg; [done|]. by destruct (Index _ sep). }
  change (strings_Join (take m s :: e :: rest) sep)
    with (take m s +:+ sep +:+ strings_Join (e :: rest) sep).
  by rewrite IH.
Qed.

Lemma nic_id_parsers_agree (id : string) :
  is_Some (getMachineNameFromNicID id) <-> is_Some (getNicName id).
Proof.
  unfold getMachineNameFromNicID, getNicName.
  destruct (Split id "--") as [|a [|b [|c [|d rest]]]]; cbn;
    try (split; intros [? H]; discriminate H).
  destruct (String.eqb a "NIC"); cbn.
  - split; intros _; eexists; reflexivity.
  - split; intros [? H]; discriminate H.
Qed.

Lemma nic_id_of_parts (id machineID nicName : string) :
  getMachineNameFromNicID id = Some machineID ->
  getNicName id = Some nicName ->
  id = getNicID machineID nicName.
Proof.
  unfold getMachineNameFromNicID, getNicName.
  pose proof (genSplit_Join (String.length id) id "--") as Hj. fold (Split id "--") in Hj.
  destruct (Split id "--") as [|a [|b [|c [|d rest]]]]; cbn;
    try (intros H; discriminate H).
  destruct (String.eqb_spec a "NIC") as [->|Hne]; cbn; [|intros H; discriminate H].
  intros [= <-] [= <-]. by rewrite <- Hj.
Qed.

(** X2. Every id that parses is the encoding of what it parses to: whenever
    [getMachineNameFromNicID] or [getNicName] returns a value, both do, and
    the id is [getNicID] of the two values. *)
Theorem nic_id_parse_encode (id : string) :
  (is_Some (getMachineNameFromNicID id) <-> is_Some (getNicName id))
  /\ forall machineID nicName,
       getMachineNameFromNicID id = Some machineID ->
       getNicName id = Some nicName ->
       id = getNicID machineID nicName.
Proof.
  split; [apply nic_id_parsers_agree|]. intros m n. apply nic_id_of_parts.
Qed.

Lemma nic_id_parse_encode_witness :
  "NIC--m1--eth0" = getNicID "m1" "eth0".
Proof.
  apply (nic_id_parse_encode "NIC--m1--eth0"); reflexivity.
Defined.

(** ** The machine class registry *)

Section registry_facts.
Import MachineClasses.

Lemma classEntries_fst (classes : list MachineClass) :
  (classEntries classes).*1 = Name <$> classes.
Proof. unfold classEntries. rewrite <- list_fmap_compose. done. Qed.

Lemma classEntries_snd (classes : list MachineClass) :
  (classEntries classes).*2 = classes.
Proof.
  unfold classEntries. rewrite <- list_fmap_compose. induction classes; cbn; [done|by f_equal].
Qed.

(** The loop succeeds exactly on names that are new to the registry and
    differ from each other, and then adds every class under its name. *)
Lemma NewRegistryLoop_spec (classes : list MachineClass) (registry : gmap string MachineClass) :
  match NewRegistryLoop classes registry with
  | Ok registry' =>
      NoDup (Name <$> classes)
      /\ Forall (fun c => registry !! Name c = None) classes
      /\ registry' = list_to_map (classEntries classes) ∪ registry
  | Fail _ =>
      ~ (NoDup (Name <$> classes) /\ Forall (fun c => registry !! Name c = None) classes)
  end.
Proof.
  revert registry. induction classes as [|c classes IH]; intros registry; cbn.
  - split; [constructor|]. split; [constructor|]. by rewrite (left_id_L ∅ (∪)).
  - destruct (registry !! Name c) eqn:Hc.
    + intros [_ Hall]. inversion Hall; congruence.
    + specialize (IH (<[Name c:=c]> registry)).
      destruct (NewRegistryLoop classes (<[Name c:=c]> registry)) as [registry'|e].
      * destruct IH as (Hnd & Hall & ->).
        assert (Hnotin : Name c ∉ Name <$> classes).
        { intros (c' & Heq & Hin)%list_elem_of_fmap.
          rewrite Forall_forall in Hall. specialize (Hall _ Hin).
          rewrite <- Heq in Hall. by rewrite lookup_insert_eq in Hall. }
        split; [by constructor|]. split.
        { constructor; [done|]. eapply Forall_impl; [exact Hall|]. cbn. intros c' Hc'.
          destruct (decide (Name c = Name c')) as [Heq|Hne].
          - rewrite <- Heq in Hc'. by rewrite lookup_insert_eq in Hc'.
          - by rewrite lookup_insert_ne in Hc'. }
        rewrite <- insert_union_l. rewrite <- insert_union_r; [done|].
        apply not_elem_of_list_to_map_1. by rewrite classEntries_fst.
      * intros [Hnd Hall]. apply IH. inversion Hnd as [|? ? Hnotin Hnd']; subst.
        inversion Hall as [|? ? _ Hall']; subst. split; [done|].
        rewrite Forall_forall in Hall' |- *. intros c' Hin.
        rewrite lookup_insert_ne; [by apply Hall'|].
        intros Heq. apply Hnotin. apply list_elem_of_fmap. by exists c'.
Qed.

Lemma NewRegistry_Ok_inv (classes : list MachineClass) (registry : gmap string MachineClass) :
  NewRegistry classes = Ok registry ->
  NoDup (Name <$> classes) /\ registry = list_to_map (classEntries classes).
Proof.
  unfold NewRegistry. intros H. pose proof (NewRegistryLoop_spec classes ∅) as Hs.
  rewrite H in Hs. destruct Hs as (Hnd & _ & ->). split; [done|].
  by rewrite (right_id_L ∅ (∪)).
Qed.

(** X3. [NewRegistry] returns a registry exactly when no two of the classes
    have the same name; otherwise it returns an error and no registry. *)
Theorem NewRegistry_ok_iff (classes : list MachineClass) :
  (exists registry, NewRegistry classes = Ok registry) <-> NoDup (Name <$> classes).
Proof.
  unfold NewRegistry. pose proof (NewRegistryLoop_spec classes ∅) as Hs.
  destruct (NewRegistryLoop classes ∅) as [registry|e].
  - split; [by intros _; apply Hs|]. intros _. by exists registry.
  - split; [by intros [? [=]]|]. intros Hnd. exfalso. apply Hs. split; [done|].
    apply Forall_forall. intros c _. apply lookup_empty.
Qed.

(** X4. After [NewRegistry] succeeded, [Get] finds under a name exactly the
    class of that name that was registered, and nothing under other names. *)
Theorem NewRegistry_Get (classes : list MachineClass) (registry : gmap string MachineClass)
    (name : string) (class : MachineClass) :
  NewRegistry classes = Ok registry ->
  Get registry name = Some class <-> class ∈ classes /\ Name class = name.
Proof.
  intros (Hnd & ->)%NewRegistry_Ok_inv. unfold Get.
  rewrite <- elem_of_list_to_map by by rewrite classEntries_fst.
  unfold classEntries. rewrite list_elem_of_fmap. split.
  - intros (c & [= -> ->] & Hin). done.
  - intros [Hin <-]. by exists class.
Qed.

Lemma NewRegistry_Get_witness :
  Get DemoClasses.registry "large" = Some DemoClasses.large
  <-> DemoClasses.large ∈ [DemoClasses.small; DemoClasses.large]
      /\ Name DemoClasses.large = "large".
Proof.
  apply (NewRegistry_Get [DemoClasses.small; DemoClasses.large]). reflexivity.
Defined.

(** X5. After [NewRegistry] succeeded, [List] returns the registered
    classes, each once, in some order. *)
Theorem NewRegistry_List (classes : list MachineClass) (registry : gmap string MachineClass) :
  NewRegistry classes = Ok registry ->
  List registry ≡ₚ classes.
Proof.
  intros (Hnd & ->)%NewRegistry_Ok_inv. unfold List.
  rewrite map_to_list_to_map by by rewrite classEntries_fst.
  by rewrite classEntries_snd.
Qed.

Lemma NewRegistry_List_witness :
  List DemoClasses.registry ≡ₚ [DemoClasses.small; DemoClasses.large].
Proof.
  apply (NewRegistry_List [DemoClasses.small; DemoClasses.large]). reflexivity.
Defined.

End registry_facts.

(** ** Store events and the work queue *)

Section run_proj.
Context {W : Type} (h : Handler W).

Lemma post_run_proj {A : Type} (p : Prog A) (Q : Outcome A -> list Event -> Prop) (w : W) :
  post p Q -> Q (run h p w).1.1 (run h p w).2.
Proof.
  intros Hp. destruct (run h p w) as [[o w'] tr] eqn:Hrun. cbn.
  exact (post_run h p Q Hp w o w' tr Hrun).
Qed.

End run_proj.

(** X6. A NIC event enqueues at most one machine id, and only one that the
    NIC's id encodes: either the id does not parse and nothing is enqueued,
    or the id is [getNicID machineID nicName] and [machineID] is enqueued. *)
Theorem nicEventHandler_enqueues (W : Type) (h : Handler W) (w : W) (nic : NetworkInterface) :
  (getMachineNameFromNicID (nic_ID nic) = None /\ (run h (nicEventHandler nic) w).2 = [])
  \/ exists machineID nicName,
       nic_ID nic = getNicID machineID nicName
       /\ (run h (nicEventHandler nic) w).2 = [Ev (QueueAdd machineID) tt].
Proof.
  unfold nicEventHandler.
  destruct (getMachineNameFromNicID (nic_ID nic)) as [m|] eqn:Hm; [|by left].
  right. destruct (proj1 (nic_id_parsers_agree _) (mk_is_Some _ _ Hm)) as [n Hn].
  exists m, n. split; [by apply nic_id_of_parts|].
  cbn. by destruct (h _ (QueueAdd m) w) as [[] w1].
Qed.

(** ** The pass: a machine that is gone, directories, image *)

(** X7. A machine id that the store no longer holds is dropped: the pass
    makes the one lookup and returns nil when the store answers not-found;
    any other lookup error ends the pass with that error, wrapped. *)
Theorem reconcileMachine_absent (paths : Paths) (W : Type) (h : Handler W) (w w1 : W)
    (id : string) (err : error) :
  h _ (MachinesGet id) w = (Fail err, w1) ->
  run h (reconcileMachine paths id) w =
    (Returned (if error_is err store_ErrNotFound then None
               else Some (Errorf "failed to fetch machine from store" (Some err))),
     w1, [Ev (MachinesGet id) (Fail err)]).
Proof.
  intros Hget. unfold reconcileMachine. cbn. rewrite Hget. cbn.
  by destruct (error_is err store_ErrNotFound).
Qed.

Lemma reconcileMachine_absent_witness :
  run Demo.handler (reconcileMachine Demo.paths "m2") (Demo.world_of Demo.fresh) =
    (Returned None, Demo.world_of Demo.fresh,
     [Ev (MachinesGet "m2") (Fail (ErrSentinel store_ErrNotFound))]).
Proof.
  exact (reconcileMachine_absent Demo.paths Demo.World Demo.handler
           (Demo.world_of Demo.fresh) (Demo.world_of Demo.fresh) "m2"
           (ErrSentinel store_ErrNotFound) eq_refl).
Defined.

(** X8. [MakeMachineDirs] makes the five directories of the machine in a
    fixed order and stops at the first that fails: it returns nil after five
    successful calls, and otherwise the error of the failing call, wrapped,
    with no call after it. *)
Theorem MakeMachineDirs_trace (paths : Paths) (W : Type) (h : Handler W) (w : W)
    (machineUID : string) :
  ((run h (MakeMachineDirs paths machineUID) w).1.1 = Returned None
   /\ (run h (MakeMachineDirs paths machineUID) w).2
      = mkdirDone <$> machineDirs paths machineUID)
  \/ exists (k : nat) (path : string) e msg,
       machineDirs paths machineUID !! k = Some path
       /\ (run h (MakeMachineDirs paths machineUID) w).1.1
          = Returned (Some (Errorf msg (Some e)))
       /\ (run h (MakeMachineDirs paths machineUID) w).2
          = (mkdirDone <$> firstn k (machineDirs paths machineUID))
            ++ [Ev (OsMkdirAll path) (Some e)].
Proof.
  unfold MakeMachineDirs, machineDirs, mkdirDone. cbn.
  destruct (h _ (OsMkdirAll (MachineDir paths machineUID)) w) as [[e|] w1]; cbn.
  { right. by exists 0%nat, (MachineDir paths machineUID), e, "error creating machine directory". }
  destruct (h _ (OsMkdirAll (MachineRootFSDir paths machineUID)) w1) as [[e|] w2]; cbn.
  { right. by exists 1%nat, (MachineRootFSDir paths machineUID), e,
                "error creating machine rootfs directory". }
  destruct (h _ (OsMkdirAll (MachineVolumesDir paths machineUID)) w2) as [[e|] w3]; cbn.
  { right. by exists 2%nat, (MachineVolumesDir paths machineUID), e,
                "error creating machine disks directory". }
  destruct (h _ (OsMkdirAll (MachineIgnitionsDir paths machineUID)) w3) as [[e|] w4]; cbn.
  { right. by exists 3%nat, (MachineIgnitionsDir paths machineUID), e,
                "error creating machine ignitions directory". }
  destruct (h _ (OsMkdirAll (MachineNetworkInterfacesDir paths machineUID)) w4) as [[e|] w5];
    cbn.
  { right. by exists 4%nat, (MachineNetworkInterfacesDir paths machineUID), e,
                "error creating machine network interfaces directory". }
  by left.
Qed.

Lemma reconcileImage_post (paths : Paths) (machine : Machine) :
  post (reconcileImage paths machine)
    (fun o tr =>
       (Exists isRawCreate tr -> Exists (rootfsMissing paths machine) tr)
       /\ exists requeue err,
            o = Returned (requeue, err)
            /\ (requeue = true -> err = None /\ Exists (imagePulling machine) tr)).
Proof.
  unfold reconcileImage. destruct (String.eqb _ ""); cbn.
  { split; [by intros ?%Exists_nil|]. by exists false, None. }
  intros [img|err]; cbn.
  - intros [ok|err]; [destruct ok|]; cbn.
    + split; [|by exists false, None].
      intros H. repeat (apply Exists_cons in H as [H|H]; [done|]). by apply Exists_nil in H.
    + intros [e|]; cbn.
      all: split; [intros _; apply Exists_cons_tl, Exists_cons_hd; by cbn|by eexists false, _].
    + split; [|by eexists false, _].
      intros H. repeat (apply Exists_cons in H as [H|H]; [done|]). by apply Exists_nil in H.
  - destruct (error_is err oci_ErrImagePulling) eqn:Hp; cbn.
    + split.
      { intros H. repeat (apply Exists_cons in H as [H|H]; [done|]). by apply Exists_nil in H. }
      exists true, None. split; [done|]. intros _. split; [done|].
      apply Exists_cons_hd. cbn. split; [done|]. by exists err.
    + split; [|by eexists false, _].
      intros H. repeat (apply Exists_cons in H as [H|H]; [done|]). by apply Exists_nil in H.
Qed.

(** X9. [reconcileImage] never overwrites a root file system: it calls
    [raw.Create] only in a run in which the file check answered that the
    machine's rootfs file does not exist.  It always returns, and it asks for
    a requeue only together with a nil error, after the image cache answered
    that the image is still being pulled. *)
Theorem reconcileImage_rootfs_once (paths : Paths) (W : Type) (h : Handler W) (w : W)
    (machine : Machine) :
  (Exists isRawCreate (run h (reconcileImage paths machine) w).2 ->
   Exists (rootfsMissing paths machine) (run h (reconcileImage paths machine) w).2)
  /\ exists requeue err,
       (run h (reconcileImage paths machine) w).1.1 = Returned (requeue, err)
       /\ (requeue = true ->
           err = None
           /\ Exists (imagePulling machine) (run h (reconcileImage paths machine) w).2).
Proof. apply (post_run_proj h), reconcileImage_post. Qed.

(** X10. While the image of a machine is being pulled the pass stops after
    the directories: with the machine loaded (not marked deleted, finalizer
    present) and its directories made, an image cache that answers
    image-pulling ends the pass with nil, and any other error of the cache
    ends it with that error, wrapped; in both cases the cache lookup is the
    last call, so no socket is assigned and the VMM is not called. *)
Theorem image_pulling_ends_pass (paths : Paths) (W : Type) (h : Handler W)
    (w w1 w2 w3 : W) (id image : string) (machine : Machine) (err : error)
    (tr_dirs : list Event) :
  h _ (MachinesGet id) w = (Ok machine, w1) ->
  DeletedAt machine = None ->
  MachineFinalizer ∈ Finalizers machine ->
  run h (MakeMachineDirs paths (ID machine)) w1 = (Returned None, w2, tr_dirs) ->
  Image (Spec machine) = Some image ->
  image <> "" ->
  h _ (ImageCacheGet image) w2 = (Fail err, w3) ->
  run h (reconcileMachine paths id) w =
    (Returned (if error_is err oci_ErrImagePulling then None
               else Some (Errorf "failed to get image from cache" (Some err))),
     w3,
     Ev (MachinesGet id) (Ok machine) :: tr_dirs ++ [Ev (ImageCacheGet image) (Fail err)]).
Proof.
  intros Hget Hdel Hfin Hdirs Himg Hne Hcache.
  unfold reconcileMachine. cbn. rewrite Hget, Hdel. unfold slices_Contains.
  rewrite bool_decide_eq_true_2 by done. cbn.
  rewrite run_bind, Hdirs. rewrite run_bind. unfold reconcileImage. rewrite Himg. cbn.
  destruct (String.eqb_spec image "") as [->|_]; [done|]. cbn. rewrite Hcache. cbn.
  destruct (error_is err oci_ErrImagePulling); cbn; by rewrite ?app_nil_r.
Qed.

Lemma image_pulling_ends_pass_witness :
  run DemoImage.pullingHandler (reconcileMachine Demo.paths "m1")
      (Demo.world_of DemoImage.withImage) =
    (Returned None, Demo.world_of DemoImage.withImage,
     Ev (MachinesGet "m1") (Ok DemoImage.withImage)
       :: (mkdirDone <$> machineDirs Demo.paths "m1")
       ++ [Ev (ImageCacheGet "registry/os:1") (Fail (ErrSentinel oci_ErrImagePulling))]).
Proof.
  apply (image_pulling_ends_pass Demo.paths Demo.World DemoImage.pullingHandler
           (Demo.world_of DemoImage.withImage) (Demo.world_of DemoImage.withImage)
           (Demo.world_of DemoImage.withImage) (Demo.world_of DemoImage.withImage)
           "m1" "registry/os:1" DemoImage.withImage (ErrSentinel oci_ErrImagePulling)).
  - reflexivity.
  - reflexivity.
  - apply list_elem_of_here.
  - reflexivity.
  - reflexivity.
  - discriminate.
  - reflexivity.
Defined.

(** ** Disks of a live VM *)

Lemma attachDetachDisksLoop_post (machine : Machine) (vm : VmConfig)
    (vols : list VolumeSpec) (sts : list VolumeStatus) :
  (forall vol, vol ∈ vols -> vol ∈ Volumes (Spec machine)) ->
  Forall (diskStatusSettled machine vm) sts ->
  post (attachDetachDisksLoop (default "" (ApiSocketPath (Spec machine))) machine
          (currentDiskIds vm) vols sts)
    (fun o tr =>
       Forall (fun e => diskCallJustified machine vm e /\ diskStatusWritten machine vm e) tr
       /\ exists r, o = Returned r
                    /\ forall sts', r = Ok sts' -> Forall (diskStatusSettled machine vm) sts').
Proof.
  revert sts. induction vols as [|vol vols IH]; intros sts Hin Hsts; cbn.
  { split; [constructor|]. eexists. split; [reflexivity|]. by intros ? [= <-]. }
  assert (Hvol : vol ∈ Volumes (Spec machine)) by (apply Hin, list_elem_of_here).
  assert (Hin' : forall v, v ∈ vols -> v ∈ Volumes (Spec machine)).
  { intros v Hv. by apply Hin, list_elem_of_further. }
  fold (diskStatus machine vol).
  destruct (vs_DeletedAt vol) as [t|] eqn:Hdel.
  - case_bool_decide as Hlive; cbn.
    + assert (Hrm : forall r : option error,
                diskCallJustified machine vm
                  (Ev (VmmRemoveDevice (default "" (ApiSocketPath (Spec machine)))
                         (vst_Handle (diskStatus machine vol))) r)).
      { intros r. cbn. split; [done|]. split; [done|]. exists vol. by rewrite Hdel. }
      intros [e|]; cbn.
      * split; [|by eexists]. constructor; [split; [apply Hrm|done]|constructor].
      * eapply post_mono; [|apply (IH (sts ++ [diskStatus machine vol]) Hin')].
        { cbn. intros o tr [Htr Hr]. split; [|done].
          constructor; [split; [apply Hrm|done]|done]. }
        apply Forall_app. split; [done|]. constructor; [|constructor].
        exists vol. split; [done|]. rewrite Hdel. by rewrite bool_decide_eq_true_2.
    + apply (IH _ Hin'). apply Forall_app. split; [done|]. constructor; [|constructor].
      exists vol. split; [done|]. rewrite Hdel. by rewrite bool_decide_eq_false_2.
  - case_bool_decide as Hlive; cbn.
    + apply (IH _ Hin'). apply Forall_app. split; [done|]. constructor; [|constructor].
      exists vol. split; [done|]. rewrite Hdel. split; [done|]. by left.
    + case_bool_decide as Hprep; cbn.
      * assert (Hadd : forall r : option error,
                  diskCallJustified machine vm
                    (Ev (VmmAddDisk (default "" (ApiSocketPath (Spec machine)))
                           (diskStatus machine vol)) r)).
        { intros r. cbn. split; [done|]. split; [done|]. split; [done|]. by exists vol. }
        intros [e|]; cbn.
        { split; [|by eexists]. constructor; [split; [apply Hadd|done]|constructor]. }
        eapply post_mono; [|apply (IH (sts ++ [set_vst_State VolumeStateAttached
                                                 (diskStatus machine vol)]) Hin')].
        { cbn. intros o tr [Htr Hr]. split; [|done].
          constructor; [split; [apply Hadd|done]|done]. }
        apply Forall_app. split; [done|]. constructor; [|constructor].
        exists vol. split; [done|]. rewrite Hdel. split; [done|]. by right.
      * by apply (IH _ Hin').
Qed.

Lemma attachDetachDisks_post (machine : Machine) (vm : VmConfig) :
  post (attachDetachDisks machine vm)
    (fun o tr =>
       Forall (fun e => diskCallJustified machine vm e /\ diskStatusWritten machine vm e) tr
       /\ exists m' err, o = Returned (m', err)
                         /\ ID m' = ID machine /\ Spec m' = Spec machine).
Proof.
  unfold attachDetachDisks. apply post_bind.
  eapply post_mono; [|apply (attachDetachDisksLoop_post machine vm); [done|constructor]].
  cbn. intros o tr (Htr & r & -> & Hr).
  destruct r as [sts|e]; cbn.
  - intros u. assert (Hw : diskStatusWritten machine vm
                             (Ev (MachinesUpdate (set_VolumeStatus sts machine)) u)).
    { cbn. exists sts. split; [done|]. by apply Hr. }
    destruct u; cbn.
    all: split; [apply Forall_app; split; [done|]; constructor; [by split|constructor]|].
    all: by eexists _, _.
  - rewrite app_nil_r. split; [done|]. by eexists _, _.
Qed.

(** X11. [attachDetachDisks] changes the disks of the VM only as the
    volumes call for it: it adds a disk only for a volume of the machine that
    is not marked deleted, whose status is [Prepared] and whose handle is not
    a disk of the VM; it removes a device only for a volume that is marked
    deleted and whose handle is a disk of the VM; its only other call is the
    update of the machine store. *)
Theorem attachDetachDisks_calls_justified (W : Type) (h : Handler W) (w : W)
    (machine : Machine) (vm : VmConfig) :
  Forall (diskCallJustified machine vm) (run h (attachDetachDisks machine vm) w).2.
Proof.
  apply (post_run_proj h (attachDetachDisks machine vm)
           (fun _ tr => Forall (diskCallJustified machine vm) tr)).
  eapply post_mono; [|apply attachDetachDisks_post]. cbn.
  intros _ tr [Htr _]. eapply Forall_impl; [exact Htr|]. cbn. tauto.
Qed.

(** X12. What [attachDetachDisks] writes to the machine store is the
    machine with only its volume status list replaced, and every status in
    that list belongs to a volume of the machine: [Attached] for a volume not
    marked deleted (whose disk is in the VM or was [Prepared]), unchanged for
    a volume marked deleted whose disk was still in the VM, and [Prepared]
    for a volume marked deleted whose disk was not. *)
Theorem attachDetachDisks_status_written (W : Type) (h : Handler W) (w : W)
    (machine : Machine) (vm : VmConfig) :
  Forall (diskStatusWritten machine vm) (run h (attachDetachDisks machine vm) w).2.
Proof.
  apply (post_run_proj h (attachDetachDisks machine vm)
           (fun _ tr => Forall (diskStatusWritten machine vm) tr)).
  eapply post_mono; [|apply attachDetachDisks_post]. cbn.
  intros _ tr [Htr _]. eapply Forall_impl; [exact Htr|]. cbn. tauto.
Qed.

(** ** Volumes: what is deleted, what is applied, what is kept *)

Lemma reconcileVolumesLoop_plan (machine : Machine) (vols : list VolumeSpec)
    (sts : list VolumeStatus) (specs : list VolumeSpec) :
  (forall vol, vol ∈ vols -> vol ∈ Volumes (Spec machine)) ->
  post (reconcileVolumesLoop machine vols sts specs)
    (fun o tr =>
       Forall (fun e => volumeCallJustified machine e /\ volumesWritten machine e) tr
       /\ exists r, o = Returned r
                    /\ forall sts' specs', r = Ok (sts', specs') ->
                         specs' = specs ++ List.filter (volumeKept machine) vols
                         /\ length sts'
                            = (length sts + length (List.filter (volumeKept machine) vols))%nat).
Proof.
  revert sts specs. induction vols as [|vol vols IH]; intros sts specs Hin; cbn.
  { split; [constructor|]. eexists. split; [reflexivity|].
    intros ? ? [= <- <-]. by rewrite app_nil_r, Nat.add_0_r. }
  assert (Hvol : vol ∈ Volumes (Spec machine)) by (apply Hin, list_elem_of_here).
  assert (Hin' : forall v, v ∈ vols -> v ∈ Volumes (Spec machine)).
  { intros v Hv. by apply Hin, list_elem_of_further. }
  assert (Hfind : forall r, volumeCallJustified machine (Ev (FindPluginBySpec vol) r)
                            /\ volumesWritten machine (Ev (FindPluginBySpec vol) r)).
  { intros r. by split. }
  intros [plugin|err]; cbn.
  2:{ split; [by repeat constructor|]. eexists. split; [reflexivity|]. by intros ? ? [=]. }
  assert (Happly :
    volumeKept machine vol = true ->
    forall a : result VolumeStatus,
      post
        match a with
        | Ok appliedVolume =>
            reconcileVolumesLoop machine vols
              (sts ++ [if bool_decide
                            (vst_State (getVolumeStatus (VolumeStatuses (Status machine))
                                          (vs_Name vol)) = VolumeStateAttached)
                       then set_vst_State
                              (vst_State (getVolumeStatus (VolumeStatuses (Status machine))
                                            (vs_Name vol))) appliedVolume
                       else appliedVolume])
              (specs ++ [vol])
        | Fail err => Ret (Fail (Errorf "failed to apply volume" (Some err)))
        end
        (fun o tr =>
           Forall (fun e => volumeCallJustified machine e /\ volumesWritten machine e)
             (Ev (FindPluginBySpec vol) (Ok plugin)
                :: Ev (PluginApply plugin vol (ID machine)) a :: tr)
           /\ exists r, o = Returned r
                /\ forall sts' specs', r = Ok (sts', specs') ->
                     specs' = specs ++ (if volumeKept machine vol
                                        then vol :: List.filter (volumeKept machine) vols
                                        else List.filter (volumeKept machine) vols)
                     /\ length sts'
                        = (length sts
                           + length (if volumeKept machine vol
                                     then vol :: List.filter (volumeKept machine) vols
                                     else List.filter (volumeKept machine) vols))%nat)).
  { intros Hkept a.
    assert (Hj : volumeCallJustified machine (Ev (PluginApply plugin vol (ID machine)) a)
                 /\ volumesWritten machine (Ev (PluginApply plugin vol (ID machine)) a)).
    { split; [|done]. cbn. split; [done|]. split; [done|].
      unfold volumeKept in Hkept. destruct (vs_DeletedAt vol); [|by left].
      right. by apply bool_decide_eq_true_1 in Hkept. }
    rewrite Hkept. destruct a as [applied|err]; cbn.
    - eapply post_mono; [|apply (IH _ _ Hin')]. cbn.
      intros o tr (Htr & r & -> & Hr). split; [by repeat (constructor; [done|])|].
      exists r. split; [done|]. intros sts' specs' ->.
      destruct (Hr _ _ eq_refl) as [-> ->]. split; [by rewrite <- app_assoc|].
      rewrite length_app. cbn. lia.
    - split; [by repeat (constructor; [done|])|]. eexists. split; [reflexivity|].
      by intros ? ? [=]. }
  destruct (vs_DeletedAt vol) as [t|] eqn:Hdel.
  - case_bool_decide as Hatt; cbn.
    + intros a. apply Happly. unfold volumeKept, currentVolumeState. rewrite Hdel.
      by rewrite bool_decide_eq_true_2.
    + assert (Hkept : volumeKept machine vol = false).
      { unfold volumeKept, currentVolumeState. rewrite Hdel.
        by rewrite bool_decide_eq_false_2. }
      assert (Hj : forall r,
                volumeCallJustified machine
                  (Ev (PluginDelete plugin (vc_Handle (vs_Connection vol)) (ID machine)) r)
                /\ volumesWritten machine
                     (Ev (PluginDelete plugin (vc_Handle (vs_Connection vol)) (ID machine)) r)).
      { intros r. split; [|done]. cbn. split; [done|]. exists vol. by rewrite Hdel. }
      rewrite Hkept. intros [e|]; cbn.
      * split; [by repeat (constructor; [done|])|]. eexists. split; [reflexivity|].
        by intros ? ? [=].
      * eapply post_mono; [|apply (IH _ _ Hin')]. cbn.
        intros o tr (Htr & r & -> & Hr). split; [by repeat (constructor; [done|])|].
        by exists r.
  - cbn. intros a. apply Happly. unfold volumeKept. by rewrite Hdel.
Qed.

Lemma reconcileVolumes_plan (machine : Machine) :
  post (reconcileVolumes machine)
    (fun _ tr =>
       Forall (fun e => volumeCallJustified machine e /\ volumesWritten machine e) tr).
Proof.
  unfold reconcileVolumes. apply post_bind.
  eapply post_mono; [|by apply (reconcileVolumesLoop_plan machine)].
  cbn. intros o tr (Htr & r & -> & Hr).
  destruct r as [[sts specs]|e]; cbn; [|by rewrite app_nil_r].
  destruct (Hr _ _ eq_refl) as [-> Hlen]. cbn in Hlen.
  intros u. assert (Forall (fun e => volumeCallJustified machine e /\ volumesWritten machine e)
                      (tr ++ [Ev (MachinesUpdate
                                    (set_VolumeStatus sts
                                       (set_Volumes
                                          (List.filter (volumeKept machine)
                                             (Volumes (Spec machine))) machine))) u])).
  { apply Forall_app. split; [done|]. constructor; [|constructor]. by split. }
  by destruct u.
Qed.

(** X13. [reconcileVolumes] deletes a volume through its plugin only if the
    volume is marked deleted and is not currently [Attached], and applies a
    volume only if it is not marked deleted or is still [Attached]; every
    plugin call is for a volume of the machine and carries the machine's id. *)
Theorem reconcileVolumes_calls_justified (W : Type) (h : Handler W) (w : W)
    (machine : Machine) :
  Forall (volumeCallJustified machine) (run h (reconcileVolumes machine) w).2.
Proof.
  apply (post_run_proj h (reconcileVolumes machine)
           (fun _ tr => Forall (volumeCallJustified machine) tr)).
  eapply post_mono; [|apply reconcileVolumes_plan]. cbn.
  intros _ tr Htr. eapply Forall_impl; [exact Htr|]. cbn. tauto.
Qed.

(** X14. The volume list [reconcileVolumes] writes to the machine store is
    the machine's volume list without the volumes that are marked deleted and
    not [Attached], in the same order, and the status list written has one
    entry for each volume kept. *)
Theorem reconcileVolumes_keeps (W : Type) (h : Handler W) (w : W) (machine : Machine) :
  Forall (volumesWritten machine) (run h (reconcileVolumes machine) w).2.
Proof.
  apply (post_run_proj h (reconcileVolumes machine)
           (fun _ tr => Forall (volumesWritten machine) tr)).
  eapply post_mono; [|apply reconcileVolumes_plan]. cbn.
  intros _ tr Htr. eapply Forall_impl; [exact Htr|]. cbn. tauto.
Qed.

(** ** NIC objects and NIC devices *)

Lemma reconcileMachineNics_post (machine : Machine) (nis : list MachineNetworkInterfaceSpec)
    (nics : gmap string NetworkInterface) (prev : option string) :
  (forall ni, ni ∈ nis -> ni ∈ NetworkInterfaces (Spec machine)) ->
  post (reconcileMachineNics machine nis nics)
    (fun _ tr => Forall (nicStoreCallJustified machine) tr /\ createAfterAbsent prev tr).
Proof.
  revert nics prev. induction nis as [|ni nis IH]; intros nics prev Hin; cbn; [done|].
  assert (Hni : ni ∈ NetworkInterfaces (Spec machine)) by (apply Hin, list_elem_of_here).
  assert (Hin' : forall n, n ∈ nis -> n ∈ NetworkInterfaces (Spec machine)).
  { intros n Hn. by apply Hin, list_elem_of_further. }
  assert (Hget : forall r, nicStoreCallJustified machine
                             (Ev (NicsGet (getNicID (ID machine) (mni_Name ni))) r)).
  { intros r. by exists ni. }
  assert (Hfound : forall (nic : NetworkInterface) (prev' : option string),
    post
      match mni_DeletedAt ni with
      | Some _ =>
          Call (NicsDelete (getNicID (ID machine) (mni_Name ni)))
            (fun err : option error =>
               match err with
               | Some e =>
                   Ret (Fail (Errorf ("failed to delete network interface "
                                        +:+ getNicID (ID machine) (mni_Name ni)) (Some e)))
               | None => reconcileMachineNics machine nis (<[mni_Name ni:=nic]> nics)
               end)
      | None => reconcileMachineNics machine nis (<[mni_Name ni:=nic]> nics)
      end
      (fun _ tr => Forall (nicStoreCallJustified machine) tr /\ createAfterAbsent prev' tr)).
  { intros nic prev'. destruct (mni_DeletedAt ni) as [t|] eqn:Hdel; [|by apply IH].
    cbn. intros [e|]; cbn.
    - split; [|done]. constructor; [|constructor]. exists ni. by rewrite Hdel.
    - eapply post_mono; [|apply (IH _ None Hin')]. cbn. intros _ tr [Htr Hord].
      split; [|done]. constructor; [|done]. exists ni. by rewrite Hdel. }
  intros [nic|err]; cbn.
  - eapply post_mono; [|apply (Hfound nic None)]. cbn. intros _ tr [Htr Hord].
    split; [by constructor|]. by split.
  - destruct (error_is err store_ErrNotFound) eqn:Herr; cbn.
    2:{ split; [by repeat constructor|]. by split. }
    destruct (mni_DeletedAt ni) as [t|] eqn:Hdel.
    + eapply post_mono; [|apply (IH nics (Some (getNicID (ID machine) (mni_Name ni))) Hin')].
      cbn. intros _ tr [Htr Hord]. split; [by constructor|]. split; [done|].
      done.
    + cbn. intros c.
      assert (Hc : nicStoreCallJustified machine
                (Ev (NicsCreate
                       {| nic_ID := getNicID (ID machine) (mni_Name ni);
                          nic_DeletedAt := None; nic_Finalizers := [];
                          nic_Spec := {| nis_Name := mni_Name ni;
                                         nis_NetworkId := mni_NetworkId ni;
                                         nis_Ips := mni_Ips ni;
                                         nis_Attributes := mni_Attributes ni |};
                          nic_Status := {| nist_State := NetworkInterfaceStatePending;
                                           nist_Handle := "" |} |}) c)).
      { by exists ni. }
      destruct c as [nic|e]; cbn.
      * eapply post_mono; [|apply (IH _ None Hin')]. cbn. intros _ tr [Htr Hord].
        split; [by repeat (constructor; [done|])|].
        cbn. rewrite ?Herr. split; [done|]. split; [|done]. by intros ? [= <-].
      * split; [by repeat (constructor; [done|])|].
        cbn. rewrite ?Herr. split; [done|]. split; [|done]. by intros ? [= <-].
Qed.

(** X15. The NIC loop of [reconcileMachine] touches the NIC store only for
    the NICs of the machine: it looks up [getNicID machine.ID nic.Name];
    it creates an object only for a NIC that is not marked deleted, directly
    after the store answered not-found for that id, with that id, the NIC's
    spec, no finalizer and no deletion mark; and it deletes an object only
    for a NIC that is marked deleted. *)
Theorem reconcileMachineNics_calls_justified (W : Type) (h : Handler W) (w : W)
    (machine : Machine) :
  Forall (nicStoreCallJustified machine)
    (run h (reconcileMachineNics machine (NetworkInterfaces (Spec machine)) ∅) w).2
  /\ createAfterAbsent None
       (run h (reconcileMachineNics machine (NetworkInterfaces (Spec machine)) ∅) w).2.
Proof.
  apply (post_run_proj h
           (reconcileMachineNics machine (NetworkInterfaces (Spec machine)) ∅)
           (fun _ tr => Forall (nicStoreCallJustified machine) tr
                        /\ createAfterAbsent None tr)).
  by apply reconcileMachineNics_post.
Qed.

Lemma addFinalizerToNIC_post (n : NetworkInterface) :
  post (addFinalizerToNIC (Some n))
    (fun o tr =>
       Forall (ev_sat isNicsUpdate) tr
       /\ exists n' err,
            o = Returned (Some n', err)
            /\ (n' = n \/ n' = set_nic_Finalizers (nic_Finalizers n ++ [MachineFinalizer]) n)
            /\ MachineFinalizer ∈ nic_Finalizers n').
Proof.
  unfold addFinalizerToNIC, slices_Contains. case_bool_decide as Hfin; cbn.
  - split; [constructor|]. exists n, None. split; [done|]. split; [by left|done].
  - intros r. assert (MachineFinalizer ∈ nic_Finalizers n ++ [MachineFinalizer]).
    { apply elem_of_app. right. apply list_elem_of_here. }
    destruct r; cbn; (split; [by repeat constructor|]); eexists _, _;
      (split; [reflexivity|]); (split; [by right|done]).
Qed.

Lemma removeFinalizerFromNIC_keeps (n : NetworkInterface) :
  post (removeFinalizerFromNIC (Some n))
    (fun o tr =>
       Forall (ev_sat isNicsUpdate) tr
       /\ exists n' err, o = Returned (Some n', err) /\ nic_DeletedAt n' = nic_DeletedAt n).
Proof.
  unfold removeFinalizerFromNIC. destruct (negb _); cbn.
  - split; [constructor|]. by exists n, None.
  - intros r. destruct r; cbn; (split; [by repeat constructor|]); by eexists _, _.
Qed.

Lemma sameDesired_insert (desired current : gmap string NetworkInterface)
    (nicName : string) (n n' : NetworkInterface) :
  sameDesired desired current ->
  current !! nicName = Some n ->
  is_Some (nic_DeletedAt n) ->
  nic_DeletedAt n' = nic_DeletedAt n ->
  sameDesired desired (<[nicName := n']> current).
Proof.
  intros Hsame Hcur Hdel Heq name. specialize (Hsame name).
  destruct (decide (nicName = name)) as [->|Hne].
  - rewrite lookup_insert_eq. destruct (desired !! name) as [n0|]; [|congruence].
    destruct Hsame as (n1 & Hn1 & Hd & Hsame). rewrite Hcur in Hn1. injection Hn1 as <-.
    exists n'. split; [done|]. split; [congruence|].
    intros Hnone. rewrite Hnone in Hd. rewrite Hd in Hdel. by destruct Hdel.
  - by rewrite lookup_insert_ne.
Qed.

Lemma reconcileNicsDevices_post (apiSocket : string)
    (desired : gmap string NetworkInterface) (allDevices devices : list DeviceConfig)
    (current : gmap string NetworkInterface) (currentNICs : gset string) :
  sameDesired desired current ->
  (forall device, device ∈ devices -> device ∈ allDevices) ->
  post (reconcileNicsDevices apiSocket devices current currentNICs)
    (fun o tr =>
       Forall (nicDeviceCallJustified desired allDevices) tr
       /\ exists current' res,
            o = Returned (current', res)
            /\ sameDesired desired current'
            /\ forall currentNICs', res = Ok currentNICs' ->
                 (forall nicName, nicName ∈ currentNICs -> nicName ∈ currentNICs')
                 /\ forall device nicName n0,
                      device ∈ devices ->
                      getNicName (default "" (dev_Id device)) = Some nicName ->
                      desired !! nicName = Some n0 ->
                      nic_DeletedAt n0 = None ->
                      nicName ∈ currentNICs').
Proof.
  revert current currentNICs.
  induction devices as [|device devices IH]; intros current currentNICs Hsame Hin; cbn.
  { split; [constructor|]. exists current, (Ok currentNICs). split; [done|]. split; [done|].
    intros ? [= <-]. split; [done|]. intros ? ? ? Hd. by apply not_elem_of_nil in Hd. }
  assert (Hdev : device ∈ allDevices) by (apply Hin, list_elem_of_here).
  assert (Hin' : forall d, d ∈ devices -> d ∈ allDevices).
  { intros d Hd. by apply Hin, list_elem_of_further. }
  (* a device that adds nothing to [currentNICs] and leaves the map alone *)
  assert (Hskip :
    (forall nicName n0, getNicName (default "" (dev_Id device)) = Some nicName ->
                        desired !! nicName = Some n0 -> nic_DeletedAt n0 = None -> False) ->
    post (reconcileNicsDevices apiSocket devices current currentNICs)
      (fun o tr =>
         Forall (nicDeviceCallJustified desired allDevices) tr
         /\ exists current' res,
              o = Returned (current', res)
              /\ sameDesired desired current'
              /\ forall currentNICs', res = Ok currentNICs' ->
                   (forall nicName, nicName ∈ currentNICs -> nicName ∈ currentNICs')
                   /\ forall device0 nicName n0,
                        device0 ∈ device :: devices ->
                        getNicName (default "" (dev_Id device0)) = Some nicName ->
                        desired !! nicName = Some n0 ->
                        nic_DeletedAt n0 = None ->
                        nicName ∈ currentNICs')).
  { intros Hno. eapply post_mono; [|apply (IH current currentNICs Hsame Hin')]. cbn.
    intros o tr (Htr & current' & res & -> & Hsame' & Hres). split; [done|].
    exists current', res. split; [done|]. split; [done|]. intros acc' ->.
    destruct (Hres _ eq_refl) as [Hsub Hall]. split; [done|].
    intros d name n0 [->|Hd]%elem_of_cons Hname Hdes Hnone; [|by eapply Hall].
    exfalso. by eapply Hno. }
  destruct (getNicName (default "" (dev_Id device))) as [nicName|] eqn:Hname.
  2:{ apply Hskip. intros ? ? [=]. }
  pose proof (Hsame nicName) as Hn.
  destruct (current !! nicName) as [nic|] eqn:Hcur.
  2:{ apply Hskip. intros ? n0 [= <-] Hdes _. rewrite Hdes in Hn.
      destruct Hn as (? & [=] & _). }
  destruct (desired !! nicName) as [n0|] eqn:Hdes; [|done].
  destruct Hn as (n1 & [= <-] & Hd & Hsame0).
  destruct (nic_DeletedAt nic) as [t|] eqn:Hdel.
  - assert (Hrm : forall r : option error,
              nicDeviceCallJustified desired allDevices
                (Ev (VmmRemoveDevice apiSocket (default "" (dev_Id device))) r)).
    { intros r. exists device, nicName, n0. rewrite <- Hd. by repeat split. }
    cbn. intros [e|]; cbn.
    { split; [by repeat constructor|].
      exists current, (Fail (Errorf "failed to remove nic" (Some e))).
      split; [done|]. split; [done|]. by intros ? [=]. }
    apply post_bind. eapply post_mono; [|apply removeFinalizerFromNIC_keeps]. cbn.
    intros o tr (Htr & n' & err & -> & Hkeep). cbn.
    assert (Hsame' : sameDesired desired (<[nicName:=n']> current)).
    { eapply sameDesired_insert; [done|exact Hcur|by rewrite Hdel|done]. }
    assert (Hupd : Forall (nicDeviceCallJustified desired allDevices) tr).
    { eapply Forall_impl; [exact Htr|]. intros [R c x]. by destruct c. }
    destruct err as [e|]; cbn.
    { rewrite app_nil_r. split; [by constructor|]. eexists _, _.
      split; [done|]. split; [done|]. by intros ? [=]. }
    eapply post_mono; [|apply (IH _ currentNICs Hsame' Hin')]. cbn.
    intros o tr2 (Htr2 & current' & res & -> & Hsame2 & Hres).
    split; [constructor; [done|]; by apply Forall_app|].
    exists current', res. split; [done|]. split; [done|]. intros acc' ->.
    destruct (Hres _ eq_refl) as [Hsub Hall]. split; [done|].
    intros d name n2 [->|Hin2]%elem_of_cons Hname2 Hdes2 Hnone; [|by eapply Hall].
    rewrite Hname in Hname2. injection Hname2 as <-. rewrite Hdes in Hdes2.
    injection Hdes2 as <-. rewrite Hnone in Hd. by rewrite Hd in Hdel.
  - eapply post_mono; [|apply (IH current (currentNICs ∪ {[nicName]}) Hsame Hin')]. cbn.
    intros o tr (Htr & current' & res & -> & Hsame' & Hres). split; [done|].
    exists current', res. split; [done|]. split; [done|]. intros acc' ->.
    destruct (Hres _ eq_refl) as [Hsub Hall]. split.
    { intros name Hname'. apply Hsub. apply elem_of_union. by left. }
    intros d name n2 [->|Hin2]%elem_of_cons Hname2 Hdes2 Hnone; [|by eapply Hall].
    rewrite Hname in Hname2. injection Hname2 as <-.
    apply Hsub. apply elem_of_union. right. by apply elem_of_singleton.
Qed.

Lemma reconcileNicsDesired_post (apiSocket : string)
    (desired : gmap string NetworkInterface) (allDevices : list DeviceConfig)
    (entries : list (string * NetworkInterface))
    (current : gmap string NetworkInterface) (currentNICs : gset string) :
  Forall (fun kv => exists n0, desired !! kv.1 = Some n0
                               /\ (nic_DeletedAt kv.2 = None -> kv.2 = n0)) entries ->
  (forall device nicName n0,
     device ∈ allDevices ->
     getNicName (default "" (dev_Id device)) = Some nicName ->
     desired !! nicName = Some n0 ->
     nic_DeletedAt n0 = None ->
     nicName ∈ currentNICs) ->
  post (reconcileNicsDesired apiSocket entries current currentNICs)
    (fun _ tr => Forall (nicDeviceCallJustified desired allDevices) tr).
Proof.
  intros Hentries Hacc. revert current.
  induction entries as [|[nicName nic] entries IH]; intros current; cbn; [done|].
  apply Forall_cons in Hentries as [(n0 & Hdes & Heq) Hentries]. cbn in Hdes, Heq.
  destruct (nic_DeletedAt nic) as [t|] eqn:Hdel; [by apply IH|].
  specialize (Heq eq_refl). subst n0.
  case_bool_decide as Hcur; cbn; [by apply IH|].
  apply post_bind. eapply post_mono; [|apply addFinalizerToNIC_post]. cbn.
  intros o tr (Htr & n' & err & -> & Hn' & Hfin). cbn.
  assert (Hupd : Forall (nicDeviceCallJustified desired allDevices) tr).
  { eapply Forall_impl; [exact Htr|]. intros [R c x]. by destruct c. }
  destruct err as [e|]; cbn; [by rewrite app_nil_r|].
  assert (Hadd : forall r : option error,
            nicDeviceCallJustified desired allDevices (Ev (VmmAddNIC apiSocket n') r)).
  { intros r. cbn. split; [done|]. split; [by destruct Hn' as [->| ->]|].
    exists nicName, nic. split; [done|]. split; [done|].
    intros device Hdev Hname. apply Hcur. by eapply Hacc. }
  intros [e|]; cbn.
  - apply Forall_app. split; [done|]. constructor; [apply Hadd|constructor].
  - eapply post_mono; [|apply IH; done]. cbn. intros _ tr2 Htr2.
    apply Forall_app. split; [done|]. constructor; [apply Hadd|done].
Qed.

(** X16. [reconcileNics] changes the devices of the VM only as the desired
    NICs call for it.  It hot-plugs a NIC only if the NIC is a desired NIC
    that is not marked deleted, no device of the VM decodes to its name, and
    the NIC handed to the VMM carries the ["machine"] finalizer (the finalizer
    is stored before the device is added); it removes a device only if the
    device id decodes to the name of a desired NIC that is marked deleted.
    Its only other calls are updates of the NIC store. *)
Theorem reconcileNics_calls_justified (W : Type) (h : Handler W) (w : W)
    (machine : Machine) (desiredNics : gmap string NetworkInterface)
    (currentDevices : list DeviceConfig) :
  Forall (nicDeviceCallJustified desiredNics currentDevices)
    (run h (reconcileNics machine desiredNics currentDevices) w).2.
Proof.
  apply (post_run_proj h (reconcileNics machine desiredNics currentDevices)
           (fun _ tr => Forall (nicDeviceCallJustified desiredNics currentDevices) tr)).
  unfold reconcileNics. apply post_bind.
  eapply post_mono;
    [|apply (reconcileNicsDevices_post _ desiredNics currentDevices currentDevices
               desiredNics ∅)].
  - cbn. intros o tr (Htr & current' & res & -> & Hsame & Hres). cbn.
    destruct res as [currentNICs|e]; cbn; [|by rewrite app_nil_r].
    destruct (Hres _ eq_refl) as [_ Hall].
    eapply post_mono; [|apply (reconcileNicsDesired_post _ desiredNics currentDevices)].
    + cbn. intros _ tr2 Htr2. by apply Forall_app.
    + apply Forall_forall. intros [name nic] Hkv%elem_of_map_to_list. cbn.
      specialize (Hsame name). destruct (desiredNics !! name) as [n0|]; [|congruence].
      destruct Hsame as (n1 & Hn1 & Hd & Hsame). rewrite Hkv in Hn1. injection Hn1 as <-.
      exists n0. split; [done|]. intros Hnone. apply Hsame. by rewrite <- Hd.
    + done.
  - intros name. destruct (desiredNics !! name) as [n0|] eqn:Hn; [|done]. by exists n0.
  - done.
Qed.

(** ** The worker *)

(** X17. What [processNextWorkItem] does with the queue.  On shutdown it
    returns false and calls nothing else.  Otherwise it reconciles the id it
    took, then calls [AddRateLimited] if the pass returned an error and
    [Forget] if it returned nil, and in every case, also when the pass
    panics, its last call is [Done] for that id; it returns true unless the
    pass panicked. *)
Theorem processNextWorkItem_done (paths : Paths) (W : Type) (h : Handler W) (w : W) :
  let '(g, w1) := h _ QueueGet w in
  if g.2 then run h (processNextWorkItem paths) w = (Returned false, w1, [Ev QueueGet g])
  else
    let '(o, _, tr) := run h (reconcileMachine paths g.1) w1 in
    (run h (processNextWorkItem paths) w).1.1
      = match o with
        | Returned _ => Returned true
        | Panicked msg => Panicked msg
        end
    /\ (run h (processNextWorkItem paths) w).2
       = Ev QueueGet g
           :: tr
           ++ match o with
              | Returned (Some _) => [Ev (QueueAddRateLimited g.1) tt]
              | Returned None => [Ev (QueueForget g.1) tt]
              | Panicked _ => []
              end
           ++ [Ev (QueueDone g.1) tt].
Proof.
  unfold processNextWorkItem. cbn.
  destruct (h _ QueueGet w) as [[id shutdown] w1]. cbn.
  destruct shutdown; cbn; [done|].
  rewrite run_finally, run_bind.
  destruct (run h (reconcileMachine paths id) w1) as [[o w2] tr].
  destruct o as [[e|]|msg]; cbn.
  - destruct (h _ (QueueAddRateLimited id) w2) as [[] w3]. cbn.
    destruct (h _ (QueueDone id) w3) as [[] w4]. cbn.
    split; [done|]. by rewrite <- app_assoc.
  - destruct (h _ (QueueForget id) w2) as [[] w3]. cbn.
    destruct (h _ (QueueDone id) w3) as [[] w4]. cbn.
    split; [done|]. by rewrite <- app_assoc.
  - destruct (h _ (QueueDone id) w2) as [[] w3]. by cbn.
Qed.

(** ** Teardown touches only what belongs to the machine *)

Lemma removeFinalizerFromNIC_updates (nic : option NetworkInterface) :
  post (removeFinalizerFromNIC nic) (fun _ tr => Forall (ev_sat isNicsUpdate) tr).
Proof.
  unfold removeFinalizerFromNIC. destruct nic as [n|]; cbn; [|done].
  destruct (negb _); cbn; [done|]. intros r. destruct r; cbn; by repeat constructor.
Qed.

Lemma deleteMachineNics_teardown (paths : Paths) (machine : Machine)
    (nis : list MachineNetworkInterfaceSpec) (allNicsDeleted : bool) :
  (forall ni, ni ∈ nis -> ni ∈ NetworkInterfaces (Spec machine)) ->
  post (deleteMachineNics machine nis allNicsDeleted)
    (fun _ tr => Forall (teardownCall paths machine) tr).
Proof.
  revert allNicsDeleted. induction nis as [|ni nis IH]; intros allNicsDeleted Hin; cbn;
    [done|].
  assert (Hni : ni ∈ NetworkInterfaces (Spec machine)) by (apply Hin, list_elem_of_here).
  assert (Hin' : forall n, n ∈ nis -> n ∈ NetworkInterfaces (Spec machine)).
  { intros n Hn. by apply Hin, list_elem_of_further. }
  intros r.
  assert (Hget : teardownCall paths machine
                   (Ev (NicsGet (getNicID (ID machine) (mni_Name ni))) r)).
  { by exists ni. }
  assert (Hdelete : forall x : option error,
            teardownCall paths machine
              (Ev (NicsDelete (getNicID (ID machine) (mni_Name ni))) x)).
  { intros x. by exists ni. }
  destruct (negb _).
  - apply post_bind. eapply post_mono; [|apply removeFinalizerFromNIC_updates]. cbn.
    intros o tr Htr.
    assert (Hupd : Forall (teardownCall paths machine) tr).
    { eapply Forall_impl; [exact Htr|]. intros [R c x]. by destruct c. }
    destruct o as [fr|msg]; [|by constructor].
    destruct (snd fr); cbn.
    { rewrite app_nil_r. by constructor. }
    intros x. destruct (store_IgnoreErrNotFound x); cbn.
    + constructor; [done|]. apply Forall_app. split; [done|].
      constructor; [apply Hdelete|constructor].
    + eapply post_mono; [|apply (IH false Hin')]. cbn. intros _ tr2 Htr2.
      constructor; [done|]. apply Forall_app. split; [done|].
      constructor; [apply Hdelete|done].
  - eapply post_mono; [|apply (IH allNicsDeleted Hin')]. cbn. intros _ tr2 Htr2.
    by constructor.
Qed.

Lemma deleteMachineAfterPowerOff_teardown (paths : Paths) (machine : Machine) :
  post (deleteMachineAfterPowerOff paths machine)
    (fun _ tr => Forall (teardownCall paths machine) tr).
Proof.
  unfold deleteMachineAfterPowerOff. cbn. intros err.
  assert (Hd : teardownCall paths machine (Ev (VmmDelete (ID machine)) err)) by done.
  destruct (negb _); cbn; [by repeat constructor|].
  apply post_bind. eapply post_mono; [|by apply (deleteMachineNics_teardown paths)]. cbn.
  intros o tr Htr. destruct o as [[allNicsDeleted|e]|msg]; cbn;
    try (rewrite ?app_nil_r; by constructor).
  destruct (negb allNicsDeleted); cbn; [rewrite app_nil_r; by constructor|].
  intros rm.
  assert (Hrm : teardownCall paths machine (Ev (OsRemoveAll (MachineDir paths (ID machine))) rm))
    by done.
  destruct rm as [e|]; cbn.
  { constructor; [done|]. apply Forall_app. split; [done|]. by repeat constructor. }
  intros u.
  assert (Hu : teardownCall paths machine
                 (Ev (MachinesUpdate
                        (set_Finalizers (DeleteSliceElement (Finalizers machine) MachineFinalizer)
                           machine)) u)) by done.
  assert (Forall (teardownCall paths machine)
            (Ev (VmmDelete (ID machine)) err
               :: tr ++ [Ev (OsRemoveAll (MachineDir paths (ID machine))) None;
                         Ev (MachinesUpdate
                               (set_Finalizers
                                  (DeleteSliceElement (Finalizers machine) MachineFinalizer)
                                  machine)) u])).
  { constructor; [done|]. apply Forall_app. split; [done|]. by repeat (constructor; [done|]). }
  by destruct (store_IgnoreErrNotFound _).
Qed.

Lemma deleteMachine_teardown (paths : Paths) (machine : Machine) :
  post (deleteMachine paths machine) (fun _ tr => Forall (teardownCall paths machine) tr).
Proof.
  unfold deleteMachine, getMachineState. cbn. intros r.
  assert (Hg : teardownCall paths machine
                 (Ev (VmmGetVM (default "" (ApiSocketPath (Spec machine)))) r)) by done.
  assert (Hafter :
    post (deleteMachineAfterPowerOff paths machine)
      (fun _ tr =>
         Forall (teardownCall paths machine)
           (Ev (VmmGetVM (default "" (ApiSocketPath (Spec machine)))) r :: tr))).
  { eapply post_mono; [|apply deleteMachineAfterPowerOff_teardown]. cbn.
    intros _ tr Htr. by constructor. }
  destruct r as [[vm|]|err]; cbn.
  - case_bool_decide as Hrun; cbn.
    + intros p.
      assert (Hp : teardownCall paths machine (Ev (VmmPowerOff (ID machine)) p)) by done.
      destruct (negb _); cbn; [by repeat (constructor; [done|])|].
      eapply post_mono; [|apply deleteMachineAfterPowerOff_teardown]. cbn.
      intros _ tr Htr. by repeat (constructor; [done|]).
    + done.
  - by repeat constructor.
  - destruct (_ || _); cbn; [done|by repeat constructor].
Qed.

(** X18. A teardown touches only what belongs to the machine: every call of
    [deleteMachine] is a [GetVM] on the machine's socket, a [PowerOff] or
    [Delete] of this machine in the VMM manager, a lookup or delete in the
    NIC store under the id of a NIC of this machine, an update of the NIC
    store, the removal of the machine's directory, or the store update of
    this machine without its first ["machine"] finalizer.  It never creates a
    directory, a NIC, a socket or a VM, and calls no plugin. *)
Theorem deleteMachine_calls (paths : Paths) (W : Type) (h : Handler W) (w : W)
    (machine : Machine) :
  Forall (teardownCall paths machine) (run h (deleteMachine paths machine) w).2.
Proof.
  apply (post_run_proj h (deleteMachine paths machine)
           (fun _ tr => Forall (teardownCall paths machine) tr)).
  apply deleteMachine_teardown.
Qed.

(** ** The calls of the loops, for any property of calls *)

Lemma calls_only_mono {A : Type} (P Q : forall R, Cmd R -> Prop) (p : Prog A) :
  (forall R c, P R c -> Q R c) -> calls_only P p -> calls_only Q p.
Proof.
  intros HPQ. induction p as [a|msg|R c k IH]; cbn; [done|done|].
  intros [Hc Hk]. split; [by apply HPQ|]. intros r. by apply IH.
Qed.

Ltac loop_tac :=
  repeat match goal with
         | |- True => exact I
         | |- calls_only _ (Ret _) => exact I
         | |- calls_only _ (Panic _) => exact I
         | |- calls_only _ (bind _ _) => apply calls_only_bind; [|intros ?]
         | |- calls_only _ (match ?x with _ => _ end) => destruct x
         | |- calls_only _ (if ?b then _ else _) => destruct b
         | |- _ /\ _ => split
         | |- forall _, _ => intros ?
         | |- isLoopCall _ _ => exact I
         | H : forall _, _ |- calls_only _ _ => solve [apply H]
         | H : calls_only _ ?p |- calls_only _ ?p => exact H
         | |- _ => progress cbn
         end.

Section loops.
Variable P : forall R, Cmd R -> Prop.
Hypothesis HP : forall R c, isLoopCall R c -> P R c.

Lemma addFinalizerToNIC_loop (nic : option NetworkInterface) :
  calls_only P (addFinalizerToNIC nic).
Proof using HP.
  apply (calls_only_mono isLoopCall); [exact HP|]. unfold addFinalizerToNIC. loop_tac.
Qed.

Lemma removeFinalizerFromNIC_loop (nic : option NetworkInterface) :
  calls_only P (removeFinalizerFromNIC nic).
Proof using HP.
  apply (calls_only_mono isLoopCall); [exact HP|]. unfold removeFinalizerFromNIC. loop_tac.
Qed.

Lemma reconcileMachineNics_loop (machine : Machine) (nis : list MachineNetworkInterfaceSpec)
    (nics : gmap string NetworkInterface) :
  calls_only P (reconcileMachineNics machine nis nics).
Proof using HP.
  apply (calls_only_mono isLoopCall); [exact HP|].
  revert nics. induction nis as [|ni nis IH]; intros nics; loop_tac.
Qed.

Lemma reconcileVolumesLoop_loop (machine : Machine) (vols : list VolumeSpec)
    (sts : list VolumeStatus) (specs : list VolumeSpec) :
  calls_only P (reconcileVolumesLoop machine vols sts specs).
Proof using HP.
  apply (calls_only_mono isLoopCall); [exact HP|].
  revert sts specs. induction vols as [|vol vols IH]; intros sts specs; loop_tac.
Qed.

Lemma addFinalizerToNICs_loop (entries : list (string * NetworkInterface)) :
  calls_only P (addFinalizerToNICs entries).
Proof using HP.
  induction entries as [|[name nic] entries IH]; cbn; [done|].
  apply calls_only_bind; [apply addFinalizerToNIC_loop|]. intros fr.
  by destruct (snd fr).
Qed.

Lemma deleteMachineNics_loop (machine : Machine) (nis : list MachineNetworkInterfaceSpec)
    (allNicsDeleted : bool) :
  calls_only P (deleteMachineNics machine nis allNicsDeleted).
Proof using HP.
  revert allNicsDeleted. induction nis as [|ni nis IH]; intros allNicsDeleted; cbn; [done|].
  split; [by apply HP|]. intros r. destruct (negb _); [|apply IH].
  apply calls_only_bind; [apply removeFinalizerFromNIC_loop|]. intros fr.
  destruct (snd fr); cbn; [done|]. split; [by apply HP|]. intros x.
  destruct (store_IgnoreErrNotFound x); [done|apply IH].
Qed.

Lemma reconcileNicsDevices_loop (apiSocket : string) (devs : list DeviceConfig)
    (desired : gmap string NetworkInterface) (current : gset string) :
  calls_only P (reconcileNicsDevices apiSocket devs desired current).
Proof using HP.
  revert desired current. induction devs as [|dev devs IH]; intros desired current; cbn;
    [done|].
  destruct (getNicName _); [|apply IH]. destruct (desired !! _) as [nic|]; [|apply IH].
  destruct (nic_DeletedAt nic); [|apply IH].
  cbn. split; [by apply HP|]. intros [e|]; [done|].
  apply calls_only_bind; [apply removeFinalizerFromNIC_loop|].
  intros fr. destruct (snd fr); [done|apply IH].
Qed.

Lemma reconcileNicsDesired_loop (apiSocket : string)
    (entries : list (string * NetworkInterface))
    (desired : gmap string NetworkInterface) (current : gset string) :
  calls_only P (reconcileNicsDesired apiSocket entries desired current).
Proof using HP.
  revert desired. induction entries as [|[name nic] entries IH]; intros desired; cbn;
    [done|].
  destruct (nic_DeletedAt nic); [apply IH|]. destruct (negb _); [|apply IH].
  apply calls_only_bind; [apply addFinalizerToNIC_loop|].
  intros fr. destruct (snd fr); [done|]. cbn.
  split; [by apply HP|]. intros [e|]; [done|apply IH].
Qed.

Lemma reconcileNics_loop (machine : Machine) (desired : gmap string NetworkInterface)
    (devs : list DeviceConfig) :
  calls_only P (reconcileNics machine desired devs).
Proof using HP.
  unfold reconcileNics. apply calls_only_bind; [apply reconcileNicsDevices_loop|].
  intros r. destruct (snd r); [apply reconcileNicsDesired_loop|done].
Qed.

Lemma attachDetachDisksLoop_loop (apiSocket : string) (machine : Machine)
    (current : gset string) (vols : list VolumeSpec) (sts : list VolumeStatus) :
  calls_only P (attachDetachDisksLoop apiSocket machine current vols sts).
Proof using HP.
  apply (calls_only_mono isLoopCall); [exact HP|].
  revert sts. induction vols as [|vol vols IH]; intros sts; loop_tac.
Qed.

End loops.

(** ** When a VM is created *)

Lemma nicsReady_spec (nics : gmap string NetworkInterface) :
  nicsReady nics = true
  <-> map_Forall (fun _ n => nist_State (nic_Status n) = NetworkInterfaceStateAttached) nics.
Proof.
  unfold nicsReady. rewrite map_Forall_to_list.
  induction (map_to_list nics) as [|[k n] l IH]; cbn.
  - split; [constructor|done].
  - rewrite andb_true_iff, IH, Forall_cons, bool_decide_eq_true. done.
Qed.

Lemma loop_notCreateVM (R : Type) (c : Cmd R) : isLoopCall R c -> notCreateVM R c.
Proof. unfold notCreateVM. destruct c; cbn; tauto. Qed.

Ltac quiet_tac :=
  repeat match goal with
         | |- True => exact I
         | |- calls_only _ (Ret _) => exact I
         | |- calls_only _ (Panic _) => exact I
         | |- calls_only _ (reconcileMachineNics _ _ _) =>
             apply reconcileMachineNics_loop, loop_notCreateVM
         | |- calls_only _ (reconcileVolumesLoop _ _ _ _) =>
             apply reconcileVolumesLoop_loop, loop_notCreateVM
         | |- calls_only _ (deleteMachineNics _ _ _) =>
             apply deleteMachineNics_loop, loop_notCreateVM
         | |- calls_only _ (addFinalizerToNICs _) =>
             apply addFinalizerToNICs_loop, loop_notCreateVM
         | |- calls_only _ (reconcileNics _ _ _) =>
             apply reconcileNics_loop, loop_notCreateVM
         | |- calls_only _ (attachDetachDisksLoop _ _ _ _ _) =>
             apply attachDetachDisksLoop_loop, loop_notCreateVM
         | |- calls_only _ (bind _ _) => apply calls_only_bind; [|intros ?]
         | |- calls_only _ (match ?x with _ => _ end) => destruct x
         | |- calls_only _ (if ?b then _ else _) => destruct b
         | |- _ /\ _ => split
         | |- forall _, _ => intros ?
         | |- notCreateVM _ _ => unfold notCreateVM; cbn; tauto
         | |- _ => progress cbn
         end.

Lemma createdAfterNotCreated_quiet (tr : list Event) (b : bool) :
  Forall (ev_sat notCreateVM) tr -> createdAfterNotCreated b tr.
Proof.
  revert b. induction tr as [|e tr IH]; intros b; cbn; [done|].
  intros [He Htr]%Forall_cons. split; [|by apply IH]. intros Hc. by destruct e.
Qed.

Lemma createdAfterNotCreated_app (tr1 tr2 : list Event) (b : bool) :
  createdAfterNotCreated b tr1 ->
  (forall b', createdAfterNotCreated b' tr2) ->
  createdAfterNotCreated b (tr1 ++ tr2).
Proof.
  revert b. induction tr1 as [|e tr1 IH]; intros b; cbn; [by auto|].
  intros [He Htr] H2. split; [done|]. by apply IH.
Qed.

Lemma guarded_quiet {A : Type} (p : Prog A) : calls_only notCreateVM p -> guarded p.
Proof.
  intros Hp. eapply post_mono; [|apply (calls_only_post _ _ Hp)]. cbn.
  intros _ tr Htr. split.
  - eapply Forall_impl; [exact Htr|]. intros [R c x] Hc. unfold notCreateVM in Hc.
    destruct c; cbn in *; tauto.
  - intros b. by apply createdAfterNotCreated_quiet.
Qed.

Lemma guarded_bind {A B : Type} (p : Prog A) (f : A -> Prog B) :
  guarded p -> (forall a, guarded (f a)) -> guarded (bind p f).
Proof.
  intros Hp Hf. apply post_bind. eapply post_mono; [|exact Hp]. cbn.
  intros o tr [Hr Hc]. destruct o as [a|msg]; [|done].
  eapply post_mono; [|apply Hf]. cbn. intros _ tr2 [Hr2 Hc2]. split.
  - by apply Forall_app.
  - intros b. by apply createdAfterNotCreated_app.
Qed.

Lemma guarded_call {A R : Type} (c : Cmd R) (k : R -> Prog A) :
  notCreateVM R c -> (forall r, guarded (k r)) -> guarded (Call c k).
Proof.
  intros Hc Hk. cbn. intros r. eapply post_mono; [|apply Hk]. cbn.
  intros _ tr [Hr Ha]. split.
  - constructor; [|done]. unfold notCreateVM in Hc. destruct c; cbn in *; tauto.
  - intros b. cbn. split; [|done]. intros Hcr. by destruct Hc.
Qed.

Lemma reconcileNoVM_guarded (machine : Machine) (nics : gmap string NetworkInterface)
    (err : error) :
  post (reconcileNoVM machine nics err)
    (fun _ tr => Forall (ev_sat createVMReady) tr
                 /\ createdAfterNotCreated (error_is err vmm_ErrVmNotCreated) tr).
Proof.
  unfold reconcileNoVM. cbn.
  destruct (error_is err vmm_ErrVmNotCreated) eqn:Herr; cbn; [|done].
  destruct (nicsReady nics) eqn:Hready; cbn; [|done].
  apply nicsReady_spec in Hready. intros r.
  assert (Hrest : guarded
            match r with
            | Some e => Ret (Some (Errorf "failed to create VM" (Some e)))
            | None =>
                err0 <- addFinalizerToNICs (map_to_list nics) ;;
                match err0 with
                | Some e => Ret (Some e)
                | None => call (QueueAdd (ID machine)) ;; Ret None
                end
            end).
  { apply guarded_quiet. quiet_tac. }
  eapply post_mono; [|exact Hrest]. cbn. intros _ tr [Hr Hc].
  split; [by constructor|]. split; [done|apply Hc].
Qed.

Lemma reconcileWithSocket_guarded (machine : Machine) : guarded (reconcileWithSocket machine).
Proof.
  unfold reconcileWithSocket. apply guarded_call; [by intros []|].
  intros [e|]; [by apply guarded_quiet|].
  apply guarded_bind; [apply guarded_quiet; quiet_tac|]. intros [nics|e]; [|by apply guarded_quiet].
  apply guarded_bind; [apply guarded_quiet; unfold reconcileVolumes; quiet_tac|].
  intros rv. destruct (snd rv); [by apply guarded_quiet|].
  cbn. intros v.
  assert (Hlive : forall vm,
            guarded (reconcileLiveVM (default "" (ApiSocketPath (Spec machine)))
                       (fst rv) nics vm)).
  { intros vm. apply guarded_quiet.
    unfold reconcileLiveVM, reconcilePower, attachDetachDisks. quiet_tac. }
  destruct v as [[vm|]|err]; cbn.
  - eapply post_mono; [|apply Hlive]. cbn. intros _ tr [Hr Hc].
    split; [by constructor|]. intros b. split; [by intros []|apply Hc].
  - split; [by repeat constructor|]. intros b. split; [by intros []|done].
  - eapply post_mono; [|apply reconcileNoVM_guarded]. cbn. intros _ tr [Hr Hc].
    split; [by constructor|]. intros b. split; [by intros []|done].
Qed.

Lemma reconcileMachine_guarded (paths : Paths) (id : string) :
  guarded (reconcileMachine paths id).
Proof.
  unfold reconcileMachine. apply guarded_call; [by intros []|].
  intros [machine|err]; [|by apply guarded_quiet; quiet_tac].
  destruct (DeletedAt machine).
  { apply guarded_quiet.
    unfold deleteMachine, getMachineState, deleteMachineAfterPowerOff. quiet_tac. }
  destruct (negb _); [by apply guarded_quiet; quiet_tac|].
  apply guarded_bind; [apply guarded_quiet; unfold MakeMachineDirs; quiet_tac|].
  intros [e|]; [by apply guarded_quiet|].
  apply guarded_bind; [apply guarded_quiet; unfold reconcileImage; quiet_tac|].
  intros ri. destruct (_ || _); [by apply guarded_quiet|].
  apply guarded_bind; [apply guarded_quiet; unfold assignApiSocket; quiet_tac|].
  intros [m|e]; [apply reconcileWithSocket_guarded|by apply guarded_quiet].
Qed.

(** X19. A pass creates a VM only when it is due: in every run of
    [reconcileMachine], each [CreateVM] call comes directly after a [GetVM]
    that was answered with the vm-not-created error, and every NIC object
    handed to it is [Attached]. *)
Theorem createVM_only_when_due (paths : Paths) (W : Type) (h : Handler W) (w : W)
    (id : string) :
  Forall (ev_sat createVMReady) (run h (reconcileMachine paths id) w).2
  /\ createdAfterNotCreated false (run h (reconcileMachine paths id) w).2.
Proof.
  apply (post_run_proj h (reconcileMachine paths id)
           (fun _ tr => Forall (ev_sat createVMReady) tr
                        /\ createdAfterNotCreated false tr)).
  eapply post_mono; [|apply reconcileMachine_guarded]. cbn.
  intros _ tr [Hr Hc]. by split.
Qed.

(** ** A pass over a live VM *)

Lemma loop_powerCallJustified (machine : Machine) (vm : VmInfo) (R : Type) (c : Cmd R) :
  isLoopCall R c -> powerCallJustified machine vm R c.
Proof. destruct c; cbn; tauto. Qed.

Lemma reconcileLiveVM_power (apiSocket : string) (machine : Machine)
    (nics : gmap string NetworkInterface) (vm : VmInfo) :
  calls_only (powerCallJustified machine vm) (reconcileLiveVM apiSocket machine nics vm).
Proof.
  unfold reconcileLiveVM. destruct (negb _); [done|].
  apply calls_only_bind.
  { unfold reconcilePower. destruct (Power (Spec machine)) eqn:Hp;
      case_bool_decide as Hrun; cbn; done. }
  intros [e|]; [done|].
  apply calls_only_bind; [apply reconcileNics_loop, loop_powerCallJustified|].
  intros rn. destruct (snd rn); [done|].
  apply calls_only_bind.
  { unfold attachDetachDisks.
    apply calls_only_bind; [apply attachDetachDisksLoop_loop, loop_powerCallJustified|].
    intros [sts|e]; cbn; [|done]. split; [done|]. by intros []. }
  intros ad. destruct (snd ad); [done|]. cbn. split; [done|]. by intros [].
Qed.

(** X20. A pass over a live VM changes the power of the VM only towards the
    spec: it calls [PowerOn] only if the spec says on and the VM is not
    running, and [PowerOff] only if the spec says off and the VM is running;
    and it never creates or deletes a VM. *)
Theorem reconcileLiveVM_power_justified (W : Type) (h : Handler W) (w : W)
    (apiSocket : string) (machine : Machine) (nics : gmap string NetworkInterface)
    (vm : VmInfo) :
  Forall (ev_sat (powerCallJustified machine vm))
    (run h (reconcileLiveVM apiSocket machine nics vm) w).2.
Proof.
  apply (post_run_proj h (reconcileLiveVM apiSocket machine nics vm)
           (fun _ tr => Forall (ev_sat (powerCallJustified machine vm)) tr)).
  apply calls_only_post, reconcileLiveVM_power.
Qed.

Lemma networkInterfaceStatusOf_names (nics : gmap string NetworkInterface)
    (nis : list MachineNetworkInterfaceSpec) :
  mnis_Name <$> (networkInterfaceStatusOf nics <$> nis) = mni_Name <$> nis.
Proof.
  induction nis as [|ni nis IH]; cbn; [done|]. rewrite IH. f_equal.
  unfold networkInterfaceStatusOf. destruct (nics !! mni_Name ni); [|done].
  by case_bool_decide.
Qed.

Lemma reconcileLiveVM_post_status (apiSocket : string) (machine : Machine)
    (nics : gmap string NetworkInterface) (vm : VmInfo) :
  post (reconcileLiveVM apiSocket machine nics vm)
    (fun o tr => o = Returned None ->
                 exists e, last tr = Some e /\ finalStatusWritten machine e).
Proof.
  unfold reconcileLiveVM. destruct (negb _); [done|].
  apply post_bind. apply post_any. intros [[e|]|msg] tr1; [done| |done].
  apply post_bind. apply post_any. intros [rn|msg] tr2; [|done].
  destruct (snd rn); [done|].
  apply post_bind. eapply post_mono; [|apply attachDetachDisks_post]. cbn.
  intros o tr3 (_ & m' & err & -> & Hid & Hspec). cbn.
  destruct err; [done|]. cbn. intros u. destruct u as [m2|e]; [|done].
  intros _. eexists. rewrite !app_assoc. rewrite last_snoc. split; [reflexivity|].
  cbn. split; [done|]. split; [done|]. rewrite Hspec. split; [done|].
  apply networkInterfaceStatusOf_names.
Qed.

(** X21. When a pass over a live VM returns nil, its last call is the store
    update of the machine, with the spec unchanged, state [Running] if the
    spec says power on and [Terminated] if it says power off, and one NIC
    status for each NIC of the spec, under the NIC's name and in the order of
    the spec. *)
Theorem reconcileLiveVM_final_status (W : Type) (h : Handler W) (w : W)
    (apiSocket : string) (machine : Machine) (nics : gmap string NetworkInterface)
    (vm : VmInfo) :
  (run h (reconcileLiveVM apiSocket machine nics vm) w).1.1 = Returned None ->
  exists e, last (run h (reconcileLiveVM apiSocket machine nics vm) w).2 = Some e
            /\ finalStatusWritten machine e.
Proof.
  apply (post_run_proj h (reconcileLiveVM apiSocket machine nics vm)
           (fun o tr => o = Returned None ->
                        exists e, last tr = Some e /\ finalStatusWritten machine e)).
  apply reconcileLiveVM_post_status.
Qed.

Lemma reconcileLiveVM_final_status_witness :
  exists e,
    last (run Demo.handler
            (reconcileLiveVM "/run/chp/m1.sock" Demo.socketed ∅ DemoLive.vm)
            (Demo.world_of Demo.socketed)).2 = Some e
    /\ finalStatusWritten Demo.socketed e.
Proof.
  apply (reconcileLiveVM_final_status Demo.World Demo.handler (Demo.world_of Demo.socketed)
           "/run/chp/m1.sock" Demo.socketed ∅ DemoLive.vm).
  vm_compute. reflexivity.
Defined.

(** ** The VMM manager: lock, client and answers *)

(** X22. Without a client for the machine, [CreateVM] sends no request: it
    takes the machine's lock, returns the not-found sentinel and releases the
    lock. *)
Theorem CreateVM_without_client (m : Vmm.Manager) (machine : Machine)
    (W : Type) (h : Handler W) (w : W) :
  Vmm.vms m !! ID machine = None ->
  (run h (Vmm.CreateVM m machine) w).1.1 = Returned (Some (ErrSentinel vmm_ErrNotFound))
  /\ (run h (Vmm.CreateVM m machine) w).2
     = [Ev (MutexLock (ID machine)) tt; Ev (MutexUnlock (ID machine)) tt].
Proof.
  intros Hvms. unfold Vmm.CreateVM. rewrite Hvms. cbn.
  destruct (h _ (MutexLock (ID machine)) w) as [[] w1]. cbn.
  by destruct (h _ (MutexUnlock (ID machine)) w1) as [[] w2].
Qed.

Lemma CreateVM_without_client_witness :
  (run Demo.handler (Vmm.CreateVM DemoVmm.manager DemoUnknown.machine)
       (Demo.world_of DemoUnknown.machine)).1.1
  = Returned (Some (ErrSentinel vmm_ErrNotFound))
  /\ (run Demo.handler (Vmm.CreateVM DemoVmm.manager DemoUnknown.machine)
          (Demo.world_of DemoUnknown.machine)).2
     = [Ev (MutexLock "m2") tt; Ev (MutexUnlock "m2") tt].
Proof.
  apply (CreateVM_without_client DemoVmm.manager DemoUnknown.machine
           Demo.World Demo.handler (Demo.world_of DemoUnknown.machine)).
  reflexivity.
Defined.

Section api_facts.
Import VmmApi.
Context {W : Type} (h : ApiHandler W).

(** X23. [GetVM] works under the machine's lock: the first call of every
    run takes it and the last releases it.  It reports vm-not-created exactly
    when the client answered with status 500 and the body ["VM is not
    created"]; and it returns a nil VM together with a nil error exactly when
    the client answered with any other response whose [JSON200] is nil. *)
Theorem GetVM_answers (m : Vmm.Manager) (machineId : string) (w : W) :
  let w1 := (h _ (IdMuLock machineId) w).2 in
  let answered (res : GetVmInfoResponse) :=
    exists apiClient,
      Vmm.vms m !! machineId = Some apiClient
      /\ (h _ (GetVmInfoWithResponse apiClient) w1).1 = Ok res in
  let notCreated (res : GetVmInfoResponse) :=
    info_StatusCode res = 500%Z /\ info_Body res = "VM is not created" in
  head (exec h (GetVM m machineId) w).2 = Some (Did (IdMuLock machineId) tt)
  /\ last (exec h (GetVM m machineId) w).2 = Some (Did (IdMuUnlock machineId) tt)
  /\ ((exec h (GetVM m machineId) w).1.1 = Returned (Fail (ErrSentinel vmm_ErrVmNotCreated))
      <-> exists res, answered res /\ notCreated res)
  /\ ((exec h (GetVM m machineId) w).1.1 = Returned (Ok None)
      <-> exists res, answered res /\ ~ notCreated res /\ info_JSON200 res = None).
Proof.
  cbn zeta. unfold GetVM. cbn.
  destruct (h _ (IdMuLock machineId) w) as [[] w1]. cbn.
  destruct (Vmm.vms m !! machineId) as [apiClient|]; cbn.
  2:{ destruct (h _ (IdMuUnlock machineId) w1) as [[] w2]. cbn.
      repeat split; try done; by intros (? & (? & [=] & _) & _). }
  destruct (h _ (GetVmInfoWithResponse apiClient) w1) as [[res|err] w2] eqn:Hres; cbn.
  2:{ destruct (h _ (IdMuUnlock machineId) w2) as [[] w3]. cbn.
      repeat split; try done; intros (? & (? & [= <-] & Ha) & _);
        rewrite Hres in Ha; discriminate Ha. }
  assert (Hone : forall res', (exists c, Some apiClient = Some c
                                 /\ (h _ (GetVmInfoWithResponse c) w1).1 = Ok res')
                              <-> res' = res).
  { intros res'. split.
    - intros (c & [= <-] & Ha). rewrite Hres in Ha. by injection Ha.
    - intros ->. exists apiClient. by rewrite Hres. }
  destruct (Z.eqb_spec (info_StatusCode res) 500) as [Hs|Hs]; cbn.
  - destruct (String.eqb_spec (info_Body res) "VM is not created") as [Hb|Hb]; cbn.
    + destruct (h _ (IdMuUnlock machineId) w2) as [[] w3]. cbn.
      split; [done|]. split; [done|]. split.
      * split; [|done]. intros _. exists res. split; [by apply Hone|done].
      * split; [done|]. intros (res' & ->%Hone & Hn & _). by destruct Hn.
    + destruct (h _ (IdMuUnlock machineId) w2) as [[] w3]. cbn.
      split; [done|]. split; [done|]. split.
      * split; [done|]. intros (res' & ->%Hone & _ & Hb'). done.
      * split.
        -- intros [= Hj]. exists res. split; [by apply Hone|]. split; [|done].
           by intros [_ Hb'].
        -- intros (res' & ->%Hone & _ & ->). done.
  - destruct (h _ (IdMuUnlock machineId) w2) as [[] w3]. cbn.
    split; [done|]. split; [done|]. split.
    + split; [done|]. intros (res' & ->%Hone & Hs' & _). done.
    + split.
      * intros [= Hj]. exists res. split; [by apply Hone|]. split; [|done].
        by intros [Hs' _].
      * intros (res' & ->%Hone & _ & ->). done.
Qed.

(** X24. [Ping] works under the machine's lock and releases it on every way
    out: the last call of every run is the unlock, also when [Ping] panics.
    Without a client it sends no request and returns the not-found sentinel;
    and it panics exactly when the client answered with a response whose
    [JSON200] is nil. *)
Theorem Ping_releases_lock (m : Vmm.Manager) (machineId : string) (w : W) :
  let w1 := (h _ (IdMuLock machineId) w).2 in
  last (exec h (Ping m machineId) w).2 = Some (Did (IdMuUnlock machineId) tt)
  /\ (Vmm.vms m !! machineId = None ->
      (exec h (Ping m machineId) w).1.1 = Returned (Some (ErrSentinel vmm_ErrNotFound))
      /\ Forall (fun e => ~ isRequest e) (exec h (Ping m machineId) w).2)
  /\ ((exists msg, (exec h (Ping m machineId) w).1.1 = Panicked msg)
      <-> exists apiClient resp,
            Vmm.vms m !! machineId = Some apiClient
            /\ (h _ (GetVmmPingWithResponse apiClient) w1).1 = Ok resp
            /\ ping_JSON200 resp = None).
Proof.
  cbn zeta. unfold Ping, ping. cbn.
  destruct (h _ (IdMuLock machineId) w) as [[] w1]. cbn.
  destruct (Vmm.vms m !! machineId) as [apiClient|]; cbn.
  2:{ destruct (h _ (IdMuUnlock machineId) w1) as [[] w2]. cbn.
      split; [done|]. split.
      - intros _. split; [done|]. repeat constructor; cbn; tauto.
      - split; [by intros [? [=]]|]. by intros (? & ? & [=] & _). }
  destruct (h _ (GetVmmPingWithResponse apiClient) w1) as [[resp|err] w2] eqn:Hresp; cbn.
  - destruct (ping_JSON200 resp) as [v|] eqn:Hj; cbn.
    + destruct (h _ (IdMuUnlock machineId) w2) as [[] w3]. cbn.
      split; [done|]. split; [done|]. split; [by intros [? [=]]|].
      intros (c & resp' & [= <-] & Ha & Hn). rewrite Hresp in Ha. injection Ha as <-.
      congruence.
    + destruct (h _ (IdMuUnlock machineId) w2) as [[] w3]. cbn.
      split; [done|]. split; [done|]. split; [|by eexists].
      intros _. exists apiClient, resp. by rewrite Hresp.
  - destruct (h _ (IdMuUnlock machineId) w2) as [[] w3]. cbn.
    split; [done|]. split; [done|]. split; [by intros [? [=]]|].
    intros (c & resp' & [= <-] & Ha & _). rewrite Hresp in Ha. discriminate Ha.
Qed.

End api_facts.
